(** * startup-config.js: the configuration merge engine and the Ollama provisioner

    A shallow embedding of [src/startup-config.js].  The script loads a JSON
    document, force-merges the gateway defaults, preserve-merges the agent
    defaults, optionally provisions an Ollama provider from the environment
    and writes the document back.

    Modelling boundaries.
    - Numbers are integers ([Z]); fractions, NaN and the infinities of
      JavaScript numbers are not represented.
    - Strings are [string]; a string's length and characters are those of the
      Rocq string (ASCII text).
    - A property is looked up among the own properties of an object.  Keys
      that name members inherited from a prototype ("constructor", "some",
      "__proto__", ...) are not given their inherited meaning.
    - The script runs in sloppy mode: an assignment to a property of a
      primitive is ignored, a property access on [undefined] or [null]
      throws a TypeError.
    - [fs] failures are not modelled. *)

From Stdlib Require Import List String Ascii ZArith NArith Arith Bool Lia.
From Stdlib Require Import DecimalString DecimalPos DecimalN.
Import ListNotations.
Local Open Scope string_scope.
Local Open Scope list_scope.
Local Open Scope Z_scope.

Set Implicit Arguments.

(** ** Values *)

(** A JavaScript value as the script can meet one.  An object carries its own
    enumerable properties in the order [Object.keys] lists them.  An array
    carries its elements and, because an array is an object too, the named
    properties that were assigned to it.  A hole of an array is [VUndef]; an
    element that is present and undefined is not told apart from a hole (a
    JSON document has neither, and the script stores no undefined). *)
#[warnings="-register-all"]
Inductive value : Type :=
| VUndef
| VNull
| VBool (b : bool)
| VNum (n : Z)
| VStr (s : string)
| VArr (elems : list value) (named : list (string * value))
| VObj (props : list (string * value)).

Definition props := list (string * value).

(** Thrown exceptions. *)
Inductive error : Type := TypeError | RangeError.

Inductive result (A : Type) : Type :=
| Ok (a : A)
| Throw (e : error).
Arguments Ok {A} a.
Arguments Throw {A} e.

Definition bind {A B : Type} (m : result A) (k : A -> result B) : result B :=
  match m with
  | Ok a => k a
  | Throw e => Throw e
  end.

Notation "x <- m ;; k" := (bind m (fun x => k))
  (at level 61, m at next level, right associativity).

(** ** Induction over values *)

Section ValueInd.
Variable P : value -> Prop.
Hypothesis Hundef : P VUndef.
Hypothesis Hnull : P VNull.
Hypothesis Hbool : forall b, P (VBool b).
Hypothesis Hnum : forall n, P (VNum n).
Hypothesis Hstr : forall s, P (VStr s).
Hypothesis Harr : forall es ps,
    Forall P es -> Forall (fun kv => P (snd kv)) ps -> P (VArr es ps).
Hypothesis Hobj : forall ps,
    Forall (fun kv => P (snd kv)) ps -> P (VObj ps).

Fixpoint value_ind' (v : value) : P v :=
  let fix on_elems (es : list value) : Forall P es :=
      match es with
      | [] => Forall_nil _
      | e :: es' => Forall_cons _ (value_ind' e) (on_elems es')
      end in
  let fix on_props (ps : props) : Forall (fun kv => P (snd kv)) ps :=
      match ps with
      | [] => Forall_nil _
      | kv :: ps' => Forall_cons _ (value_ind' (snd kv)) (on_props ps')
      end in
  match v with
  | VUndef => Hundef
  | VNull => Hnull
  | VBool b => Hbool b
  | VNum n => Hnum n
  | VStr s => Hstr s
  | VArr es ps => Harr (on_elems es) (on_props ps)
  | VObj ps => Hobj (on_props ps)
  end.
End ValueInd.

(** ** Strict equality with a string *)

(** [x === s] for a string [s]: strict equality never coerces. *)
Definition strict_eq_str (x : value) (s : string) : bool :=
  match x with
  | VStr t => String.eqb t s
  | _ => false
  end.

(** ** Truthiness and [typeof] *)

Definition truthy (v : value) : bool :=
  match v with
  | VUndef | VNull => false
  | VBool b => b
  | VNum n => negb (n =? 0)
  | VStr s => negb (String.eqb s "")
  | VArr _ _ | VObj _ => true
  end.

(** [typeof v === 'object'] (true of [null], arrays and objects). *)
Definition typeof_object (v : value) : bool :=
  match v with
  | VNull | VArr _ _ | VObj _ => true
  | _ => false
  end.

Definition isArray (v : value) : bool :=
  match v with
  | VArr _ _ => true
  | _ => false
  end.

Definition is_undefined (v : value) : bool :=
  match v with
  | VUndef => true
  | _ => false
  end.

(** ** Property keys *)

(** The decimal numeral of a number. *)
Definition numeral (n : N) : string :=
  NilEmpty.string_of_uint (N.to_uint n).

(** The number a canonical decimal numeral stands for: digits only, not
    empty, no leading zero except for "0" itself. *)
Definition canonical_numeral (k : string) : option N :=
  match NilEmpty.uint_of_string k with
  | Some d =>
      let n := N.of_uint d in
      if String.eqb (numeral n) k then Some n else None
  | None => None
  end.

(** An array index is a canonical numeral below 2^32 - 1. *)
Definition array_index (k : string) : option nat :=
  match canonical_numeral k with
  | Some n => if (n <? 4294967295)%N then Some (N.to_nat n) else None
  | None => None
  end.

Definition key_of_index (i : nat) : string := numeral (N.of_nat i).

(** ** Own properties of an object *)

Fixpoint lookup (ps : props) (k : string) : option value :=
  match ps with
  | [] => None
  | (k', v) :: rest => if String.eqb k' k then Some v else lookup rest k
  end.

Definition has_key (ps : props) (k : string) : bool :=
  match lookup ps k with
  | Some _ => true
  | None => false
  end.

(** Overwrite the value of a key that is present, in its place. *)
Fixpoint replace_value (ps : props) (k : string) (x : value) : props :=
  match ps with
  | [] => []
  | (k', v) :: rest =>
      if String.eqb k' k then (k', x) :: rest
      else (k', v) :: replace_value rest k x
  end.

(** A new array-index key goes among the index keys, in ascending order;
    these come before every other key. *)
Fixpoint insert_index (ps : props) (i : nat) (k : string) (x : value) : props :=
  match ps with
  | [] => [(k, x)]
  | (k', v) :: rest =>
      match array_index k' with
      | Some j =>
          if (j <? i)%nat then (k', v) :: insert_index rest i k x
          else (k, x) :: ps
      | None => (k, x) :: ps
      end
  end.

(** [o[k] = x] on an ordinary object. *)
Definition obj_set (ps : props) (k : string) (x : value) : props :=
  if has_key ps k then replace_value ps k x
  else match array_index k with
       | Some i => insert_index ps i k x
       | None => ps ++ [(k, x)]
       end.

(** ** Arrays and strings as objects *)

Fixpoint replace_nth (es : list value) (i : nat) (x : value) : list value :=
  match es, i with
  | [], _ => []
  | _ :: rest, O => x :: rest
  | e :: rest, S i' => e :: replace_nth rest i' x
  end.

Definition arr_get (es : list value) (named : props) (k : string) : value :=
  match array_index k with
  | Some i => nth i es VUndef
  | None =>
      if String.eqb k "length" then VNum (Z.of_nat (List.length es))
      else match lookup named k with
           | Some v => v
           | None => VUndef
           end
  end.

(** The number an assignment to [length] is coerced to, when it is a valid
    array length.  Numbers, [null] and booleans are coerced as JavaScript
    does; a string only when it is empty or a canonical decimal numeral.
    Every other value counts as not a number, which is coarser than
    JavaScript for strings written in another way (blanks, a sign, an
    exponent, a radix prefix) and for arrays of at most one element. *)
Definition to_length (x : value) : option nat :=
  match x with
  | VNum n => if (0 <=? n) && (n <? 4294967296) then Some (Z.to_nat n) else None
  | VNull => Some O
  | VBool b => Some (if b then 1%nat else O)
  | VStr s =>
      if String.eqb s "" then Some O
      else match canonical_numeral s with
           | Some n => if (n <? 4294967296)%N then Some (N.to_nat n) else None
           | None => None
           end
  | _ => None
  end.

Definition resize (es : list value) (n : nat) : list value :=
  firstn n es ++ repeat VUndef (n - List.length es).

Definition arr_set (es : list value) (named : props) (k : string) (x : value)
  : result value :=
  match array_index k with
  | Some i =>
      if (i <? List.length es)%nat then Ok (VArr (replace_nth es i x) named)
      else Ok (VArr (es ++ repeat VUndef (i - List.length es) ++ [x]) named)
  | None =>
      if String.eqb k "length" then
        match to_length x with
        | Some n => Ok (VArr (resize es n) named)
        | None => Throw RangeError
        end
      else Ok (VArr es (obj_set named k x))
  end.

Definition str_get (s : string) (k : string) : value :=
  match array_index k with
  | Some i =>
      if (i <? String.length s)%nat then VStr (substring i 1 s) else VUndef
  | None =>
      if String.eqb k "length" then VNum (Z.of_nat (String.length s))
      else VUndef
  end.

(** ** [v[k]] and [v[k] = x] *)

Definition get_prop (v : value) (k : string) : result value :=
  match v with
  | VUndef | VNull => Throw TypeError
  | VBool _ | VNum _ => Ok VUndef
  | VStr s => Ok (str_get s k)
  | VArr es named => Ok (arr_get es named k)
  | VObj ps => Ok (match lookup ps k with Some x => x | None => VUndef end)
  end.

(** The state of [v] after [v[k] = x]. *)
Definition set_prop (v : value) (k : string) (x : value) : result value :=
  match v with
  | VUndef | VNull => Throw TypeError
  | VBool _ | VNum _ | VStr _ => Ok v
  | VArr es named => arr_set es named k x
  | VObj ps => Ok (VObj (obj_set ps k x))
  end.

(** The state of [v] after the object held at [v[k]] was mutated in place
    into [child]: the property keeps its position. *)
Definition write_back (v : value) (k : string) (child : value) : value :=
  match v with
  | VArr es named =>
      match array_index k with
      | Some i => VArr (replace_nth es i child) named
      | None => VArr es (replace_value named k child)
      end
  | VObj ps => VObj (replace_value ps k child)
  | _ => v
  end.

(** ** The merge engine (startup-config.js, lines 24-53) *)

(** [source[key] && typeof source[key] === 'object' && !Array.isArray(source[key])] *)
Definition is_mapping (v : value) : bool :=
  truthy v && typeof_object v && negb (isArray v).

(** [!target[key] || typeof target[key] !== 'object'] *)
Definition needs_fresh (tk : value) : bool :=
  negb (truthy tk) || negb (typeof_object tk).

(** Lines 28-30 and 44-46: make sure [target[key]] can be merged into, and
    read it; yields the target after the possible assignment and the child
    the recursive call receives. *)
Definition enter (target : value) (key : string) : result (value * value) :=
  tk <- get_prop target key ;;
  t1 <- (if needs_fresh tk then set_prop target key (VObj []) else Ok target) ;;
  child <- get_prop t1 key ;;
  Ok (t1, child).

(** Lines 32-35, the leaf rule of [deepMerge]. *)
Definition preserve_leaf (target : value) (key : string) (sk : value)
  : result value :=
  tk <- get_prop target key ;;
  if is_undefined tk then set_prop target key sk else Ok target.

(** Lines 48-50, the leaf rule of [forceMerge]. *)
Definition force_leaf (target : value) (key : string) (sk : value)
  : result value :=
  set_prop target key sk.

(** The keys [Object.keys] gives for a string, with the characters bound to
    them: never mappings, so only the leaf rule applies. *)
Fixpoint merge_chars (leaf : value -> string -> value -> result value)
    (target : value) (i : nat) (s : string) : result value :=
  match s with
  | EmptyString => Ok target
  | String c rest =>
      t' <- leaf target (key_of_index i) (VStr (String c EmptyString)) ;;
      merge_chars leaf t' (S i) rest
  end.

(** The traversal [deepMerge] and [forceMerge] share; they differ in the
    leaf rule only.  The loop runs over [Object.keys(source)]. *)
Fixpoint mergeWith (leaf : value -> string -> value -> result value)
    (target source : value) {struct source} : result value :=
  let fix over_props (target : value) (entries : props) {struct entries}
      : result value :=
      match entries with
      | [] => Ok target
      | (key, sk) :: rest =>
          t' <- (if is_mapping sk then
                   tc <- enter target key ;;
                   child' <- mergeWith leaf (snd tc) sk ;;
                   Ok (write_back (fst tc) key child')
                 else leaf target key sk) ;;
          over_props t' rest
      end in
  let fix over_elems (target : value) (i : nat) (es : list value) {struct es}
      : result value :=
      match es with
      | [] => Ok target
      | VUndef :: rest => over_elems target (S i) rest
      | sk :: rest =>
          t' <- (if is_mapping sk then
                   tc <- enter target (key_of_index i) ;;
                   child' <- mergeWith leaf (snd tc) sk ;;
                   Ok (write_back (fst tc) (key_of_index i) child')
                 else leaf target (key_of_index i) sk) ;;
          over_elems t' (S i) rest
      end in
  match source with
  | VUndef | VNull => Throw TypeError
  | VBool _ | VNum _ => Ok target
  | VStr s => merge_chars leaf target O s
  | VArr es named =>
      t' <- over_elems target O es ;;
      over_props t' named
  | VObj ps => over_props target ps
  end.

(** Deep merge utility - merges source into target without overwriting
    existing values. *)
Definition deepMerge (target source : value) : result value :=
  mergeWith preserve_leaf target source.

(** Force merge - overwrites existing values (for required settings). *)
Definition forceMerge (target source : value) : result value :=
  mergeWith force_leaf target source.

(** One turn of the loop body, for one key of a source object. *)
Definition merge_key (leaf : value -> string -> value -> result value)
    (target : value) (key : string) (sk : value) : result value :=
  if is_mapping sk then
    tc <- enter target key ;;
    child' <- mergeWith leaf (snd tc) sk ;;
    Ok (write_back (fst tc) key child')
  else leaf target key sk.

(** The loop over the entries of a source object. *)
Fixpoint merge_props (leaf : value -> string -> value -> result value)
    (target : value) (entries : props) : result value :=
  match entries with
  | [] => Ok target
  | (key, sk) :: rest =>
      t' <- merge_key leaf target key sk ;;
      merge_props leaf t' rest
  end.

(** ** Paths *)

(** [v.k1.k2...kn] *)
Fixpoint get_path (v : value) (path : list string) : result value :=
  match path with
  | [] => Ok v
  | k :: rest => child <- get_prop v k ;; get_path child rest
  end.

(** The state of [v] after [v.k1...kn = x]. *)
Fixpoint set_path (v : value) (path : list string) (x : value) : result value :=
  match path with
  | [] => Ok v
  | [k] => set_prop v k x
  | k :: rest =>
      child <- get_prop v k ;;
      child' <- set_path child rest x ;;
      Ok (write_back v k child')
  end.

(** [if (!v.k1...kn) v.k1...kn = {};] *)
Definition ensure_path (v : value) (path : list string) : result value :=
  cur <- get_path v path ;;
  if truthy cur then Ok v else set_path v path (VObj []).

(** ** JSON.stringify followed by JSON.parse *)

(** What a reader of the written file gets back: a property whose value is
    undefined is left out, an undefined array element becomes [null], the
    named properties of an array are not written. *)
Fixpoint to_json (v : value) : value :=
  let fix elems (es : list value) : list value :=
      match es with
      | [] => []
      | e :: rest => to_json e :: elems rest
      end in
  let fix entries (ps : props) : props :=
      match ps with
      | [] => []
      | (k, VUndef) :: rest => entries rest
      | (k, x) :: rest => (k, to_json x) :: entries rest
      end in
  match v with
  | VUndef => VNull
  | VArr es _ => VArr (elems es) []
  | VObj ps => VObj (entries ps)
  | _ => v
  end.

(** ** parseInt *)

Definition is_space (c : ascii) : bool :=
  let n := N_of_ascii c in
  ((9 <=? n) && (n <=? 13) || (n =? 32))%N.

Fixpoint skip_spaces (s : string) : string :=
  match s with
  | String c rest => if is_space c then skip_spaces rest else s
  | EmptyString => s
  end.

Definition digit_in (radix : N) (c : ascii) : option N :=
  let n := N_of_ascii c in
  let d := if ((48 <=? n) && (n <=? 57))%N then Some (n - 48)%N
           else if ((97 <=? n) && (n <=? 122))%N then Some (n - 87)%N
           else if ((65 <=? n) && (n <=? 90))%N then Some (n - 55)%N
           else None in
  match d with
  | Some x => if (x <? radix)%N then Some x else None
  | None => None
  end.

(** The longest prefix of digits, as a number; [None] when it is empty. *)
Fixpoint leading_digits (radix : N) (s : string) (acc : option N) : option N :=
  match s with
  | EmptyString => acc
  | String c rest =>
      match digit_in radix c with
      | Some d =>
          leading_digits radix rest
            (Some (radix * match acc with Some a => a | None => 0 end + d)%N)
      | None => acc
      end
  end.

Definition strip_sign (s : string) : bool * string :=
  match s with
  | String "-" rest => (true, rest)
  | String "+" rest => (false, rest)
  | _ => (false, s)
  end.

Definition strip_hex_prefix (s : string) : N * string :=
  match s with
  | String "0" (String "x" rest) => (16%N, rest)
  | String "0" (String "X" rest) => (16%N, rest)
  | _ => (10%N, s)
  end.

(** [parseInt(s)] with no radix; [None] is NaN. *)
Definition parseInt_string (s : string) : option Z :=
  let (neg, s1) := strip_sign (skip_spaces s) in
  let (radix, s2) := strip_hex_prefix s1 in
  match leading_digits radix s2 None with
  | Some n => Some (if neg then - Z.of_N n else Z.of_N n)
  | None => None
  end.

(** [parseInt(process.env.X)]: an unset variable is [undefined], read as the
    text "undefined". *)
Definition parseInt (x : option string) : option Z :=
  match x with
  | Some s => parseInt_string s
  | None => None
  end.

(** ** The environment and the configuration file *)

Record env : Type := {
  OLLAMA_BASE_URL : option string;
  OLLAMA_API_KEY : option string;
  OLLAMA_MODEL : option string;
  OLLAMA_CONTEXT_WINDOW : option string
}.

(** Truthiness of [process.env.X]: set, and not the empty string. *)
Definition is_set (x : option string) : bool :=
  match x with
  | Some s => negb (String.eqb s "")
  | None => false
  end.

Definition text_of (x : option string) : string :=
  match x with
  | Some s => s
  | None => ""
  end.

(** [openclaw.json]: not there, there but not JSON, or a JSON document. *)
Inductive file : Type :=
| Absent
| Malformed
| Document (doc : value).

(** Lines 65-78: load the existing configuration or start fresh. *)
Definition load (f : file) : value :=
  match f with
  | Document doc => doc
  | Absent | Malformed => VObj []
  end.

(** Lines 194-196. *)
Definition save (config : value) : file := Document (to_json config).

(** ** The defaults (lines 80-109) *)

Definition plain_array (es : list value) : value := VArr es [].

Definition gatewayDefaults : value :=
  VObj [("gateway", VObj [
    ("mode", VStr "local");
    ("bind", VStr "lan");
    ("controlUi", VObj [("allowInsecureAuth", VBool true)]);
    ("auth", VObj [("mode", VStr "token")])])].

Definition agentDefaults : value :=
  VObj [("agents", VObj [("defaults", VObj [("tools", VObj [
    ("profile", VStr "standard");
    ("allow", plain_array [VStr "read"; VStr "write"; VStr "edit";
                           VStr "exec"; VStr "web"; VStr "browser"]);
    ("exec", VObj [
      ("host", VStr "gateway");
      ("ask", VStr "off");
      ("security", VStr "standard")])])])])].

(** ** The Ollama provisioner (lines 119-192) *)

(** Line 123: [parseInt(process.env.OLLAMA_CONTEXT_WINDOW) || 32768]. *)
Definition contextWindow_of (e : env) : Z :=
  match parseInt (OLLAMA_CONTEXT_WINDOW e) with
  | Some n => if n =? 0 then 32768 else n
  | None => 32768
  end.

(** The own enumerable properties an object spread [{...v}] copies, in key
    order. *)
Fixpoint indexed_from (i : nat) (es : list value) : props :=
  match es with
  | [] => []
  | VUndef :: rest => indexed_from (S i) rest
  | e :: rest => (key_of_index i, e) :: indexed_from (S i) rest
  end.

Fixpoint chars_from (i : nat) (s : string) : props :=
  match s with
  | EmptyString => []
  | String c rest =>
      (key_of_index i, VStr (String c EmptyString)) :: chars_from (S i) rest
  end.

Definition own_props (v : value) : props :=
  match v with
  | VObj ps => ps
  | VArr es named => indexed_from O es ++ named
  | VStr s => chars_from O s
  | _ => []
  end.

(** [{ ...base, ...v }] where [base] stands for the properties written
    before the spread. *)
Definition spread (base : props) (v : value) : props :=
  fold_left (fun acc kv => obj_set acc (fst kv) (snd kv)) (own_props v) base.

(** Lines 136-142, the right-hand side. *)
Definition ollama_entry (ollamaUrl ollamaKey : string) (existing : value)
  : value :=
  VObj (spread [("baseUrl", VStr ollamaUrl);
                ("apiKey", VStr ollamaKey);
                ("api", VStr "openai-completions");
                ("authHeader", VBool false)]
               (if truthy existing then existing else VObj [])).

(** Lines 153-161, the model definition. *)
Definition model_entry (ollamaModel : string) (contextWindow : Z) : value :=
  VObj [("id", VStr ollamaModel);
        ("name", VStr (String.append "Ollama - " ollamaModel));
        ("reasoning", VBool false);
        ("input", plain_array [VStr "text"]);
        ("cost", VObj [("input", VNum 0); ("output", VNum 0)]);
        ("contextWindow", VNum contextWindow);
        ("maxTokens", VNum (Z.min 8192 (contextWindow / 4)))].

(** [es.some(m => m.id === id)]: holes are skipped, the scan stops at the
    first hit. *)
Fixpoint some_id (es : list value) (id : string) : result bool :=
  match es with
  | [] => Ok false
  | VUndef :: rest => some_id rest id
  | m :: rest =>
      x <- get_prop m "id" ;;
      if strict_eq_str x id then Ok true else some_id rest id
  end.

(** [existingModels.some(...)]: only an array has the method. *)
Definition modelExists (existingModels : value) (id : string) : result bool :=
  match existingModels with
  | VArr es _ => some_id es id
  | _ => Throw TypeError
  end.

(** [[...existingModels, entry]] for an array. *)
Definition append_model (existingModels : value) (entry : value) : value :=
  match existingModels with
  | VArr es _ => plain_array (es ++ [entry])
  | _ => plain_array [entry]
  end.

Definition ollama_path : list string := ["models"; "providers"; "ollama"].
Definition models_path : list string := ["models"; "providers"; "ollama"; "models"].
Definition selector_path : list string := ["agents"; "defaults"; "model"].

(** Lines 131-142: ensure [models.providers], configure the provider. *)
Definition configure_provider (ollamaUrl ollamaKey : string) (config : value)
  : result value :=
  c1 <- ensure_path config ["models"] ;;
  c2 <- ensure_path c1 ["models"; "providers"] ;;
  existing <- get_path c2 ollama_path ;;
  set_path c2 ollama_path (ollama_entry ollamaUrl ollamaKey existing).

(** Lines 146-163: add the model definition unless it is already there. *)
Definition add_model (ollamaModel : string) (contextWindow : Z) (config : value)
  : result value :=
  found <- get_path config models_path ;;
  let existingModels := if truthy found then found else plain_array [] in
  exists_ <- modelExists existingModels ollamaModel ;;
  if exists_ then Ok config
  else set_path config models_path
         (append_model existingModels (model_entry ollamaModel contextWindow)).

(** [config.agents.defaults.model?.primary] *)
Definition currentModel (config : value) : result value :=
  m <- get_path config selector_path ;;
  match m with
  | VUndef | VNull => Ok VUndef
  | _ => get_prop m "primary"
  end.

Definition selector (ollamaModel : string) : string :=
  String.append "ollama/" ollamaModel.

(** Lines 165-181: the model of the environment takes priority. *)
Definition select_model (ollamaModel : string) (config : value)
  : result value :=
  c1 <- ensure_path config ["agents"] ;;
  c2 <- ensure_path c1 ["agents"; "defaults"] ;;
  cur <- currentModel c2 ;;
  if strict_eq_str cur (selector ollamaModel) then Ok c2
  else set_path c2 selector_path (VObj [("primary", VStr (selector ollamaModel))]).

(** What the Ollama branch printed. *)
Inductive notice : Type :=
| OllamaConfigured
| OllamaPartial (missingUrl missingKey : bool)
| OllamaNotConfigured.

(** Lines 119-192. *)
Definition provision (e : env) (config : value) : result (value * notice) :=
  let ollamaUrl := OLLAMA_BASE_URL e in
  let ollamaKey := OLLAMA_API_KEY e in
  let ollamaModel := OLLAMA_MODEL e in
  let contextWindow := contextWindow_of e in
  if is_set ollamaUrl && is_set ollamaKey then
    c1 <- configure_provider (text_of ollamaUrl) (text_of ollamaKey) config ;;
    c2 <- (if is_set ollamaModel then
             c <- add_model (text_of ollamaModel) contextWindow c1 ;;
             select_model (text_of ollamaModel) c
           else Ok c1) ;;
    Ok (c2, OllamaConfigured)
  else if is_set ollamaUrl || is_set ollamaKey then
    Ok (config, OllamaPartial (negb (is_set ollamaUrl)) (negb (is_set ollamaKey)))
  else Ok (config, OllamaNotConfigured).

(** ** The orchestrator (lines 55-215) *)

(** The configuration in memory when it is written, with the notice. *)
Definition main_config (e : env) (f : file) : result (value * notice) :=
  let config := load f in
  c1 <- forceMerge config gatewayDefaults ;;
  c2 <- deepMerge c1 agentDefaults ;;
  provision e c2.

Definition main (e : env) (f : file) : result (file * notice) :=
  cn <- main_config e f ;;
  Ok (save (fst cn), snd cn).

(** The outcome of the process: the file it leaves, what the Ollama branch
    said if it got that far, and the exit status. *)
Record outcome : Type := {
  disk : file;
  said : option notice;
  exit_status : Z
}.

(** Lines 217-224: an exception is reported and the process exits with 0;
    nothing was written. *)
Definition run (e : env) (f : file) : outcome :=
  match main e f with
  | Ok (f', n) => {| disk := f'; said := Some n; exit_status := 0 |}
  | Throw _ => {| disk := f; said := None; exit_status := 0 |}
  end.

(** ** Shapes and sample inputs *)

Definition is_object (v : value) : bool :=
  match v with
  | VArr _ _ | VObj _ => true
  | _ => false
  end.

(** A key that is neither an array index nor "length": on an array it names
    an ordinary own property. *)
Definition named_key (k : string) : bool :=
  match array_index k with
  | Some _ => false
  | None => negb (String.eqb k "length")
  end.

(** The environment of the README's local test, with a context window. *)
Definition env_with_window (w : option string) : env :=
  {| OLLAMA_BASE_URL := Some "http://172.17.0.1:11434/v1";
     OLLAMA_API_KEY := Some "ollama-local";
     OLLAMA_MODEL := Some "qwen2.5-coder:32b";
     OLLAMA_CONTEXT_WINDOW := w |}.

(** ** Paths through nested mappings *)

(** The value a path of keys leads to through nested mappings. *)
Fixpoint own_path (t : value) (p : list string) {struct p} : option value :=
  match p with
  | [] => Some t
  | k :: rest =>
      match t with
      | VObj ps =>
          match lookup ps k with
          | Some c => own_path c rest
          | None => None
          end
      | _ => None
      end
  end.

(** The path ends in a key that does not appear in the source: the source
    has mappings along a proper prefix of the path and no entry for the
    next key. *)
Fixpoint spared (source : value) (p : list string) {struct p} : bool :=
  match p with
  | [] => false
  | k :: rest =>
      match source with
      | VObj qs =>
          forallb (fun kv => negb (String.eqb (fst kv) k)
                             || (is_mapping (snd kv) && spared (snd kv) rest)) qs
      | _ => false
      end
  end.

(** The path is spared, or the source has a scalar or a sequence somewhere
    along it. *)
Fixpoint kept (source : value) (p : list string) {struct p} : bool :=
  match p with
  | [] => false
  | k :: rest =>
      match source with
      | VObj qs =>
          forallb (fun kv => negb (String.eqb (fst kv) k)
                             || negb (is_mapping (snd kv))
                             || kept (snd kv) rest) qs
      | _ => false
      end
  end.

(** A document in which the user narrowed the allowed tools and added a key
    the defaults do not know. *)
Definition user_doc : value :=
  VObj [("agents", VObj [("defaults", VObj [("tools", VObj [
          ("allow", plain_array [VStr "read"]);
          ("sandbox", VBool true)])])]);
        ("theme", VStr "dark")].

Definition allow_path : list string := ["agents"; "defaults"; "tools"; "allow"].

(** A document left by a manual edit: the provider entry names the other
    API mode and an old address. *)
Definition edited_doc : value :=
  VObj [("models", VObj [("providers", VObj [("ollama", VObj [
          ("baseUrl", VStr "http://10.0.0.9:11434/v1");
          ("api", VStr "openai-responses");
          ("timeout", VNum 30)])])])].

(** A document whose [gateway] is a sequence. *)
Definition sequence_doc : value :=
  VObj [("gateway", plain_array [VStr "lan"])].

Definition doc_of (f : file) : value :=
  match f with
  | Document doc => doc
  | Absent | Malformed => VUndef
  end.

(** ** Named fields of objects and arrays *)

(** The properties kept in the list: all own properties of an object, the
    named ones of an array. *)
Definition fields (v : value) : props :=
  match v with
  | VObj ps => ps
  | VArr _ named => named
  | _ => []
  end.

Definition with_fields (v : value) (ps : props) : value :=
  match v with
  | VObj _ => VObj ps
  | VArr es _ => VArr es ps
  | _ => v
  end.

Definition field (v : value) (k : string) : value :=
  match lookup (fields v) k with
  | Some x => x
  | None => VUndef
  end.

(** The value a mapping-valued source key is merged into. *)
Definition site (c : value) : value :=
  if needs_fresh c then VObj [] else c.

(** ** JSON documents *)

Fixpoint distinct (ks : list string) : bool :=
  match ks with
  | [] => true
  | k :: rest => negb (existsb (String.eqb k) rest) && distinct rest
  end.

(** What [JSON.parse] returns: nothing undefined, arrays without holes and
    without named properties, no key twice in an object. *)
Fixpoint json (v : value) : bool :=
  let fix all_elems (es : list value) : bool :=
      match es with
      | [] => true
      | e :: rest => json e && all_elems rest
      end in
  let fix all_entries (ps : props) : bool :=
      match ps with
      | [] => true
      | (_, x) :: rest => json x && all_entries rest
      end in
  match v with
  | VUndef => false
  | VArr es named =>
      match named with
      | [] => all_elems es
      | _ :: _ => false
      end
  | VObj ps => distinct (map fst ps) && all_entries ps
  | _ => true
  end.

Definition json_file (f : file) : bool :=
  match f with
  | Document doc => json doc
  | Absent | Malformed => true
  end.

(** [t[k] = x] for an object or an array and a named key. *)
Definition put (t : value) (k : string) (x : value) : value :=
  with_fields t (obj_set (fields t) k x).

Definition is_prim (v : value) : bool :=
  match v with
  | VBool _ | VNum _ | VStr _ => true
  | _ => false
  end.

(** [to_json] on the entries of an object. *)
Fixpoint to_json_props (ps : props) : props :=
  match ps with
  | [] => []
  | (k, VUndef) :: rest => to_json_props rest
  | (k, x) :: rest => (k, to_json x) :: to_json_props rest
  end.

(** A source written as an object literal with named keys, none twice, and
    JSON values at the leaves. *)
Fixpoint plain_source (s : value) : bool :=
  let fix all_entries (qs : props) : bool :=
      match qs with
      | [] => true
      | (k, sk) :: rest =>
          named_key k
          && (if is_mapping sk then plain_source sk else json sk)
          && all_entries rest
      end in
  match s with
  | VObj qs => distinct (map fst qs) && all_entries qs
  | _ => false
  end.

(** The two leaf rules of the script. *)
Definition std_leaf (leaf : value -> string -> value -> result value) : Prop :=
  leaf = preserve_leaf \/ leaf = force_leaf.

(** [r] is the node [t] with other named fields: an object stays an object,
    an array keeps its elements. *)
Definition same_node (t r : value) : Prop :=
  is_object t = true /\ r = with_fields t (fields r).

(** The node [t] after the value held at its named key [k] became [c]. *)
Definition wb (t : value) (k : string) (c : value) : value :=
  with_fields t (replace_value (fields t) k c).

(** The mappings inside the two defaults. *)
Definition gateway_settings : value := field gatewayDefaults "gateway".
Definition agents_settings : value := field agentDefaults "agents".

Definition defaults_settings : value := field agents_settings "defaults".

(** [m?.primary] *)
Definition primary_of (m : value) : value :=
  match m with
  | VUndef | VNull => VUndef
  | _ => match get_prop m "primary" with
         | Ok x => x
         | Throw _ => VUndef
         end
  end.

Definition selected (ollamaModel : string) : value :=
  VObj [("primary", VStr (selector ollamaModel))].

Definition tools_settings : value := field defaults_settings "tools".

(** The default model a loaded document selects, read the way the script
    reads it after the merges: through [agents] and [defaults] where these
    are objects or arrays. *)
Definition persisted_selector (t : value) : value :=
  primary_of (field (site (field (site (field t "agents")) "defaults")) "model").

(** A document that selects [ollama/modelA], and a run that supplies
    [modelB]. *)
Definition model_a_doc : value :=
  VObj [("agents", VObj [("defaults", VObj [("model", VObj [
          ("primary", VStr "ollama/modelA");
          ("fallback", VStr "ollama/modelC")])])])].

Definition env_model_b : env :=
  {| OLLAMA_BASE_URL := Some "http://172.17.0.1:11434/v1";
     OLLAMA_API_KEY := Some "ollama-local";
     OLLAMA_MODEL := Some "modelB";
     OLLAMA_CONTEXT_WINDOW := None |}.


(** ** The provisioner, seen from the subtree it works on *)

(** Lines 145-163 on the provider entry itself. *)
Definition entry_add_model (m : string) (cw : Z) (entry : value) : result value :=
  let found := field entry "models" in
  let existingModels := if truthy found then found else plain_array [] in
  exists_ <- modelExists existingModels m ;;
  Ok (if exists_ then entry
      else put entry "models" (append_model existingModels (model_entry m cw))).

(** What becomes of [providers.ollama]. *)
Definition provider_step (e : env) (existing : value) : result value :=
  let entry := ollama_entry (text_of (OLLAMA_BASE_URL e))
                            (text_of (OLLAMA_API_KEY e)) existing in
  if is_set (OLLAMA_MODEL e)
  then entry_add_model (text_of (OLLAMA_MODEL e)) (contextWindow_of e) entry
  else Ok entry.

(** What becomes of [models.providers]. *)
Definition providers_step (e : env) (p : value) : result value :=
  let p0 := if truthy p then p else VObj [] in
  if is_object p0 then
    x <- provider_step e (field p0 "ollama") ;; Ok (put p0 "ollama" x)
  else if is_set (OLLAMA_MODEL e) then Throw TypeError else Ok p0.

(** What becomes of [models]. *)
Definition models_step (e : env) (mv : value) : result value :=
  let m0 := if truthy mv then mv else VObj [] in
  if is_object m0 then
    x <- providers_step e (field m0 "providers") ;; Ok (put m0 "providers" x)
  else Throw TypeError.

(** Lines 131-163 as one step. *)
Definition provide (e : env) (config : value) : result value :=
  c1 <- configure_provider (text_of (OLLAMA_BASE_URL e))
                           (text_of (OLLAMA_API_KEY e)) config ;;
  if is_set (OLLAMA_MODEL e)
  then add_model (text_of (OLLAMA_MODEL e)) (contextWindow_of e) c1
  else Ok c1.

(** The steps of the provisioner with the path as a parameter, so that they
    can be followed down from the root to the subtree they change. *)
Definition set_entry_at (u k : string) (path : list string) (config : value)
  : result value :=
  existing <- get_path config path ;;
  set_path config path (ollama_entry u k existing).

Definition add_model_at (m : string) (cw : Z) (path : list string)
    (config : value) : result value :=
  found <- get_path config path ;;
  let existingModels := if truthy found then found else plain_array [] in
  exists_ <- modelExists existingModels m ;;
  if exists_ then Ok config
  else set_path config path (append_model existingModels (model_entry m cw)).

(** Apply [F] to the value held at the named key [k] of [t]. *)
Definition descend (k : string) (F : value -> result value) (t : value)
  : result value :=
  c' <- F (field t k) ;; Ok (wb t k c').

(** The provisioner below [models.providers] and below [models]. *)
Definition provide_in_providers (e : env) (p0 : value) : result value :=
  c <- set_entry_at (text_of (OLLAMA_BASE_URL e)) (text_of (OLLAMA_API_KEY e))
         ["ollama"] p0 ;;
  if is_set (OLLAMA_MODEL e)
  then add_model_at (text_of (OLLAMA_MODEL e)) (contextWindow_of e)
         ["ollama"; "models"] c
  else Ok c.

Definition provide_in_models (e : env) (m0 : value) : result value :=
  c1 <- ensure_path m0 ["providers"] ;;
  c2 <- set_entry_at (text_of (OLLAMA_BASE_URL e)) (text_of (OLLAMA_API_KEY e))
          ["providers"; "ollama"] c1 ;;
  if is_set (OLLAMA_MODEL e)
  then add_model_at (text_of (OLLAMA_MODEL e)) (contextWindow_of e)
         ["providers"; "ollama"; "models"] c2
  else Ok c2.

(** The elements of a model sequence; nothing when there is no array. *)
Definition sequence_of (v : value) : list value :=
  match v with
  | VArr es _ => es
  | _ => []
  end.

(** [m.id === id] for an element of the sequence. *)
Definition has_id (id : string) (x : value) : bool :=
  match get_prop x "id" with
  | Ok v => strict_eq_str v id
  | Throw _ => false
  end.

Definition count_id (id : string) (es : list value) : nat :=
  List.length (filter (has_id id) es).

(** A configuration whose provider entry already lists a model [a]. *)
Definition listed_doc : value :=
  VObj [("models", VObj [("providers", VObj [("ollama", VObj [
          ("models", plain_array [VObj [("id", VStr "a")]])])])])].

(** ** Updates of the named fields of a node, one key after another *)

(** Each step reads the value at a key, computes the new one and stores it. *)
Fixpoint run_steps (t : value) (steps : list (string * (value -> result value)))
  : result value :=
  match steps with
  | [] => Ok t
  | (k, g) :: rest => x <- g (field t k) ;; run_steps (put t k x) rest
  end.

(** Absent, or a JSON value: what a step finds at a key of a document. *)
Definition found_in_json (c : value) : Prop := c = VUndef \/ json c = true.

(** An update of one value repeats itself on what was written: run again on
    the written result, it succeeds and what is then written is the same. *)
Definition settles (g : value -> result value) : Prop :=
  forall c c1, found_in_json c -> g c = Ok c1 ->
    is_undefined c1 = false /\
    exists c2, g (to_json c1) = Ok c2 /\ is_undefined c2 = false /\
               to_json c2 = to_json c1.

Definition all_defined (ps : props) : Prop :=
  Forall (fun kv => is_undefined (snd kv) = false) ps.

(** The merge loop as updates of the fields of the target. *)
Definition leaf_of (force : bool) : value -> string -> value -> result value :=
  if force then force_leaf else preserve_leaf.

Definition merge_child (force : bool) (sk : value) (c : value) : result value :=
  if is_mapping sk then mergeWith (leaf_of force) (site c) sk
  else Ok (if force then sk else if is_undefined c then sk else c).

Definition merge_steps (force : bool) (qs : props)
  : list (string * (value -> result value)) :=
  map (fun kv => (fst kv, merge_child force (snd kv))) qs.

(** ** The order of keys in the provider entry *)

(** Index keys in strictly ascending order. *)
Fixpoint ascending (ks : list string) : Prop :=
  match ks with
  | [] => True
  | k :: rest =>
      (exists i, array_index k = Some i /\
                 Forall (fun k' => exists j, array_index k' = Some j /\ (i < j)%nat) rest)
      /\ ascending rest
  end.

(** The keys of an object literal that started with the keys [bk]: the
    index keys come first, ascending, then [bk], then the other keys. *)
Definition framed (bk : list string) (R : props) : Prop :=
  exists Ik Tk,
    map fst R = Ik ++ bk ++ Tk /\
    ascending Ik /\
    Forall (fun k => array_index k = None) (bk ++ Tk) /\
    NoDup (map fst R).

Definition set_all (L : props) (base : props) : props :=
  fold_left (fun acc kv => obj_set acc (fst kv) (snd kv)) L base.

(** The fields the object literal of lines 136-142 starts with. *)
Definition base_fields (u k : string) : props :=
  [("baseUrl", VStr u);
   ("apiKey", VStr k);
   ("api", VStr "openai-completions");
   ("authHeader", VBool false)].

(** A value that is written and read back as it is. *)
Definition written_as_is (x : value) : Prop :=
  to_json x = x /\ is_undefined x = false.

(** ** The orchestrator, seen from the three subtrees it works on *)

(** The run sets the default model. *)
Definition selecting (e : env) : bool :=
  is_set (OLLAMA_BASE_URL e) && is_set (OLLAMA_API_KEY e) && is_set (OLLAMA_MODEL e).

(** What becomes of [agents.defaults.model]. *)
Definition model_step (e : env) (mm : value) : result value :=
  Ok (if strict_eq_str (primary_of mm) (selector (text_of (OLLAMA_MODEL e)))
      then mm else selected (text_of (OLLAMA_MODEL e))).

Definition tools_step (c : value) : result value :=
  mergeWith preserve_leaf (site c) tools_settings.

(** What becomes of [agents.defaults]. *)
Definition defaults_steps (e : env) : list (string * (value -> result value)) :=
  ("tools", tools_step)
  :: (if selecting e then [("model", model_step e)] else []).

Definition defaults_step (e : env) (d : value) : result value :=
  run_steps (site d) (defaults_steps e).

(** What becomes of [agents]. *)
Definition agents_step (e : env) (a : value) : result value :=
  run_steps (site a) [("defaults", defaults_step e)].

(** What becomes of [gateway]. *)
Definition gateway_step (c : value) : result value :=
  mergeWith force_leaf (site c) gateway_settings.

Definition root_steps (e : env) : list (string * (value -> result value)) :=
  ("gateway", gateway_step)
  :: ("agents", agents_step e)
  :: (if is_set (OLLAMA_BASE_URL e) && is_set (OLLAMA_API_KEY e)
      then [("models", models_step e)] else []).

(** Line 184-191: what the Ollama branch prints. *)
Definition notice_of (e : env) : notice :=
  if is_set (OLLAMA_BASE_URL e) && is_set (OLLAMA_API_KEY e) then OllamaConfigured
  else if is_set (OLLAMA_BASE_URL e) || is_set (OLLAMA_API_KEY e)
       then OllamaPartial (negb (is_set (OLLAMA_BASE_URL e)))
                          (negb (is_set (OLLAMA_API_KEY e)))
       else OllamaNotConfigured.

(** The environment that enables provisioning with a base URL and an API
    key and names no model. *)
Definition env_without_model (u k : string) : env :=
  {| OLLAMA_BASE_URL := Some u;
     OLLAMA_API_KEY := Some k;
     OLLAMA_MODEL := None;
     OLLAMA_CONTEXT_WINDOW := None |}.

(** ** Values at the leaves of a merge source *)

(** No sequence of the target stands where the path [p] goes on through a
    mapping: at every key of [p] but the last the target holds a mapping,
    nothing, or a value the merge replaces by a fresh mapping. *)
Fixpoint open_path (t : value) (p : list string) {struct p} : bool :=
  match p with
  | [] => true
  | k :: rest =>
      match rest with
      | [] => true
      | _ :: _ =>
          match field t k with
          | VArr _ _ => false
          | VObj _ as c => open_path c rest
          | _ => true
          end
      end
  end.

(** What a merge leaves at a key whose source value [v] is a scalar or a
    sequence, when the target held [old] there. *)
Definition merged_leaf (force : bool) (old : option value) (v : value) : value :=
  if force then v
  else match old with
       | Some x => if is_undefined x then v else x
       | None => v
       end.

(** A document whose gateway was set up by hand for remote access. *)
Definition remote_doc : value :=
  VObj [("gateway", VObj [("mode", VStr "remote");
                          ("auth", VStr "none");
                          ("port", VNum 18789)]);
        ("theme", VStr "dark")].

(** ** The document of a first start *)


(** The process that caught an exception: nothing written, nothing said
    by the Ollama branch, exit status 0. *)
Definition aborted (f : file) : outcome :=
  {| disk := f; said := None; exit_status := 0 |}.

(** ** The part of the document a run leaves alone *)

(** Neither path leads to the other: they part at some key. *)
Fixpoint apart (p q : list string) : bool :=
  match p, q with
  | k :: p', k' :: q' => if String.eqb k k' then apart p' q' else true
  | _, _ => false
  end.

(** A path of the document no step of the run writes to: its last key is
    named by neither of the defaults, and it stays clear of the provider
    entry when Ollama is provisioned and of the model selection when a model
    is selected. *)
Definition untouched (e : env) (p : list string) : bool :=
  spared gatewayDefaults p && spared agentDefaults p
  && (negb (is_set (OLLAMA_BASE_URL e) && is_set (OLLAMA_API_KEY e))
      || apart p ollama_path)
  && (negb (selecting e) || apart p selector_path).

(** A document with settings of its own beside those the run manages. *)
Definition custom_doc : value :=
  VObj [("theme", VStr "dark");
        ("gateway", VObj [("port", VNum 18789)]);
        ("models", VObj [("providers", VObj [
           ("openai", VObj [("apiKey", VStr "sk-1")]);
           ("ollama", VObj [("api", VStr "openai-responses");
                            ("timeout", VNum 30)])])]);
        ("agents", VObj [("defaults", VObj [("timeoutSeconds", VNum 60)])])].

(** ** Decimal numerals in the environment *)

(** The decimal numeral of [n]. *)
Definition decimal (n : N) : string := NilEmpty.string_of_uint (N.to_uint n).

Definition starts_with_digit (s : string) : bool :=
  match s with
  | String c _ => match digit_in 10 c with Some _ => true | None => false end
  | EmptyString => false
  end.

(** ** The summary (lines 199-214) *)

(** [v?.k] *)
Definition optional (v : value) (k : string) : result value :=
  match v with
  | VUndef | VNull => Ok VUndef
  | _ => get_prop v k
  end.

(** [Object.keys(v)] *)
Definition keys_of (v : value) : list string := map fst (own_props v).

(** Line 203: [Object.keys(config.models?.providers || {})]. *)
Definition summary_providers (config : value) : result (list string) :=
  m <- get_prop config "models" ;;
  p <- optional m "providers" ;;
  Ok (keys_of (if truthy p then p else VObj [])).

(** Line 208: [config.agents?.defaults?.model?.primary]. *)
Definition summary_default_model (config : value) : result value :=
  a <- get_prop config "agents" ;;
  d <- optional a "defaults" ;;
  m <- optional d "model" ;;
  optional m "primary".

(** The two lines of the summary; a line is printed when there is a
    provider, and when the default model is truthy. *)
Record summary : Type := {
  providers_line : option (list string);
  default_model_line : option value
}.

Definition summary_of (config : value) : result summary :=
  providers <- summary_providers config ;;
  defaultModel <- summary_default_model config ;;
  Ok {| providers_line :=
          match providers with [] => None | _ :: _ => Some providers end;
        default_model_line :=
          if truthy defaultModel then Some defaultModel else None |}.

(** ** Documents of the expected shape *)





(** * Properties *)

(** ** Own-property lists *)

Lemma lookup_replace_value_same ps k x :
  has_key ps k = true -> lookup (replace_value ps k x) k = Some x.
Proof.
  unfold has_key. induction ps as [|[k' v] ps IH]; simpl; [discriminate|].
  destruct (String.eqb k' k) eqn:E; simpl; rewrite E; auto.
Qed.

Lemma lookup_replace_value_other ps k k' x :
  k <> k' -> lookup (replace_value ps k x) k' = lookup ps k'.
Proof.
  intros Hne. induction ps as [|[k0 v] ps IH]; simpl; auto.
  destruct (String.eqb k0 k) eqn:E; simpl.
  - apply String.eqb_eq in E. subst k0.
    destruct (String.eqb k k') eqn:E'; auto.
    apply String.eqb_eq in E'. contradiction.
  - rewrite IH. reflexivity.
Qed.

Lemma replace_value_absent ps k x :
  lookup ps k = None -> replace_value ps k x = ps.
Proof.
  induction ps as [|[k' v] ps IH]; simpl; auto.
  destruct (String.eqb k' k); [discriminate|].
  intros H. rewrite IH; auto.
Qed.

Lemma replace_value_same ps k x :
  lookup ps k = Some x -> replace_value ps k x = ps.
Proof.
  induction ps as [|[k' v] ps IH]; simpl; auto.
  destruct (String.eqb k' k).
  - intros [= ->]. reflexivity.
  - intros H. rewrite IH; auto.
Qed.

Lemma lookup_insert_index_same ps i k x :
  lookup ps k = None -> lookup (insert_index ps i k x) k = Some x.
Proof.
  induction ps as [|[k' v] ps IH]; simpl; intros H.
  - rewrite String.eqb_refl. reflexivity.
  - destruct (String.eqb k' k) eqn:E; [discriminate|].
    destruct (array_index k') as [j|]; simpl.
    + destruct (j <? i)%nat; simpl.
      * rewrite E. auto.
      * rewrite String.eqb_refl. reflexivity.
    + rewrite String.eqb_refl. reflexivity.
Qed.

Lemma lookup_insert_index_other ps i k k' x :
  k <> k' -> lookup (insert_index ps i k x) k' = lookup ps k'.
Proof.
  intros Hne. apply String.eqb_neq in Hne.
  induction ps as [|[k0 v] ps IH]; simpl.
  - rewrite Hne. reflexivity.
  - destruct (array_index k0) as [j|]; simpl.
    + destruct (j <? i)%nat; simpl.
      * rewrite IH. reflexivity.
      * rewrite Hne. reflexivity.
    + rewrite Hne. reflexivity.
Qed.

Lemma lookup_app ps qs k :
  lookup (ps ++ qs) k =
  match lookup ps k with Some v => Some v | None => lookup qs k end.
Proof.
  induction ps as [|[k' v] ps IH]; simpl; auto.
  destruct (String.eqb k' k); auto.
Qed.

Lemma lookup_obj_set_same ps k x : lookup (obj_set ps k x) k = Some x.
Proof.
  unfold obj_set. destruct (has_key ps k) eqn:H.
  - apply lookup_replace_value_same; assumption.
  - unfold has_key in H. destruct (lookup ps k) eqn:L; [discriminate|].
    destruct (array_index k).
    + apply lookup_insert_index_same; assumption.
    + rewrite lookup_app, L. simpl. rewrite String.eqb_refl. reflexivity.
Qed.

Lemma lookup_obj_set_other ps k k' x :
  k <> k' -> lookup (obj_set ps k x) k' = lookup ps k'.
Proof.
  intros Hne. unfold obj_set. destruct (has_key ps k).
  - apply lookup_replace_value_other; assumption.
  - destruct (array_index k).
    + apply lookup_insert_index_other; assumption.
    + rewrite lookup_app. destruct (lookup ps k'); auto.
      simpl. apply String.eqb_neq in Hne. rewrite Hne. reflexivity.
Qed.

Lemma obj_set_same ps k x : lookup ps k = Some x -> obj_set ps k x = ps.
Proof.
  intros H. unfold obj_set, has_key. rewrite H.
  apply replace_value_same; assumption.
Qed.

(** ** The context window and the derived token limit *)

Lemma contextWindow_of_cases e :
  match parseInt (OLLAMA_CONTEXT_WINDOW e) with
  | Some n => if n =? 0 then contextWindow_of e = 32768 else contextWindow_of e = n
  | None => contextWindow_of e = 32768
  end.
Proof.
  unfold contextWindow_of.
  destruct (parseInt (OLLAMA_CONTEXT_WINDOW e)) as [n|]; [|reflexivity].
  destruct (n =? 0); reflexivity.
Qed.

(** ** The merge loop, one key at a time *)

Lemma mergeWith_obj leaf target ps :
  mergeWith leaf target (VObj ps) = merge_props leaf target ps.
Proof.
  revert target. induction ps as [|[key sk] ps IH]; intros target.
  - reflexivity.
  - simpl. unfold merge_key.
    destruct (is_mapping sk).
    + destruct (enter target key) as [[t1 child]|e]; simpl; [|reflexivity].
      destruct (mergeWith leaf child sk) as [child'|e]; simpl; [|reflexivity].
      apply IH.
    + destruct (leaf target key sk) as [t'|e]; simpl; [|reflexivity].
      apply IH.
Qed.


Lemma forceMerge_obj target ps :
  forceMerge target (VObj ps) = merge_props force_leaf target ps.
Proof. apply mergeWith_obj. Qed.


Lemma replace_value_obj_set ps k x y :
  replace_value (obj_set ps k x) k y = obj_set ps k y.
Proof.
  unfold obj_set, has_key. destruct (lookup ps k) eqn:L.
  - clear L. induction ps as [|[k' w] ps IH]; simpl; auto.
    destruct (String.eqb k' k) eqn:E; simpl; rewrite E; auto.
    rewrite IH. reflexivity.
  - destruct (array_index k) as [i|].
    + induction ps as [|[k' w] ps IH]; simpl in *.
      * rewrite String.eqb_refl. reflexivity.
      * destruct (String.eqb k' k) eqn:E; [discriminate|].
        destruct (array_index k') as [j|]; simpl.
        -- destruct (j <? i)%nat; simpl.
           ++ rewrite E, IH; auto.
           ++ rewrite String.eqb_refl. reflexivity.
        -- rewrite String.eqb_refl. reflexivity.
    + induction ps as [|[k' w] ps IH]; simpl in *.
      * rewrite String.eqb_refl. reflexivity.
      * destruct (String.eqb k' k) eqn:E; [discriminate|].
        rewrite IH; auto.
Qed.

(** The child a mapping-valued source key is merged into, for an object
    target: the value already there when it is an array or an object, a
    fresh empty object otherwise. *)
Definition merge_site (ps : props) (key : string) : value :=
  match lookup ps key with
  | Some c => if needs_fresh c then VObj [] else c
  | None => VObj []
  end.

Lemma enter_obj ps key :
  exists t1,
    enter (VObj ps) key = Ok (t1, merge_site ps key) /\
    forall child', write_back t1 key child' = VObj (obj_set ps key child').
Proof.
  unfold enter, merge_site. simpl.
  destruct (lookup ps key) as [c|] eqn:L.
  - destruct (needs_fresh c) eqn:F; simpl.
    + rewrite lookup_obj_set_same. eexists; split; [reflexivity|].
      intros. simpl. rewrite replace_value_obj_set. reflexivity.
    + rewrite L. eexists; split; [reflexivity|].
      intros. simpl. unfold obj_set, has_key. rewrite L. reflexivity.
  - simpl. rewrite lookup_obj_set_same. eexists; split; [reflexivity|].
    intros. simpl. rewrite replace_value_obj_set. reflexivity.
Qed.

Lemma merge_key_obj_mapping leaf ps key sk :
  is_mapping sk = true ->
  merge_key leaf (VObj ps) key sk =
  (child' <- mergeWith leaf (merge_site ps key) sk ;;
   Ok (VObj (obj_set ps key child'))).
Proof.
  intros Hm. unfold merge_key. rewrite Hm.
  destruct (enter_obj ps key) as (t1 & -> & Hwb). simpl.
  destruct (mergeWith leaf (merge_site ps key) sk); simpl; [|reflexivity].
  rewrite Hwb. reflexivity.
Qed.

Lemma merge_key_obj_preserve ps key sk :
  is_mapping sk = false ->
  merge_key preserve_leaf (VObj ps) key sk =
  Ok (match lookup ps key with
      | Some VUndef | None => VObj (obj_set ps key sk)
      | Some _ => VObj ps
      end).
Proof.
  intros Hm. unfold merge_key. rewrite Hm. unfold preserve_leaf. simpl.
  destruct (lookup ps key) as [[]|]; reflexivity.
Qed.

Lemma merge_key_obj_force ps key sk :
  is_mapping sk = false ->
  merge_key force_leaf (VObj ps) key sk = Ok (VObj (obj_set ps key sk)).
Proof.
  intros Hm. unfold merge_key. rewrite Hm. reflexivity.
Qed.

(** ** What a merge leaves alone *)

Section Frame.
Variable leaf : value -> string -> value -> result value.
Hypothesis leaf_frame : forall ps key sk t,
    leaf (VObj ps) key sk = Ok t ->
    exists ps', t = VObj ps' /\
                forall k, k <> key -> lookup ps' k = lookup ps k.

Lemma merge_key_frame ps key sk t :
  merge_key leaf (VObj ps) key sk = Ok t ->
  exists ps', t = VObj ps' /\
              forall k, k <> key -> lookup ps' k = lookup ps k.
Proof.
  destruct (is_mapping sk) eqn:Hm.
  - rewrite merge_key_obj_mapping by assumption.
    destruct (mergeWith leaf (merge_site ps key) sk) as [c|]; simpl;
      [|discriminate].
    intros [= <-]. eexists; split; [reflexivity|].
    intros k Hk. apply lookup_obj_set_other. congruence.
  - unfold merge_key. rewrite Hm. apply leaf_frame.
Qed.

End Frame.

Lemma preserve_leaf_frame ps key sk t :
  preserve_leaf (VObj ps) key sk = Ok t ->
  exists ps', t = VObj ps' /\
              forall k, k <> key -> lookup ps' k = lookup ps k.
Proof.
  unfold preserve_leaf. simpl.
  destruct (is_undefined _); simpl; intros [= <-]; eexists; split; eauto.
  intros k Hk. apply lookup_obj_set_other. congruence.
Qed.

Lemma force_leaf_frame ps key sk t :
  force_leaf (VObj ps) key sk = Ok t ->
  exists ps', t = VObj ps' /\
              forall k, k <> key -> lookup ps' k = lookup ps k.
Proof.
  unfold force_leaf. simpl. intros [= <-]. eexists; split; eauto.
  intros k Hk. apply lookup_obj_set_other. congruence.
Qed.

(** ** The leaf rule of the preserve merge *)





(** ** Paths a merge leaves alone *)

Lemma own_path_cons_obj c k rest v :
  own_path c (k :: rest) = Some v -> needs_fresh c = false.
Proof. destruct c; simpl; try discriminate; reflexivity. Qed.

Lemma spared_nonempty s p : spared s p = true -> p <> [].
Proof. intros H. destruct p; simpl in H; [discriminate H|discriminate]. Qed.

Lemma kept_nonempty s p : kept s p = true -> p <> [].
Proof. intros H. destruct p; simpl in H; [discriminate H|discriminate]. Qed.

Section SparedPaths.
Variable leaf : value -> string -> value -> result value.
Hypothesis leaf_frame : forall ps key sk t,
    leaf (VObj ps) key sk = Ok t ->
    exists ps', t = VObj ps' /\
                forall k, k <> key -> lookup ps' k = lookup ps k.

Lemma mergeWith_spared p : forall s t r v,
  mergeWith leaf t s = Ok r ->
  spared s p = true ->
  own_path t p = Some v ->
  own_path r p = Some v.
Proof.
  induction p as [|k rest IHp]; intros s t r v Hrun Hsp Hown.
  - discriminate.
  - simpl in Hsp. destruct s as [| | | | | |qs]; try discriminate.
    rewrite mergeWith_obj in Hrun.
    simpl in Hown. destruct t as [| | | | | |ps]; try discriminate.
    destruct (lookup ps k) as [c|] eqn:L; [|discriminate].
    enough (exists ps' c', r = VObj ps' /\ lookup ps' k = Some c' /\
                           own_path c' rest = Some v) as (ps' & c' & -> & L' & O').
    { simpl. rewrite L'. exact O'. }
    revert ps c r L Hown Hrun Hsp.
    induction qs as [|[k0 s0] qs IHq]; intros ps c r L Hown Hrun Hsp.
    + simpl in Hrun. inversion Hrun; subst. eauto.
    + simpl in Hrun, Hsp. apply andb_true_iff in Hsp. destruct Hsp as [H0 Hsp].
      destruct (merge_key leaf (VObj ps) k0 s0) as [t1|] eqn:K;
        simpl in Hrun; [|discriminate].
      destruct (String.eqb k0 k) eqn:E; simpl in H0.
      * apply String.eqb_eq in E. subst k0.
        apply andb_true_iff in H0. destruct H0 as [Hm Hs0].
        rewrite merge_key_obj_mapping in K by assumption.
        destruct (mergeWith leaf (merge_site ps k) s0) as [child'|] eqn:M;
          simpl in K; [|discriminate].
        inversion K; subst t1; clear K.
        assert (Hsite : merge_site ps k = c).
        { unfold merge_site. rewrite L.
          destruct rest as [|k2 rest']; [discriminate|].
          rewrite (own_path_cons_obj _ _ _ Hown). reflexivity. }
        rewrite Hsite in M.
        apply (IHq (obj_set ps k child') child' r); auto.
        -- apply lookup_obj_set_same.
        -- eapply IHp; eauto.
      * apply String.eqb_neq in E.
        apply merge_key_frame in K; [|assumption].
        destruct K as (ps1 & -> & F1).
        apply (IHq ps1 c r); auto.
        rewrite F1 by congruence. assumption.
Qed.
End SparedPaths.

Lemma deepMerge_kept p : forall s t r v,
  deepMerge t s = Ok r ->
  kept s p = true ->
  is_undefined v = false ->
  own_path t p = Some v ->
  own_path r p = Some v.
Proof.
  unfold deepMerge.
  induction p as [|k rest IHp]; intros s t r v Hrun Hsp Hdef Hown.
  - discriminate.
  - simpl in Hsp. destruct s as [| | | | | |qs]; try discriminate.
    rewrite mergeWith_obj in Hrun.
    simpl in Hown. destruct t as [| | | | | |ps]; try discriminate.
    destruct (lookup ps k) as [c|] eqn:L; [|discriminate].
    enough (exists ps' c', r = VObj ps' /\ lookup ps' k = Some c' /\
                           own_path c' rest = Some v) as (ps' & c' & -> & L' & O').
    { simpl. rewrite L'. exact O'. }
    revert ps c r L Hown Hrun Hsp.
    induction qs as [|[k0 s0] qs IHq]; intros ps c r L Hown Hrun Hsp.
    + simpl in Hrun. inversion Hrun; subst. eauto.
    + simpl in Hrun, Hsp. apply andb_true_iff in Hsp. destruct Hsp as [H0 Hsp].
      destruct (merge_key preserve_leaf (VObj ps) k0 s0) as [t1|] eqn:K;
        simpl in Hrun; [|discriminate].
      destruct (String.eqb k0 k) eqn:E; simpl in H0.
      * apply String.eqb_eq in E. subst k0.
        destruct (is_mapping s0) eqn:Hm; simpl in H0.
        -- rewrite merge_key_obj_mapping in K by assumption.
           destruct (mergeWith preserve_leaf (merge_site ps k) s0)
             as [child'|] eqn:M; simpl in K; [|discriminate].
           inversion K; subst t1; clear K.
           assert (Hsite : merge_site ps k = c).
           { unfold merge_site. rewrite L.
             destruct rest as [|k2 rest']; [discriminate|].
             rewrite (own_path_cons_obj _ _ _ Hown). reflexivity. }
           rewrite Hsite in M.
           apply (IHq (obj_set ps k child') child' r); auto.
           ++ apply lookup_obj_set_same.
           ++ eapply IHp; eauto.
        -- rewrite merge_key_obj_preserve in K by assumption.
           rewrite L in K.
           assert (Hc : is_undefined c = false).
           { destruct c; try reflexivity.
             destruct rest; simpl in Hown; [|discriminate].
             inversion Hown; subst v. discriminate. }
           destruct c; try discriminate; inversion K; subst t1;
             eapply IHq; eauto.
      * apply String.eqb_neq in E.
        apply (merge_key_frame _ preserve_leaf_frame) in K.
        destruct K as (ps1 & -> & F1).
        apply (IHq ps1 c r); auto.
        rewrite F1 by congruence. assumption.
Qed.

Lemma spared_kept p : forall s, spared s p = true -> kept s p = true.
Proof.
  induction p as [|k rest IH]; intros s; simpl; auto.
  destruct s as [| | | | | |qs]; auto.
  induction qs as [|[k0 s0] qs IHq]; simpl; auto.
  intros H. apply andb_true_iff in H. destruct H as [H0 H].
  rewrite IHq by assumption. rewrite andb_true_r.
  destruct (String.eqb k0 k); simpl in *; auto.
  apply andb_true_iff in H0. destruct H0 as [Hm Hs].
  rewrite Hm. simpl. apply IH. assumption.
Qed.

(** C7.  The preserve merge leaves the value at every path of the target
    whose last key does not appear in the source (at any depth) exactly as
    it was; so it does with a defined value the user set where the source
    holds a scalar or a sequence, as with [agents.defaults.tools.allow]
    and the agent defaults. *)
Theorem deepMerge_leaves_unknown_keys t qs p v r :
  deepMerge t (VObj qs) = Ok r ->
  own_path t p = Some v ->
  spared (VObj qs) p = true \/
  (kept (VObj qs) p = true /\ is_undefined v = false) ->
  own_path r p = Some v.
Proof.
  intros Hrun Hown [Hsp|[Hk Hdef]].
  - eapply (mergeWith_spared _ preserve_leaf_frame); eauto.
  - eapply deepMerge_kept; eauto.
Qed.

Lemma deepMerge_leaves_unknown_keys_witness :
  exists r,
    deepMerge user_doc agentDefaults = Ok r /\
    own_path r allow_path = Some (plain_array [VStr "read"]) /\
    own_path r ["agents"; "defaults"; "tools"; "sandbox"] = Some (VBool true) /\
    own_path r ["theme"] = Some (VStr "dark").
Proof.
  destruct (deepMerge user_doc agentDefaults) as [r|] eqn:Hrun;
    [|vm_compute in Hrun; discriminate].
  exists r. split; [reflexivity|]. repeat split.
  - apply (@deepMerge_leaves_unknown_keys user_doc _ allow_path _ r Hrun).
    + reflexivity.
    + right. split; reflexivity.
  - apply (@deepMerge_leaves_unknown_keys user_doc _
             ["agents"; "defaults"; "tools"; "sandbox"] _ r Hrun).
    + reflexivity.
    + left. reflexivity.
  - apply (@deepMerge_leaves_unknown_keys user_doc _ ["theme"] _ r Hrun).
    + reflexivity.
    + left. reflexivity.
Defined.

(** ** The provider entry: what the spread does to the fixed fields *)

Lemma lookup_fold_obj_set l : forall base k,
  lookup (fold_left (fun acc kv => obj_set acc (fst kv) (snd kv)) l base) k =
  match lookup (rev l) k with
  | Some x => Some x
  | None => lookup base k
  end.
Proof.
  induction l as [|[k0 x0] l IH]; intros base k; simpl; auto.
  rewrite IH, lookup_app. destruct (lookup (rev l) k); auto.
  simpl. destruct (String.eqb k0 k) eqn:E.
  - apply String.eqb_eq in E. subst. apply lookup_obj_set_same.
  - apply String.eqb_neq in E. apply lookup_obj_set_other. assumption.
Qed.

Lemma lookup_spread base v k :
  lookup (spread base v) k =
  match lookup (rev (own_props v)) k with
  | Some x => Some x
  | None => lookup base k
  end.
Proof. apply lookup_fold_obj_set. Qed.

(** C1, at the failing input.  The script is run with the base URL
    [http://172.17.0.1:11434/v1] and an API key on a document whose provider
    entry has [api = "openai-responses"] and another [baseUrl]: the written
    entry still has both, the fixed fields of this run are not in it. *)
Theorem provider_fields_not_reasserted :
  let d := doc_of (disk (run (env_with_window None) (Document edited_doc))) in
  own_path d ["models"; "providers"; "ollama"; "api"]
    = Some (VStr "openai-responses") /\
  own_path d ["models"; "providers"; "ollama"; "baseUrl"]
    = Some (VStr "http://10.0.0.9:11434/v1") /\
  own_path d ["models"; "providers"; "ollama"; "apiKey"]
    = Some (VStr "ollama-local") /\
  own_path d ["models"; "providers"; "ollama"; "timeout"] = Some (VNum 30).
Proof. vm_compute. repeat split. Qed.

(** ** A sequence in the target where the source has a mapping *)

(** C2, at the failing input.  The gateway defaults are force-merged into a
    document whose [gateway] is a sequence: the sequence is not replaced by
    an empty mapping, the settings are assigned to the array as named
    properties, and the written document has the sequence and none of the
    required settings.  The preserve merge keeps a sequence in the same way. *)
Theorem merge_keeps_sequence_target :
  forceMerge sequence_doc gatewayDefaults =
    Ok (VObj [("gateway",
               VArr [VStr "lan"]
                    [("mode", VStr "local"); ("bind", VStr "lan");
                     ("controlUi", VObj [("allowInsecureAuth", VBool true)]);
                     ("auth", VObj [("mode", VStr "token")])])]) /\
  deepMerge (VObj [("agents", plain_array [])]) agentDefaults =
    Ok (VObj [("agents",
               VArr [] [("defaults", VObj [("tools", VObj [
                 ("profile", VStr "standard");
                 ("allow", plain_array [VStr "read"; VStr "write"; VStr "edit";
                                        VStr "exec"; VStr "web"; VStr "browser"]);
                 ("exec", VObj [("host", VStr "gateway"); ("ask", VStr "off");
                                ("security", VStr "standard")])])])])]) /\
  own_path (doc_of (disk (run (env_with_window None) (Document sequence_doc))))
           ["gateway"] = Some (plain_array [VStr "lan"]).
Proof. vm_compute. repeat split. Qed.

(** ** JSON documents are what is written and read back *)

Lemma json_arr es named :
  json (VArr es named) = true -> named = [] /\ Forall (fun e => json e = true) es.
Proof.
  simpl. destruct named; [|discriminate]. intros H. split; [reflexivity|].
  induction es as [|e es IH]; constructor;
    apply andb_true_iff in H; destruct H; auto.
Qed.

Lemma json_obj ps :
  json (VObj ps) = true -> Forall (fun kv => json (snd kv) = true) ps.
Proof.
  simpl. intros H. apply andb_true_iff in H. destruct H as [_ H].
  induction ps as [|[k x] ps IH]; constructor;
    apply andb_true_iff in H; destruct H; auto.
Qed.

Lemma to_json_json v : json v = true -> to_json v = v.
Proof.
  induction v as [| | | | |es ps IHes IHps|ps IHps] using value_ind';
    intros H; try reflexivity; try discriminate.
  - apply json_arr in H. destruct H as [-> Hes]. simpl. f_equal.
    induction es as [|e es IH]; [reflexivity|].
    inversion IHes; inversion Hes; subst. f_equal; auto.
  - apply json_obj in H. simpl. f_equal.
    induction ps as [|[k x] ps IH]; [reflexivity|].
    inversion IHps; inversion H; subst. simpl in *.
    rewrite IH by assumption.
    replace (to_json x) with x by (symmetry; auto).
    destruct x; try reflexivity. discriminate.
Qed.

Lemma to_json_obj ps : to_json (VObj ps) = VObj (to_json_props ps).
Proof. reflexivity. Qed.

Lemma to_json_arr es named : to_json (VArr es named) = VArr (map to_json es) [].
Proof. reflexivity. Qed.

(** ** Named keys on objects, arrays and primitives *)

Lemma get_prop_named v k :
  is_object v = true -> named_key k = true -> get_prop v k = Ok (field v k).
Proof.
  unfold named_key, field. destruct v; try discriminate; intros _ Hk; simpl.
  - unfold arr_get. destruct (array_index k); [discriminate|].
    destruct (String.eqb k "length"); [discriminate|]. reflexivity.
  - reflexivity.
Qed.

Lemma set_prop_named v k x :
  is_object v = true -> named_key k = true -> set_prop v k x = Ok (put v k x).
Proof.
  unfold named_key, put. destruct v; try discriminate; intros _ Hk; simpl.
  - unfold arr_set. destruct (array_index k); [discriminate|].
    destruct (String.eqb k "length"); [discriminate|]. reflexivity.
  - reflexivity.
Qed.

Lemma write_back_named v k c :
  is_object v = true -> named_key k = true ->
  write_back v k c = with_fields v (replace_value (fields v) k c).
Proof.
  unfold named_key. destruct v; try discriminate; intros _ Hk; simpl.
  - destruct (array_index k); [discriminate|]. reflexivity.
  - reflexivity.
Qed.

Lemma get_prop_prim v k :
  is_prim v = true -> named_key k = true -> get_prop v k = Ok VUndef.
Proof.
  unfold named_key. destruct v; try discriminate; intros _ Hk; try reflexivity.
  simpl. unfold str_get. destruct (array_index k); [discriminate|].
  destruct (String.eqb k "length"); [discriminate|]. reflexivity.
Qed.

Lemma set_prop_prim v k x : is_prim v = true -> set_prop v k x = Ok v.
Proof. destruct v; try discriminate; reflexivity. Qed.

Lemma write_back_prim v k c : is_prim v = true -> write_back v k c = v.
Proof. destruct v; try discriminate; reflexivity. Qed.

Lemma is_object_put t k x : is_object (put t k x) = is_object t.
Proof. destruct t; reflexivity. Qed.

Lemma fields_put t k x :
  is_object t = true -> fields (put t k x) = obj_set (fields t) k x.
Proof. destruct t; try discriminate; reflexivity. Qed.

Lemma field_put_same t k x : is_object t = true -> field (put t k x) k = x.
Proof.
  intros H. unfold field. rewrite fields_put by assumption.
  rewrite lookup_obj_set_same. reflexivity.
Qed.

Lemma field_put_other t k k' x :
  is_object t = true -> k <> k' -> field (put t k x) k' = field t k'.
Proof.
  intros H Hne. unfold field. rewrite fields_put by assumption.
  rewrite lookup_obj_set_other by assumption. reflexivity.
Qed.

Lemma obj_set_obj_set ps k x y : obj_set (obj_set ps k x) k y = obj_set ps k y.
Proof.
  unfold obj_set at 1. unfold has_key. rewrite lookup_obj_set_same.
  apply replace_value_obj_set.
Qed.

Lemma put_put t k x y : put (put t k x) k y = put t k y.
Proof.
  destruct t; try reflexivity; unfold put; simpl; rewrite obj_set_obj_set;
    reflexivity.
Qed.

Lemma with_fields_put t k x ps :
  with_fields (put t k x) ps = with_fields t ps.
Proof. destruct t; reflexivity. Qed.

Lemma site_object c : is_object (site c) = true.
Proof.
  unfold site, needs_fresh.
  destruct c as [| |[]|n|s| |]; simpl; try reflexivity.
  - destruct (n =? 0); reflexivity.
  - destruct (String.eqb s ""); reflexivity.
Qed.

Lemma site_of_object c : is_object c = true -> site c = c.
Proof. destruct c; try discriminate; reflexivity. Qed.

(** The loop body at a named key of an object or an array. *)
Lemma merge_key_named_mapping leaf t key sk :
  is_object t = true -> named_key key = true -> is_mapping sk = true ->
  merge_key leaf t key sk =
  (child' <- mergeWith leaf (site (field t key)) sk ;; Ok (put t key child')).
Proof.
  intros Ht Hk Hm. unfold merge_key, enter. rewrite Hm.
  rewrite (get_prop_named _ _ Ht Hk). simpl. unfold site.
  destruct (needs_fresh (field t key)) eqn:F; simpl.
  - rewrite (set_prop_named _ _ _ Ht Hk). simpl.
    rewrite get_prop_named by (rewrite ?is_object_put; assumption). simpl.
    rewrite field_put_same by assumption.
    destruct (mergeWith leaf (VObj []) sk); simpl; [|reflexivity].
    rewrite write_back_named by (rewrite ?is_object_put; assumption).
    rewrite fields_put by assumption. rewrite replace_value_obj_set.
    rewrite with_fields_put. reflexivity.
  - rewrite (get_prop_named _ _ Ht Hk). simpl.
    destruct (mergeWith leaf (field t key) sk); simpl; [|reflexivity].
    rewrite write_back_named by assumption. unfold put. f_equal.
    unfold obj_set, has_key. unfold field in F.
    destruct (lookup (fields t) key); [reflexivity|discriminate].
Qed.

Lemma preserve_leaf_named t key sk :
  is_object t = true -> named_key key = true ->
  preserve_leaf t key sk =
  Ok (if is_undefined (field t key) then put t key sk else t).
Proof.
  intros Ht Hk. unfold preserve_leaf. rewrite (get_prop_named _ _ Ht Hk). simpl.
  destruct (is_undefined (field t key)); [|reflexivity].
  apply set_prop_named; assumption.
Qed.

Lemma force_leaf_named t key sk :
  is_object t = true -> named_key key = true ->
  force_leaf t key sk = Ok (put t key sk).
Proof. intros. apply set_prop_named; assumption. Qed.

(** ** Merging a literal source never throws *)

Lemma plain_source_obj qs :
  plain_source (VObj qs) = true ->
  distinct (map fst qs) = true /\
  Forall (fun kv => named_key (fst kv) = true /\
                    (if is_mapping (snd kv) then plain_source (snd kv) = true
                     else json (snd kv) = true)) qs.
Proof.
  simpl. intros H. apply andb_true_iff in H. destruct H as [Hd H].
  split; [assumption|]. clear Hd.
  induction qs as [|[k sk] qs IH]; constructor.
  - apply andb_true_iff in H. destruct H as [H _].
    apply andb_true_iff in H. destruct H as [Hk Hs]. simpl. split; [assumption|].
    destruct (is_mapping sk); assumption.
  - apply IH. apply andb_true_iff in H. destruct H as [_ H]. exact H.
Qed.

Lemma plain_source_is_obj s : plain_source s = true -> exists qs, s = VObj qs.
Proof. destruct s; try discriminate; eauto. Qed.

Lemma same_node_refl t : is_object t = true -> same_node t t.
Proof. intros H. split; [assumption|]. destruct t; try discriminate; reflexivity. Qed.

Lemma same_node_put t k x : is_object t = true -> same_node t (put t k x).
Proof.
  intros H. split; [assumption|].
  destruct t; try discriminate; reflexivity.
Qed.

Lemma same_node_trans t r u : same_node t r -> same_node r u -> same_node t u.
Proof.
  intros [Ht Hr] [Hr' Hu]. split; [assumption|].
  rewrite Hu. rewrite Hr. destruct t; try discriminate; reflexivity.
Qed.

Lemma same_node_object t r : same_node t r -> is_object r = true.
Proof. intros [Ht ->]. destruct t; try discriminate; reflexivity. Qed.

Lemma std_leaf_total leaf t key sk :
  std_leaf leaf -> is_object t = true -> named_key key = true ->
  exists r, leaf t key sk = Ok r /\ same_node t r.
Proof.
  intros [-> | ->] Ht Hk.
  - rewrite preserve_leaf_named by assumption.
    eexists; split; [reflexivity|].
    destruct (is_undefined _);
      [apply same_node_put | apply same_node_refl]; assumption.
  - rewrite force_leaf_named by assumption.
    eexists; split; [reflexivity|]. apply same_node_put; assumption.
Qed.

Lemma mergeWith_plain_total leaf s :
  std_leaf leaf -> plain_source s = true ->
  forall t, is_object t = true ->
  exists r, mergeWith leaf t s = Ok r /\ same_node t r.
Proof.
  intros Hleaf.
  induction s as [| | | | |es ps IHes IHps|qs IHqs] using value_ind';
    intros Hs; try discriminate.
  apply plain_source_obj in Hs. destruct Hs as [_ Hs].
  intros t Ht. rewrite mergeWith_obj.
  revert t Ht. induction qs as [|[k sk] qs IHq]; intros t Ht.
  - simpl. eexists; split; [reflexivity|]. apply same_node_refl; assumption.
  - inversion Hs as [|? ? [Hk Hsk] Hs']; subst. inversion IHqs as [|? ? IHsk IHqs']; subst.
    simpl in *.
    assert (exists t1, merge_key leaf t k sk = Ok t1 /\ same_node t t1)
      as (t1 & E1 & N1).
    { destruct (is_mapping sk) eqn:Hm.
      - rewrite merge_key_named_mapping by assumption.
        destruct (IHsk Hsk (site (field t k)) (site_object _)) as (c & -> & _).
        simpl. eexists; split; [reflexivity|]. apply same_node_put; assumption.
      - unfold merge_key. rewrite Hm. apply std_leaf_total; assumption. }
    rewrite E1. simpl.
    destruct (IHq IHqs' Hs' t1 (same_node_object N1)) as (r & -> & N).
    eexists; split; [reflexivity|]. eapply same_node_trans; eassumption.
Qed.

(** ** Paths of named keys *)

Lemma write_back_wb v k c :
  is_object v = true -> named_key k = true -> write_back v k c = wb v k c.
Proof. apply write_back_named. Qed.

Lemma same_node_wb t k c : is_object t = true -> same_node t (wb t k c).
Proof.
  intros H. split; [assumption|]. destruct t; try discriminate; reflexivity.
Qed.

Lemma field_present t k :
  field t k <> VUndef -> exists c, lookup (fields t) k = Some c /\ field t k = c.
Proof. unfold field. destruct (lookup (fields t) k); eauto. congruence. Qed.

Lemma field_wb_same t k c :
  is_object t = true -> field t k <> VUndef -> field (wb t k c) k = c.
Proof.
  intros Ht Hp. destruct (field_present _ _ Hp) as (c0 & L & _).
  unfold field, wb. destruct t; try discriminate; simpl in *;
    rewrite lookup_replace_value_same; auto; unfold has_key; rewrite L; auto.
Qed.

Lemma field_wb_other t k k' c :
  k <> k' -> field (wb t k c) k' = field t k'.
Proof.
  intros Hne. unfold field, wb. destruct t; try reflexivity; simpl;
    rewrite lookup_replace_value_other; auto.
Qed.

Lemma wb_same t k : is_object t = true -> wb t k (field t k) = t.
Proof.
  intros Ht. unfold wb, field.
  destruct (lookup (fields t) k) eqn:L.
  - rewrite replace_value_same by assumption.
    destruct t; try discriminate; reflexivity.
  - rewrite replace_value_absent by assumption.
    destruct t; try discriminate; reflexivity.
Qed.

Lemma wb_wb t k c c' : wb (wb t k c) k c' = wb t k c'.
Proof.
  unfold wb. destruct t; try reflexivity; simpl; f_equal.
  - induction named as [|[k0 v] ps IH]; simpl; auto.
    destruct (String.eqb k0 k) eqn:E; simpl; rewrite E; auto.
    rewrite IH. reflexivity.
  - induction props0 as [|[k0 v] ps IH]; simpl; auto.
    destruct (String.eqb k0 k) eqn:E; simpl; rewrite E; auto.
    rewrite IH. reflexivity.
Qed.

Lemma is_object_wb t k c : is_object (wb t k c) = is_object t.
Proof. destruct t; reflexivity. Qed.

Lemma get_path_nil v : get_path v [] = Ok v.
Proof. reflexivity. Qed.

Lemma get_path_cons t k p :
  is_object t = true -> named_key k = true ->
  get_path t (k :: p) = get_path (field t k) p.
Proof. intros Ht Hk. simpl. rewrite (get_prop_named _ _ Ht Hk). reflexivity. Qed.

Lemma set_path_one t k x :
  is_object t = true -> named_key k = true ->
  set_path t [k] x = Ok (put t k x).
Proof. intros. simpl. apply set_prop_named; assumption. Qed.

Lemma set_path_cons t k k2 p x :
  is_object t = true -> named_key k = true ->
  set_path t (k :: k2 :: p) x =
  (c' <- set_path (field t k) (k2 :: p) x ;; Ok (wb t k c')).
Proof.
  intros Ht Hk. simpl. rewrite (get_prop_named _ _ Ht Hk). simpl.
  destruct p.
  - destruct (set_prop (field t k) k2 x); simpl; [|reflexivity].
    rewrite write_back_wb by assumption. reflexivity.
  - destruct (get_prop (field t k) k2); simpl; [|reflexivity].
    match goal with |- context [bind ?m _] => destruct m end; simpl;
      [|reflexivity].
    rewrite write_back_wb by assumption. reflexivity.
Qed.

Lemma get_path_prim t k p :
  is_prim t = true -> named_key k = true ->
  get_path t (k :: p) = get_path VUndef p.
Proof. intros Ht Hk. simpl. rewrite (get_prop_prim _ _ Ht Hk). reflexivity. Qed.

Lemma get_path_undef_cons k p e :
  get_path VUndef (k :: p) = Ok e -> False.
Proof. discriminate. Qed.

(** ** The two merges of the orchestrator *)

Lemma std_force : std_leaf force_leaf.
Proof. right. reflexivity. Qed.

Lemma std_preserve : std_leaf preserve_leaf.
Proof. left. reflexivity. Qed.

Lemma forceMerge_gateway t :
  is_object t = true ->
  forceMerge t gatewayDefaults =
  (g <- mergeWith force_leaf (site (field t "gateway")) gateway_settings ;;
   Ok (put t "gateway" g)).
Proof.
  intros Ht. unfold forceMerge, gatewayDefaults. rewrite mergeWith_obj.
  simpl merge_props. rewrite merge_key_named_mapping by (assumption || reflexivity).
  fold gatewayDefaults.
  change (VObj _) with gateway_settings at 1.
  destruct (mergeWith force_leaf _ gateway_settings); reflexivity.
Qed.

Lemma deepMerge_agents t :
  is_object t = true ->
  deepMerge t agentDefaults =
  (a <- mergeWith preserve_leaf (site (field t "agents")) agents_settings ;;
   Ok (put t "agents" a)).
Proof.
  intros Ht. unfold deepMerge, agentDefaults. rewrite mergeWith_obj.
  simpl merge_props. rewrite merge_key_named_mapping by (assumption || reflexivity).
  change (VObj _) with agents_settings at 1.
  destruct (mergeWith preserve_leaf _ agents_settings); reflexivity.
Qed.

Lemma forceMerge_gateway_total t :
  is_object t = true ->
  exists g, mergeWith force_leaf (site (field t "gateway")) gateway_settings = Ok g /\
            same_node (site (field t "gateway")) g /\
            forceMerge t gatewayDefaults = Ok (put t "gateway" g).
Proof.
  intros Ht.
  destruct (@mergeWith_plain_total force_leaf gateway_settings std_force eq_refl
              (site (field t "gateway")) (site_object _)) as (g & E & N).
  exists g. repeat split; try assumption; try apply N.
  rewrite forceMerge_gateway by assumption. rewrite E. reflexivity.
Qed.

Lemma deepMerge_agents_total t :
  is_object t = true ->
  exists a, mergeWith preserve_leaf (site (field t "agents")) agents_settings = Ok a /\
            same_node (site (field t "agents")) a /\
            deepMerge t agentDefaults = Ok (put t "agents" a).
Proof.
  intros Ht.
  destruct (@mergeWith_plain_total preserve_leaf agents_settings std_preserve eq_refl
              (site (field t "agents")) (site_object _)) as (a & E & N).
  exists a. repeat split; try assumption; try apply N.
  rewrite deepMerge_agents by assumption. rewrite E. reflexivity.
Qed.

(** A configuration that is not an object or an array makes the first merge
    throw. *)
Lemma forceMerge_nonobject t :
  is_object t = false -> forceMerge t gatewayDefaults = Throw TypeError.
Proof. destruct t; try discriminate; reflexivity. Qed.

(** The configuration after the two merges. *)
Lemma merges_total t :
  is_object t = true ->
  exists g a,
    same_node (site (field t "gateway")) g /\
    mergeWith force_leaf (site (field t "gateway")) gateway_settings = Ok g /\
    same_node (site (field t "agents")) a /\
    mergeWith preserve_leaf (site (field t "agents")) agents_settings = Ok a /\
    (c1 <- forceMerge t gatewayDefaults ;; deepMerge c1 agentDefaults)
      = Ok (put (put t "gateway" g) "agents" a).
Proof.
  intros Ht.
  destruct (forceMerge_gateway_total t Ht) as (g & Eg & Ng & ->).
  simpl.
  destruct (deepMerge_agents_total (put t "gateway" g)) as (a & Ea & Na & ->).
  { rewrite is_object_put. assumption. }
  rewrite field_put_other in Ea, Na by (assumption || discriminate).
  exists g, a. repeat split; try assumption; try apply Ng; try apply Na.
Qed.

(** ** Reading the written document *)

Lemma lookup_to_json_props_some ps k x :
  lookup ps k = Some x -> is_undefined x = false ->
  lookup (to_json_props ps) k = Some (to_json x).
Proof.
  induction ps as [|[k0 x0] ps IH]; simpl; [discriminate|].
  destruct (String.eqb k0 k) eqn:E.
  - intros [= ->] Hx. destruct x; try discriminate; simpl; rewrite E; reflexivity.
  - intros L Hx. destruct x0; simpl; rewrite ?E; auto.
Qed.

Lemma lookup_to_json_props_none ps k :
  lookup ps k = None -> lookup (to_json_props ps) k = None.
Proof.
  induction ps as [|[k0 x0] ps IH]; simpl; auto.
  destruct (String.eqb k0 k) eqn:E; [discriminate|].
  intros L. destruct x0; simpl; rewrite ?E; auto.
Qed.

Lemma json_defined x : json x = true -> is_undefined x = false.
Proof. destruct x; try reflexivity. discriminate. Qed.

Lemma json_lookup ps k x :
  json (VObj ps) = true -> lookup ps k = Some x -> json x = true.
Proof.
  intros H. apply json_obj in H.
  induction ps as [|[k0 x0] ps IH]; simpl; [discriminate|].
  inversion H; subst. destruct (String.eqb k0 k); auto.
  intros [= ->]. assumption.
Qed.

Lemma own_path_to_json_field ps k p :
  json (VObj ps) = true ->
  forall qs, lookup qs k = lookup ps k ->
  own_path (to_json (VObj qs)) (k :: p) = own_path (VObj ps) (k :: p).
Proof.
  intros Hj qs L. rewrite to_json_obj. simpl.
  destruct (lookup ps k) as [x|] eqn:Lp.
  - pose proof (json_lookup _ _ Hj Lp) as Hx.
    rewrite (lookup_to_json_props_some _ _ L (json_defined _ Hx)).
    rewrite to_json_json by assumption. reflexivity.
  - rewrite (lookup_to_json_props_none _ _ L). reflexivity.
Qed.

(** ** Only one of the base URL and the API key *)

Lemma json_load f : json_file f = true -> json (load f) = true.
Proof. destruct f; simpl; auto. Qed.

Lemma main_config_nonobject e f :
  is_object (load f) = false -> main_config e f = Throw TypeError.
Proof.
  intros H. unfold main_config. rewrite forceMerge_nonobject by assumption.
  reflexivity.
Qed.

Lemma main_config_merged e f :
  is_object (load f) = true ->
  exists g a,
    same_node (site (field (load f) "gateway")) g /\
    mergeWith force_leaf (site (field (load f) "gateway")) gateway_settings = Ok g /\
    same_node (site (field (load f) "agents")) a /\
    mergeWith preserve_leaf (site (field (load f) "agents")) agents_settings = Ok a /\
    main_config e f = provision e (put (put (load f) "gateway" g) "agents" a).
Proof.
  intros H. destruct (merges_total _ H) as (g & a & Ng & Eg & Na & Ea & E).
  exists g, a. repeat split; try assumption; try apply Ng; try apply Na.
  unfold main_config.
  destruct (forceMerge (load f) gatewayDefaults) as [c1|]; simpl in *;
    [|discriminate].
  rewrite E. reflexivity.
Qed.

(** C9.  With exactly one of the base URL and the API key set the
    provisioner returns the configuration it was given and reports which
    variable is missing; the process exits with status 0, and everything the
    document had under [models] (nothing, or a provider entry left by an
    earlier run) is in the file afterwards exactly as it was. *)
Theorem partial_environment_skips_provisioning e f :
  xorb (is_set (OLLAMA_BASE_URL e)) (is_set (OLLAMA_API_KEY e)) = true ->
  json_file f = true ->
  let advisory := OllamaPartial (negb (is_set (OLLAMA_BASE_URL e)))
                                (negb (is_set (OLLAMA_API_KEY e))) in
  (forall config, provision e config = Ok (config, advisory)) /\
  exit_status (run e f) = 0 /\
  (is_object (load f) = true -> said (run e f) = Some advisory) /\
  (forall p, own_path (doc_of (disk (run e f))) ("models" :: p)
             = own_path (load f) ("models" :: p)).
Proof.
  intros Hx Hj advisory.
  assert (Hprov : forall config, provision e config = Ok (config, advisory)).
  { intros config. unfold provision, advisory.
    destruct (is_set (OLLAMA_BASE_URL e)), (is_set (OLLAMA_API_KEY e));
      try discriminate; reflexivity. }
  split; [exact Hprov|].
  unfold run, main.
  destruct (is_object (load f)) eqn:Ho.
  - destruct (main_config_merged e f Ho) as (g & a & _ & _ & _ & _ & ->).
    rewrite Hprov. simpl. repeat split.
    intros p. pose proof (json_load _ Hj) as Hjl.
    destruct (load f) as [| | | | |es named|ps]; try discriminate.
    + reflexivity.
    + unfold put. cbn [fields with_fields].
      apply own_path_to_json_field; [assumption|].
      rewrite !lookup_obj_set_other by discriminate. reflexivity.
  - rewrite main_config_nonobject by assumption. simpl.
    repeat split; try discriminate.
    destruct f; try discriminate. reflexivity.
Qed.

Lemma partial_environment_skips_provisioning_witness :
  let e := {| OLLAMA_BASE_URL := Some "http://172.17.0.1:11434/v1";
              OLLAMA_API_KEY := None;
              OLLAMA_MODEL := Some "qwen2.5-coder:32b";
              OLLAMA_CONTEXT_WINDOW := None |} in
  said (run e Absent) = Some (OllamaPartial false true) /\
  own_path (doc_of (disk (run e Absent))) ["models"] = None /\
  own_path (doc_of (disk (run e (Document edited_doc)))) ["models"; "providers"; "ollama"; "api"]
    = Some (VStr "openai-responses").
Proof.
  intros e.
  destruct (@partial_environment_skips_provisioning e Absent eq_refl eq_refl)
    as (_ & _ & Hs & Hm).
  destruct (@partial_environment_skips_provisioning e (Document edited_doc)
              eq_refl eq_refl) as (_ & _ & _ & Hm').
  split; [apply Hs; reflexivity|].
  split; [rewrite Hm; reflexivity|].
  rewrite Hm'. reflexivity.
Defined.

(** ** What an assignment along a path changes at the root *)

Lemma set_path_root t k p x r :
  is_object t = true -> named_key k = true ->
  set_path t (k :: p) x = Ok r ->
  same_node t r /\ forall k', k <> k' -> field r k' = field t k'.
Proof.
  intros Ht Hk. destruct p as [|k2 p].
  - rewrite set_path_one by assumption. intros [= <-].
    split; [apply same_node_put; assumption|].
    intros. apply field_put_other; assumption.
  - rewrite set_path_cons by assumption.
    destruct (set_path (field t k) (k2 :: p) x); simpl; [|discriminate].
    intros [= <-]. split; [apply same_node_wb; assumption|].
    intros. apply field_wb_other; assumption.
Qed.

Lemma ensure_path_root t k p r :
  is_object t = true -> named_key k = true ->
  ensure_path t (k :: p) = Ok r ->
  same_node t r /\ forall k', k <> k' -> field r k' = field t k'.
Proof.
  intros Ht Hk. unfold ensure_path.
  destruct (get_path t (k :: p)) as [cur|]; simpl; [|discriminate].
  destruct (truthy cur).
  - intros [= <-]. split; [apply same_node_refl; assumption|reflexivity].
  - apply set_path_root; assumption.
Qed.

Lemma configure_provider_root u k t r :
  is_object t = true ->
  configure_provider u k t = Ok r ->
  same_node t r /\ forall k', "models" <> k' -> field r k' = field t k'.
Proof.
  intros Ht. unfold configure_provider.
  destruct (ensure_path t ["models"]) as [c1|] eqn:E1; cbn [bind]; [|discriminate].
  apply ensure_path_root in E1; [|assumption|reflexivity].
  destruct E1 as [N1 F1].
  destruct (ensure_path c1 ["models"; "providers"]) as [c2|] eqn:E2; cbn [bind];
    [|discriminate].
  apply ensure_path_root in E2; [|eapply same_node_object; eassumption|reflexivity].
  destruct E2 as [N2 F2].
  destruct (get_path c2 ollama_path) as [existing|]; cbn [bind]; [|discriminate].
  intros E3. apply set_path_root in E3;
    [|eapply same_node_object; eassumption|reflexivity].
  destruct E3 as [N3 F3]. split.
  - eapply same_node_trans; [|eassumption].
    eapply same_node_trans; eassumption.
  - intros k' Hk'. rewrite F3, F2, F1 by assumption. reflexivity.
Qed.

Lemma add_model_root m cw t r :
  is_object t = true ->
  add_model m cw t = Ok r ->
  same_node t r /\ forall k', "models" <> k' -> field r k' = field t k'.
Proof.
  intros Ht. unfold add_model.
  destruct (get_path t models_path) as [found|]; cbn [bind]; [|discriminate].
  destruct (modelExists _ m) as [[]|]; cbn [bind]; try discriminate.
  - intros [= <-]. split; [apply same_node_refl; assumption|reflexivity].
  - apply set_path_root; [assumption|reflexivity].
Qed.

(** ** The default model *)

Lemma currentModel_form c :
  is_object c = true ->
  is_object (field c "agents") = true ->
  is_object (field (field c "agents") "defaults") = true ->
  currentModel c =
  Ok (primary_of (field (field (field c "agents") "defaults") "model")).
Proof.
  intros Hc Ha Hd. unfold currentModel, selector_path.
  rewrite get_path_cons by (assumption || reflexivity).
  rewrite get_path_cons by (assumption || reflexivity).
  rewrite get_path_cons by (assumption || reflexivity).
  rewrite get_path_nil. cbn [bind]. unfold primary_of.
  destruct (field _ "model"); try reflexivity.
Qed.

Lemma object_defined v : is_object v = true -> v <> VUndef.
Proof. destruct v; discriminate. Qed.

Lemma object_truthy v : is_object v = true -> truthy v = true.
Proof. destruct v; try discriminate; reflexivity. Qed.

Lemma select_model_form m c :
  is_object c = true ->
  is_object (field c "agents") = true ->
  is_object (field (field c "agents") "defaults") = true ->
  let a := field c "agents" in
  let d := field a "defaults" in
  select_model m c =
  Ok (if strict_eq_str (primary_of (field d "model")) (selector m) then c
      else wb c "agents" (wb a "defaults" (put d "model" (selected m)))).
Proof.
  intros Hc Ha Hd a d. unfold select_model, ensure_path.
  rewrite (@get_path_cons c "agents" [] Hc eq_refl), get_path_nil.
  cbn [bind]. rewrite (object_truthy _ Ha). cbn [bind].
  rewrite (@get_path_cons c "agents" ["defaults"] Hc eq_refl).
  rewrite (@get_path_cons (field c "agents") "defaults" [] Ha eq_refl), get_path_nil.
  cbn [bind]. rewrite (object_truthy _ Hd). cbn [bind].
  rewrite currentModel_form by assumption. cbn [bind].
  fold a. fold d.
  destruct (strict_eq_str _ _); [reflexivity|].
  unfold selector_path.
  rewrite set_path_cons by (assumption || reflexivity).
  rewrite set_path_cons by (assumption || reflexivity).
  rewrite set_path_one by (assumption || reflexivity). reflexivity.
Qed.

(** ** The shape of [agents] after the preserve merge *)

Lemma agents_merge_form a0 a :
  is_object a0 = true ->
  mergeWith preserve_leaf a0 agents_settings = Ok a ->
  exists d,
    mergeWith preserve_leaf (site (field a0 "defaults")) defaults_settings = Ok d /\
    same_node (site (field a0 "defaults")) d /\
    a = put a0 "defaults" d.
Proof.
  intros Ha. unfold agents_settings. cbn [field fields agentDefaults lookup String.eqb Ascii.eqb Bool.eqb].
  rewrite mergeWith_obj. cbn [merge_props].
  rewrite merge_key_named_mapping by (assumption || reflexivity).
  change (VObj [("tools", _)]) with defaults_settings.
  destruct (@mergeWith_plain_total preserve_leaf defaults_settings std_preserve
              eq_refl (site (field a0 "defaults")) (site_object _)) as (d & E & N).
  rewrite E. cbn [bind]. intros [= <-]. exists d. auto.
Qed.

Lemma defaults_merge_form d0 d :
  is_object d0 = true ->
  mergeWith preserve_leaf d0 defaults_settings = Ok d ->
  exists tl,
    mergeWith preserve_leaf (site (field d0 "tools")) tools_settings = Ok tl /\
    same_node (site (field d0 "tools")) tl /\
    d = put d0 "tools" tl.
Proof.
  intros Hd. unfold defaults_settings, agents_settings.
  cbn [field fields agentDefaults lookup String.eqb Ascii.eqb Bool.eqb].
  rewrite mergeWith_obj. cbn [merge_props].
  rewrite merge_key_named_mapping by (assumption || reflexivity).
  match goal with |- context [mergeWith _ _ ?s] => change s with tools_settings end.
  destruct (@mergeWith_plain_total preserve_leaf tools_settings std_preserve
              eq_refl (site (field d0 "tools")) (site_object _)) as (tl & E & N).
  rewrite E. cbn [bind]. intros [= <-]. exists tl. auto.
Qed.

(** ** The configuration the default model is set in *)

Lemma main_config_object e f cn :
  main_config e f = Ok cn -> is_object (load f) = true.
Proof.
  intros H. destruct (is_object (load f)) eqn:Ho; [reflexivity|].
  rewrite main_config_nonobject in H by assumption. discriminate.
Qed.

Lemma main_config_selecting e f c n :
  is_set (OLLAMA_BASE_URL e) && is_set (OLLAMA_API_KEY e) = true ->
  is_set (OLLAMA_MODEL e) = true ->
  main_config e f = Ok (c, n) ->
  exists c4 d0 tl,
    same_node (load f) c4 /\
    d0 = site (field (site (field (load f) "agents")) "defaults") /\
    same_node (site (field d0 "tools")) tl /\
    field c4 "agents" = put (site (field (load f) "agents")) "defaults"
                            (put d0 "tools" tl) /\
    select_model (text_of (OLLAMA_MODEL e)) c4 = Ok c.
Proof.
  intros Hen Hm H. pose proof (main_config_object _ _ H) as Ho.
  destruct (main_config_merged e f Ho) as (g & a & Ng & Eg & Na & Ea & E).
  rewrite E in H. clear E.
  apply agents_merge_form in Ea; [|apply site_object].
  destruct Ea as (d & Ed & Nd & ->).
  apply defaults_merge_form in Ed; [|apply site_object].
  destruct Ed as (tl & Etl & Ntl & ->).
  unfold provision in H. rewrite Hen, Hm in H.
  match type of H with context [configure_provider ?u ?k ?t] =>
    destruct (configure_provider u k t) as [c3|] eqn:E3 end;
    cbn [bind] in H; [|discriminate].
  match type of H with context [add_model ?m ?w ?t] =>
    destruct (add_model m w t) as [c4|] eqn:E4 end;
    cbn [bind] in H; [|discriminate].
  destruct (select_model _ c4) as [c5|] eqn:E5; cbn [bind] in H; [|discriminate].
  inversion H; subst c5 n; clear H.
  apply configure_provider_root in E3;
    [|rewrite !is_object_put; assumption].
  destruct E3 as [N3 F3].
  apply add_model_root in E4; [|eapply same_node_object; eassumption].
  destruct E4 as [N4 F4].
  exists c4, (site (field (site (field (load f) "agents")) "defaults")), tl.
  repeat split; try assumption; try apply Ntl.
  - destruct N4 as [_ ->]. destruct N3 as [_ ->].
    destruct (load f); try discriminate; reflexivity.
  - rewrite F4, F3 by discriminate.
    rewrite field_put_same by (rewrite is_object_put; assumption).
    reflexivity.
Qed.

Lemma strict_eq_str_true x s : strict_eq_str x s = true -> x = VStr s.
Proof.
  destruct x; try discriminate. simpl. intros H.
  apply String.eqb_eq in H. congruence.
Qed.

Lemma strict_eq_str_refl s : strict_eq_str (VStr s) s = true.
Proof. simpl. apply String.eqb_refl. Qed.

Lemma selecting_fields e f c n :
  is_set (OLLAMA_BASE_URL e) && is_set (OLLAMA_API_KEY e) = true ->
  is_set (OLLAMA_MODEL e) = true ->
  main_config e f = Ok (c, n) ->
  let m := text_of (OLLAMA_MODEL e) in
  exists c4 a d,
    same_node (load f) c4 /\
    field c4 "agents" = a /\ is_object a = true /\ is_mapping a = is_mapping (site (field (load f) "agents")) /\
    field a "defaults" = d /\ is_object d = true /\
    is_mapping d = is_mapping (site (field (site (field (load f) "agents")) "defaults")) /\
    primary_of (field d "model") = persisted_selector (load f) /\
    field d "model" = field (site (field (site (field (load f) "agents")) "defaults")) "model" /\
    c = (if strict_eq_str (persisted_selector (load f)) (selector m) then c4
         else wb c4 "agents" (wb a "defaults" (put d "model" (selected m)))).
Proof.
  intros Hen Hm H m.
  destruct (main_config_selecting e f Hen Hm H)
    as (c4 & d0 & tl & N4 & -> & Ntl & Fa & Esel).
  set (a0 := site (field (load f) "agents")) in *.
  set (d0 := site (field a0 "defaults")) in *.
  assert (Ha0 : is_object a0 = true) by apply site_object.
  assert (Hd0 : is_object d0 = true) by apply site_object.
  assert (Fd : field (field c4 "agents") "defaults" = put d0 "tools" tl).
  { rewrite Fa. apply field_put_same. assumption. }
  assert (Fm : field (put d0 "tools" tl) "model" = field d0 "model").
  { apply field_put_other; [assumption|discriminate]. }
  rewrite select_model_form in Esel.
  - exists c4, (field c4 "agents"), (put d0 "tools" tl).
    rewrite Fd, Fm in Esel. inversion Esel; subst c.
    split; [exact N4|]. split; [reflexivity|].
    split; [rewrite Fa, is_object_put; assumption|].
    split; [rewrite Fa; destruct a0; reflexivity|].
    split; [exact Fd|].
    split; [rewrite is_object_put; assumption|].
    split; [destruct d0; reflexivity|].
    split; [rewrite Fm; reflexivity|].
    split; [exact Fm|]. reflexivity.
  - eapply same_node_object; eassumption.
  - rewrite Fa, is_object_put. assumption.
  - rewrite Fd, is_object_put. assumption.
Qed.

(** C10.  When the selector stored in the document differs from the one the
    environment asks for, [agents.defaults.model] is afterwards the object
    with the single key [primary]: whatever else was stored under it is
    gone. *)
Theorem selector_update_replaces_mapping e f c n :
  is_set (OLLAMA_BASE_URL e) && is_set (OLLAMA_API_KEY e) = true ->
  is_set (OLLAMA_MODEL e) = true ->
  main_config e f = Ok (c, n) ->
  strict_eq_str (persisted_selector (load f))
                (selector (text_of (OLLAMA_MODEL e))) = false ->
  get_path c selector_path =
  Ok (VObj [("primary", VStr (selector (text_of (OLLAMA_MODEL e))))]).
Proof.
  intros Hen Hm H Hne.
  destruct (selecting_fields e f Hen Hm H)
    as (c4 & a & d & N4 & Fa & Ha & _ & Fd & Hd & _ & _ & _ & ->).
  rewrite Hne. unfold selector_path.
  pose proof (same_node_object N4) as H4.
  rewrite get_path_cons by (rewrite ?is_object_wb; assumption || reflexivity).
  rewrite field_wb_same by (rewrite ?Fa; auto using object_defined).
  rewrite get_path_cons by (rewrite ?is_object_wb; assumption || reflexivity).
  rewrite field_wb_same by (rewrite ?Fd; auto using object_defined).
  rewrite get_path_cons by (rewrite ?is_object_put; assumption || reflexivity).
  rewrite field_put_same by assumption. reflexivity.
Qed.

Lemma selector_update_replaces_mapping_witness :
  exists c n,
    main_config env_model_b (Document model_a_doc) = Ok (c, n) /\
    get_path c selector_path = Ok (VObj [("primary", VStr "ollama/modelB")]).
Proof.
  destruct (main_config env_model_b (Document model_a_doc)) as [[c n]|] eqn:E;
    [|vm_compute in E; discriminate].
  exists c, n. split; [reflexivity|].
  apply (@selector_update_replaces_mapping env_model_b (Document model_a_doc)
           c n eq_refl eq_refl E eq_refl).
Defined.

(** ** The default model follows the environment *)

Lemma get_prop_object_parent v k x :
  named_key k = true -> get_prop v k = Ok x -> is_object x = true ->
  is_object v = true.
Proof.
  intros Hk H Hx. destruct v; try reflexivity; try discriminate H;
    rewrite get_prop_prim in H by (reflexivity || assumption);
    inversion H; subst; discriminate Hx.
Qed.



Lemma own_path_defined_head c p x :
  own_path c p = Some x -> is_undefined x = false -> is_undefined c = false.
Proof.
  destruct p; simpl.
  - intros [= ->]. auto.
  - destruct c; try discriminate. reflexivity.
Qed.

Lemma own_path_to_json p : forall v x,
  own_path v p = Some x -> is_undefined x = false ->
  own_path (to_json v) p = Some (to_json x).
Proof.
  induction p as [|k p IH]; intros v x; simpl.
  - intros [= ->] _. reflexivity.
  - destruct v as [| | | | | |ps]; try discriminate.
    destruct (lookup ps k) as [c|] eqn:L; [|discriminate].
    intros Hown Hx. rewrite to_json_obj.
    rewrite (lookup_to_json_props_some _ _ L
               (own_path_defined_head _ _ Hown Hx)).
    apply IH; assumption.
Qed.




Lemma run_of_main_config e f c n :
  main_config e f = Ok (c, n) -> disk (run e f) = Document (to_json c).
Proof. intros H. unfold run, main. rewrite H. reflexivity. Qed.


(** ** Following the provisioner down the tree *)

Lemma ensure_path_cons t k k2 p :
  is_object t = true -> named_key k = true ->
  ensure_path t (k :: k2 :: p) = descend k (fun c => ensure_path c (k2 :: p)) t.
Proof.
  intros Ht Hk. unfold descend, ensure_path.
  rewrite get_path_cons by assumption.
  destruct (get_path (field t k) (k2 :: p)) as [cur|]; cbn [bind]; [|reflexivity].
  destruct (truthy cur); cbn [bind].
  - rewrite wb_same by assumption. reflexivity.
  - apply set_path_cons; assumption.
Qed.

Lemma set_entry_at_cons u k0 t k k2 p :
  is_object t = true -> named_key k = true ->
  set_entry_at u k0 (k :: k2 :: p) t = descend k (set_entry_at u k0 (k2 :: p)) t.
Proof.
  intros Ht Hk. unfold descend, set_entry_at.
  rewrite get_path_cons by assumption.
  destruct (get_path (field t k) (k2 :: p)) as [ex|]; cbn [bind]; [|reflexivity].
  apply set_path_cons; assumption.
Qed.

Lemma add_model_at_cons m cw t k k2 p :
  is_object t = true -> named_key k = true ->
  add_model_at m cw (k :: k2 :: p) t = descend k (add_model_at m cw (k2 :: p)) t.
Proof.
  intros Ht Hk. unfold descend, add_model_at.
  rewrite get_path_cons by assumption.
  destruct (get_path (field t k) (k2 :: p)) as [found|]; cbn [bind]; [|reflexivity].
  destruct (modelExists _ m) as [[]|]; cbn [bind]; try reflexivity.
  - rewrite wb_same by assumption. reflexivity.
  - apply set_path_cons; assumption.
Qed.

Lemma descend_bind k F G t :
  is_object t = true ->
  (field t k = VUndef -> F VUndef = Throw TypeError) ->
  (c1 <- descend k F t ;; descend k G c1) =
  descend k (fun c => c' <- F c ;; G c') t.
Proof.
  intros Ht Hab. unfold descend.
  destruct (F (field t k)) as [c'|] eqn:EF; cbn [bind]; [|reflexivity].
  assert (Hp : field t k <> VUndef).
  { intros E. rewrite E, Hab in EF by assumption. discriminate. }
  rewrite field_wb_same by assumption.
  destruct (G c'); cbn [bind]; [|reflexivity].
  rewrite wb_wb. reflexivity.
Qed.

Lemma wb_put t k x : is_object t = true -> field t k <> VUndef -> wb t k x = put t k x.
Proof.
  intros Ht Hp. destruct (field_present _ _ Hp) as (c & L & _).
  unfold wb, put, obj_set, has_key. rewrite L. reflexivity.
Qed.

Lemma wb_of_put t k x y : is_object t = true -> wb (put t k x) k y = put t k y.
Proof.
  intros Ht. unfold wb. rewrite fields_put by assumption.
  rewrite replace_value_obj_set. rewrite with_fields_put. reflexivity.
Qed.

Lemma descend_then k F G t :
  is_object t = true -> field t k <> VUndef ->
  (c1 <- descend k F t ;; descend k G c1) =
  descend k (fun c => c' <- F c ;; G c') t.
Proof. intros Ht Hp. apply descend_bind; [assumption|]. intros E. contradiction. Qed.

Lemma descend_ext k F G t :
  (forall c, F c = G c) -> descend k F t = descend k G t.
Proof. intros H. unfold descend. rewrite H. reflexivity. Qed.

Lemma add_model_at_entry m cw entry :
  is_object entry = true ->
  add_model_at m cw ["models"] entry = entry_add_model m cw entry.
Proof.
  intros He. unfold add_model_at, entry_add_model.
  rewrite get_path_cons, get_path_nil by (assumption || reflexivity). cbn [bind].
  destruct (modelExists _ m) as [[]|]; cbn [bind]; try reflexivity.
  apply set_path_one; [assumption|reflexivity].
Qed.

Lemma ollama_entry_object u k ex : is_object (ollama_entry u k ex) = true.
Proof. reflexivity. Qed.

Lemma provide_in_providers_object e p0 :
  is_object p0 = true ->
  provide_in_providers e p0 =
  (x <- provider_step e (field p0 "ollama") ;; Ok (put p0 "ollama" x)).
Proof.
  intros Hp. unfold provide_in_providers, provider_step, set_entry_at.
  rewrite get_path_cons, get_path_nil by (assumption || reflexivity). cbn [bind].
  rewrite set_path_one by (assumption || reflexivity). cbn [bind].
  destruct (is_set (OLLAMA_MODEL e)); [|reflexivity].
  rewrite add_model_at_cons by (rewrite ?is_object_put; assumption || reflexivity).
  unfold descend. rewrite field_put_same by assumption.
  rewrite add_model_at_entry by apply ollama_entry_object.
  destruct (entry_add_model _ _ _); cbn [bind]; [|reflexivity].
  rewrite wb_of_put by assumption. reflexivity.
Qed.

Lemma provide_in_providers_prim e p0 :
  is_prim p0 = true ->
  provide_in_providers e p0 =
  if is_set (OLLAMA_MODEL e) then Throw TypeError else Ok p0.
Proof.
  intros Hp. unfold provide_in_providers, set_entry_at, add_model_at.
  rewrite get_path_prim by (assumption || reflexivity).
  rewrite get_path_nil. cbn [bind].
  cbn [set_path]. rewrite set_prop_prim by assumption. cbn [bind].
  destruct (is_set (OLLAMA_MODEL e)); [|reflexivity].
  rewrite get_path_prim by (assumption || reflexivity). reflexivity.
Qed.

Lemma truthy_or_fresh v :
  let v0 := if truthy v then v else VObj [] in
  v0 <> VUndef /\ (is_object v0 = true \/ is_prim v0 = true).
Proof.
  destruct v as [| |[]|n|s| |]; simpl; try (split; [discriminate|auto]).
  - destruct (n =? 0); simpl; split; try discriminate; auto.
  - destruct (String.eqb s ""); simpl; split; try discriminate; auto.
Qed.

Lemma provide_in_providers_step e p :
  provide_in_providers e (if truthy p then p else VObj []) = providers_step e p.
Proof.
  unfold providers_step.
  destruct (truthy_or_fresh p) as [_ [Ho|Hp]].
  - rewrite Ho. apply provide_in_providers_object. assumption.
  - assert (Ho : is_object (if truthy p then p else VObj []) = false)
      by (destruct (if truthy p then p else VObj []); try discriminate; reflexivity).
    rewrite Ho. apply provide_in_providers_prim. assumption.
Qed.

Lemma ensure_path_one t k :
  is_object t = true -> named_key k = true ->
  ensure_path t [k] =
  Ok (if truthy (field t k) then t else put t k (VObj [])).
Proof.
  intros Ht Hk. unfold ensure_path.
  rewrite get_path_cons, get_path_nil by assumption. cbn [bind].
  destruct (truthy (field t k)); [reflexivity|].
  apply set_path_one; assumption.
Qed.

Lemma field_after_ensure t k :
  is_object t = true ->
  field (if truthy (field t k) then t else put t k (VObj [])) k
  = (if truthy (field t k) then field t k else VObj []).
Proof.
  intros Ht. destruct (truthy (field t k)); [reflexivity|].
  apply field_put_same. assumption.
Qed.

Lemma wb_after_ensure t k x :
  is_object t = true ->
  wb (if truthy (field t k) then t else put t k (VObj [])) k x = put t k x.
Proof.
  intros Ht. destruct (truthy (field t k)) eqn:T.
  - apply wb_put; [assumption|]. intros E. rewrite E in T. discriminate.
  - apply wb_of_put. assumption.
Qed.

Lemma is_object_after_ensure t k :
  is_object (if truthy (field t k) then t else put t k (VObj [])) = is_object t.
Proof. destruct (truthy (field t k)); [reflexivity|apply is_object_put]. Qed.

Lemma provide_in_models_object e m0 :
  is_object m0 = true ->
  provide_in_models e m0 =
  (x <- providers_step e (field m0 "providers") ;; Ok (put m0 "providers" x)).
Proof.
  intros Hm. unfold provide_in_models.
  rewrite ensure_path_one by (assumption || reflexivity). cbn [bind].
  set (m1 := if truthy (field m0 "providers") then m0
             else put m0 "providers" (VObj [])).
  assert (H1 : is_object m1 = true)
    by (unfold m1; rewrite is_object_after_ensure; assumption).
  assert (F1 : field m1 "providers" <> VUndef).
  { unfold m1. rewrite field_after_ensure by assumption.
    apply truthy_or_fresh. }
  assert (P0 : field m1 "providers"
               = (if truthy (field m0 "providers") then field m0 "providers"
                  else VObj []))
    by (unfold m1; apply field_after_ensure; assumption).
  assert (W : forall x, wb m1 "providers" x = put m0 "providers" x)
    by (intros x; unfold m1; apply wb_after_ensure; assumption).
  rewrite set_entry_at_cons by (assumption || reflexivity).
  rewrite <- provide_in_providers_step, <- P0.
  unfold descend, provide_in_providers.
  destruct (set_entry_at _ _ ["ollama"] (field m1 "providers")) as [c'|];
    cbn [bind]; [|reflexivity].
  destruct (is_set (OLLAMA_MODEL e)).
  - rewrite add_model_at_cons by (rewrite ?is_object_wb; assumption || reflexivity).
    unfold descend. rewrite field_wb_same by assumption.
    destruct (add_model_at _ _ _ c') as [c''|]; cbn [bind]; [|reflexivity].
    rewrite wb_wb, W. reflexivity.
  - cbn [bind]. rewrite W. reflexivity.
Qed.

Lemma provide_in_models_prim e m0 :
  is_prim m0 = true -> provide_in_models e m0 = Throw TypeError.
Proof.
  intros Hp. unfold provide_in_models, ensure_path, set_entry_at.
  rewrite get_path_prim, get_path_nil by (assumption || reflexivity).
  cbn [bind truthy set_path]. rewrite set_prop_prim by assumption. cbn [bind].
  rewrite get_path_prim by (assumption || reflexivity). reflexivity.
Qed.

Lemma provide_in_models_step e mv :
  provide_in_models e (if truthy mv then mv else VObj []) = models_step e mv.
Proof.
  unfold models_step.
  destruct (truthy_or_fresh mv) as [_ [Ho|Hp]].
  - rewrite Ho. apply provide_in_models_object. assumption.
  - assert (Ho : is_object (if truthy mv then mv else VObj []) = false)
      by (destruct (if truthy mv then mv else VObj []); try discriminate; reflexivity).
    rewrite Ho. apply provide_in_models_prim. assumption.
Qed.

Lemma add_model_as_at m cw c : add_model m cw c = add_model_at m cw models_path c.
Proof. reflexivity. Qed.

Lemma configure_provider_as_at u k c :
  configure_provider u k c =
  (c1 <- ensure_path c ["models"] ;;
   c2 <- ensure_path c1 ["models"; "providers"] ;;
   set_entry_at u k ollama_path c2).
Proof. reflexivity. Qed.

(** Lines 131-163 rewrite the value held at [models], and nothing else. *)
Lemma provide_form e c :
  is_object c = true ->
  provide e c = (x <- models_step e (field c "models") ;; Ok (put c "models" x)).
Proof.
  intros Hc. unfold provide. rewrite configure_provider_as_at.
  rewrite ensure_path_one by (assumption || reflexivity). cbn [bind].
  set (c0 := if truthy (field c "models") then c else put c "models" (VObj [])).
  assert (H0 : is_object c0 = true)
    by (unfold c0; rewrite is_object_after_ensure; assumption).
  assert (F0 : field c0 "models" <> VUndef).
  { unfold c0. rewrite field_after_ensure by assumption. apply truthy_or_fresh. }
  assert (P0 : field c0 "models"
               = (if truthy (field c "models") then field c "models" else VObj []))
    by (unfold c0; apply field_after_ensure; assumption).
  assert (W : forall x, wb c0 "models" x = put c "models" x)
    by (intros x; unfold c0; apply wb_after_ensure; assumption).
  rewrite ensure_path_cons by (assumption || reflexivity).
  rewrite <- provide_in_models_step, <- P0.
  unfold descend at 1. unfold provide_in_models.
  destruct (ensure_path (field c0 "models") ["providers"]) as [m1|];
    cbn [bind]; [|reflexivity].
  unfold ollama_path.
  rewrite (@set_entry_at_cons _ _ (wb c0 "models" m1) "models" "providers" ["ollama"])
    by (rewrite ?is_object_wb; assumption || reflexivity).
  unfold descend. rewrite field_wb_same by assumption.
  destruct (set_entry_at _ _ ["providers"; "ollama"] m1) as [m2|];
    cbn [bind]; [|reflexivity].
  rewrite wb_wb.
  destruct (is_set (OLLAMA_MODEL e)).
  - rewrite add_model_as_at. unfold models_path.
    rewrite (@add_model_at_cons _ _ (wb c0 "models" m2) "models" "providers"
               ["ollama"; "models"])
      by (rewrite ?is_object_wb; assumption || reflexivity).
    unfold descend. rewrite field_wb_same by assumption.
    destruct (add_model_at _ _ _ m2) as [m3|]; cbn [bind]; [|reflexivity].
    rewrite wb_wb, W. reflexivity.
  - rewrite W. reflexivity.
Qed.

(** ** The model sequence *)

Lemma reach_entry c entry :
  get_path c ollama_path = Ok entry -> is_object entry = true ->
  is_object c = true /\
  is_object (field c "models") = true /\
  is_object (field (field c "models") "providers") = true /\
  entry = field (field (field c "models") "providers") "ollama".
Proof.
  unfold ollama_path. simpl get_path. intros H He.
  destruct (get_prop c "models") as [mv|] eqn:Em; cbn [bind] in H; [|discriminate].
  destruct (get_prop mv "providers") as [pv|] eqn:Ep; cbn [bind] in H; [|discriminate].
  destruct (get_prop pv "ollama") as [ex|] eqn:Eo; cbn [bind] in H; [|discriminate].
  inversion H; subst ex.
  assert (Hp : is_object pv = true)
    by (eapply get_prop_object_parent; [|eassumption|assumption]; reflexivity).
  assert (Hm : is_object mv = true)
    by (eapply get_prop_object_parent; [|eassumption|assumption]; reflexivity).
  assert (Hc : is_object c = true)
    by (eapply get_prop_object_parent; [|eassumption|assumption]; reflexivity).
  rewrite get_prop_named in Em, Ep, Eo by (assumption || reflexivity).
  inversion Em; inversion Ep; inversion Eo; subst. auto.
Qed.

Lemma add_model_reach m cw c entry :
  get_path c ollama_path = Ok entry -> is_object entry = true ->
  add_model m cw c =
  (x <- entry_add_model m cw entry ;;
   Ok (wb c "models"
         (wb (field c "models") "providers"
            (wb (field (field c "models") "providers") "ollama" x)))).
Proof.
  intros H He. destruct (reach_entry _ H He) as (Hc & Hm & Hp & ->).
  rewrite add_model_as_at. unfold models_path.
  rewrite add_model_at_cons by (assumption || reflexivity). unfold descend at 1.
  rewrite add_model_at_cons by (assumption || reflexivity). unfold descend at 1.
  rewrite add_model_at_cons by (assumption || reflexivity). unfold descend at 1.
  rewrite add_model_at_entry by assumption.
  destruct (entry_add_model _ _ _); reflexivity.
Qed.

Lemma get_path_after_wb c x :
  is_object c = true ->
  is_object (field c "models") = true ->
  is_object (field (field c "models") "providers") = true ->
  field (field (field c "models") "providers") "ollama" <> VUndef ->
  get_path (wb c "models"
              (wb (field c "models") "providers"
                 (wb (field (field c "models") "providers") "ollama" x)))
           ollama_path = Ok x.
Proof.
  intros Hc Hm Hp Ho. unfold ollama_path.
  rewrite get_path_cons by (rewrite ?is_object_wb; assumption || reflexivity).
  rewrite field_wb_same by auto using object_defined.
  rewrite get_path_cons by (rewrite ?is_object_wb; assumption || reflexivity).
  rewrite field_wb_same by auto using object_defined.
  rewrite get_path_cons by (rewrite ?is_object_wb; assumption || reflexivity).
  rewrite field_wb_same by assumption. reflexivity.
Qed.

Lemma has_id_model_entry m cw : has_id m (model_entry m cw) = true.
Proof. unfold has_id. simpl. apply String.eqb_refl. Qed.

Lemma some_id_true es m :
  some_id es m = Ok true -> existsb (has_id m) es = true.
Proof.
  induction es as [|x es IH]; simpl; [discriminate|].
  destruct x; try (intros H; rewrite IH by assumption; apply orb_true_r);
    unfold has_id; simpl get_prop; cbn [bind]; try discriminate;
    match goal with |- context [strict_eq_str ?v m] =>
      destruct (strict_eq_str v m); simpl; auto end.
Qed.

Lemma some_id_false es m :
  some_id es m = Ok false -> filter (has_id m) es = [].
Proof.
  induction es as [|x es IH]; simpl; [reflexivity|].
  destruct x; try (intros H; rewrite IH by assumption; reflexivity);
    unfold has_id; simpl get_prop; cbn [bind]; try discriminate;
    match goal with |- context [strict_eq_str ?v m] =>
      destruct (strict_eq_str v m); simpl; auto; discriminate end.
Qed.

Lemma some_id_app_hit es m x :
  has_id m x = true -> some_id es m = Ok false -> some_id (es ++ [x]) m = Ok true.
Proof.
  intros Hx. induction es as [|y es IH]; simpl.
  - intros _. unfold has_id in Hx. destruct x; try discriminate;
      simpl in *; cbn [bind]; rewrite ?Hx; try reflexivity; discriminate.
  - destruct y; auto; simpl get_prop; cbn [bind]; try discriminate;
      match goal with |- context [strict_eq_str ?v m] =>
        destruct (strict_eq_str v m); auto; discriminate end.
Qed.

Lemma entry_add_model_cases m cw entry entry' :
  entry_add_model m cw entry = Ok entry' ->
  let es := sequence_of (field entry "models") in
  (some_id es m = Ok true /\ entry' = entry /\
   exists named, field entry "models" = VArr es named) \/
  (some_id es m = Ok false /\
   entry' = put entry "models" (plain_array (es ++ [model_entry m cw]))).
Proof.
  unfold entry_add_model. intros H. cbv zeta.
  destruct (truthy (field entry "models")) eqn:T.
  - destruct (field entry "models") as [| | | | |es named|] eqn:F;
      try discriminate H.
    simpl in *. destruct (some_id es m) as [[]|]; cbn [bind] in H;
      inversion H; subst; eauto.
  - assert (S : sequence_of (field entry "models") = []).
    { destruct (field entry "models"); try reflexivity. discriminate. }
    rewrite S. simpl in *. inversion H; subst. right. auto.
Qed.

(** ** The new model definition *)




(** ** Writing twice *)

Lemma to_json_defined v : is_undefined (to_json v) = false.
Proof. destruct v; reflexivity. Qed.

Lemma to_json_props_cons_defined k x ps :
  is_undefined x = false ->
  to_json_props ((k, x) :: ps) = (k, to_json x) :: to_json_props ps.
Proof. destruct x; try reflexivity. discriminate. Qed.

Lemma to_json_idem v : to_json (to_json v) = to_json v.
Proof.
  induction v as [| | | | |es ps IHes IHps|ps IHps] using value_ind';
    try reflexivity.
  - rewrite !to_json_arr. f_equal.
    induction es as [|x es IH]; [reflexivity|].
    inversion IHes; subst. simpl. f_equal; auto.
  - rewrite !to_json_obj. f_equal.
    induction ps as [|[k x] ps IH]; [reflexivity|].
    inversion IHps; subst. simpl snd in *.
    destruct (is_undefined x) eqn:Hx.
    + destruct x; try discriminate. simpl. auto.
    + rewrite to_json_props_cons_defined by assumption.
      rewrite to_json_props_cons_defined by apply to_json_defined.
      f_equal; [f_equal; assumption|auto].
Qed.

Lemma all_defined_to_json_props ps : all_defined (to_json_props ps).
Proof.
  induction ps as [|[k x] ps IH]; simpl; [constructor|].
  destruct x; try assumption; constructor; auto.
Qed.

Lemma to_json_props_replace ss k v x :
  lookup ss k = Some v ->
  is_undefined v = false -> is_undefined x = false ->
  to_json x = to_json v ->
  to_json_props (replace_value ss k x) = to_json_props ss.
Proof.
  intros L Hv Hx E.
  induction ss as [|[k0 y] ss IH]; cbn [lookup replace_value] in *;
    [discriminate|].
  destruct (String.eqb k0 k).
  - inversion L; subst y.
    rewrite !to_json_props_cons_defined by assumption. rewrite E. reflexivity.
  - destruct y; simpl; rewrite ?IH by assumption; reflexivity.
Qed.

Lemma all_defined_replace ss k x :
  all_defined ss -> is_undefined x = false -> all_defined (replace_value ss k x).
Proof.
  intros H Hx. induction ss as [|[k0 y] ss IH]; simpl; [constructor|].
  inversion H; subst.
  destruct (String.eqb k0 k); constructor; simpl; auto. apply IH. assumption.
Qed.

Lemma all_defined_obj_set ss k x :
  all_defined ss -> is_undefined x = false -> all_defined (obj_set ss k x).
Proof.
  intros H Hx. unfold obj_set. destruct (has_key ss k).
  - apply all_defined_replace; assumption.
  - destruct (array_index k) as [i|].
    + induction ss as [|[k0 y] ss IH]; simpl.
      * constructor; [assumption|constructor].
      * inversion H; subst.
        destruct (array_index k0) as [j|]; [destruct (j <? i)%nat|];
          constructor; simpl; auto; try (apply IH; assumption);
          constructor; auto.
    + apply Forall_app. split; [assumption|]. constructor; [assumption|constructor].
Qed.

Lemma run_steps_same_node steps : forall t t1,
  is_object t = true -> run_steps t steps = Ok t1 -> same_node t t1.
Proof.
  induction steps as [|[k g] steps IH]; intros t t1 Ht; simpl.
  - intros [= <-]. apply same_node_refl. assumption.
  - destruct (g (field t k)) as [x|]; cbn [bind]; [|discriminate].
    intros H. apply IH in H; [|rewrite is_object_put; assumption].
    eapply same_node_trans; [apply same_node_put; assumption|exact H].
Qed.

Lemma distinct_cons k ks :
  distinct (k :: ks) = true -> ~ In k ks /\ distinct ks = true.
Proof.
  simpl. intros H. apply andb_true_iff in H. destruct H as [H1 H2].
  split; [|assumption]. intros Hin.
  apply negb_true_iff in H1.
  assert (existsb (String.eqb k) ks = true).
  { apply existsb_exists. exists k. split; [assumption|apply String.eqb_refl]. }
  congruence.
Qed.

Lemma run_steps_values steps : forall t t1,
  is_object t = true ->
  distinct (map fst steps) = true ->
  run_steps t steps = Ok t1 ->
  (forall k g, In (k, g) steps ->
     exists x, g (field t k) = Ok x /\ lookup (fields t1) k = Some x) /\
  (forall k, ~ In k (map fst steps) -> lookup (fields t1) k = lookup (fields t) k).
Proof.
  induction steps as [|[k g] steps IH]; intros t t1 Ht Hd; simpl.
  - intros [= <-]. split; [contradiction|reflexivity].
  - apply distinct_cons in Hd. destruct Hd as [Hnotin Hd].
    destruct (g (field t k)) as [x|] eqn:Eg; cbn [bind]; [|discriminate].
    intros H. apply IH in H; [|rewrite is_object_put; assumption|assumption].
    destruct H as [Hin Hout]. split.
    + intros k' g' [Heq|Hin'].
      * inversion Heq; subst k' g'. exists x. split; [assumption|].
        rewrite Hout by assumption. rewrite fields_put by assumption.
        apply lookup_obj_set_same.
      * destruct (Hin _ _ Hin') as (x' & Ex' & Lx').
        exists x'. split; [|assumption].
        rewrite field_put_other in Ex'; [assumption|assumption|].
        intros ->. apply Hnotin. apply (in_map fst) in Hin'. exact Hin'.
    + intros k' Hk'. rewrite Hout by tauto.
      rewrite fields_put by assumption. apply lookup_obj_set_other. tauto.
Qed.

Lemma to_json_put_same s k v x :
  is_object s = true ->
  lookup (fields s) k = Some v ->
  is_undefined v = false -> is_undefined x = false ->
  to_json x = to_json v ->
  to_json (put s k x) = to_json s.
Proof.
  intros Hs L Hv Hx E. destruct s; try discriminate; [reflexivity|].
  unfold put. cbn [fields with_fields] in *. rewrite !to_json_obj. f_equal.
  unfold obj_set, has_key. rewrite L.
  eapply to_json_props_replace; eassumption.
Qed.

Lemma all_defined_fields_put s k x :
  is_object s = true -> all_defined (fields s) -> is_undefined x = false ->
  all_defined (fields (put s k x)).
Proof.
  intros Hs H Hx. rewrite fields_put by assumption.
  apply all_defined_obj_set; assumption.
Qed.

Lemma all_defined_lookup ps k v :
  all_defined ps -> lookup ps k = Some v -> is_undefined v = false.
Proof.
  intros H. induction ps as [|[k0 y] ps IH]; simpl; [discriminate|].
  inversion H; subst. destruct (String.eqb k0 k); auto.
  intros [= <-]. assumption.
Qed.

Lemma run_steps_absorbed steps : forall s,
  is_object s = true ->
  all_defined (fields s) ->
  distinct (map fst steps) = true ->
  (forall k g, In (k, g) steps ->
     exists v x2, lookup (fields s) k = Some v /\ g v = Ok x2 /\
                  is_undefined x2 = false /\ to_json x2 = to_json v) ->
  exists s', run_steps s steps = Ok s' /\ to_json s' = to_json s.
Proof.
  induction steps as [|[k g] steps IH]; intros s Hs Hdef Hd Hst; simpl.
  - eauto.
  - apply distinct_cons in Hd. destruct Hd as [Hnotin Hd].
    destruct (Hst k g (or_introl eq_refl)) as (v & x2 & L & Eg & Hx2 & Ej).
    assert (Fk : field s k = v) by (unfold field; rewrite L; reflexivity).
    rewrite Fk, Eg. cbn [bind].
    pose proof (all_defined_lookup _ Hdef L) as Hv.
    destruct (IH (put s k x2)) as (s' & Es' & Ej').
    + rewrite is_object_put. assumption.
    + apply all_defined_fields_put; assumption.
    + assumption.
    + intros k' g' Hin'. destruct (Hst k' g' (or_intror Hin'))
        as (v' & x' & L' & Eg' & Hx' & Ej'').
      exists v', x'. repeat split; try assumption.
      rewrite fields_put by assumption.
      rewrite lookup_obj_set_other; [assumption|].
      intros ->. apply Hnotin. apply (in_map fst) in Hin'. exact Hin'.
    + exists s'. split; [assumption|]. rewrite Ej'.
      eapply to_json_put_same; eassumption.
Qed.

Lemma found_in_json_field t k : json t = true -> found_in_json (field t k).
Proof.
  intros Hj. unfold field, found_in_json.
  destruct (lookup (fields t) k) as [x|] eqn:L; [|left; reflexivity].
  right. destruct t; try discriminate L.
  - apply json_arr in Hj. destruct Hj as [-> _]. discriminate.
  - eapply json_lookup; eassumption.
Qed.

Lemma same_node_array_json t t1 :
  same_node t t1 -> isArray t = true -> to_json t1 = to_json t.
Proof.
  intros [_ ->] Ha. destruct t; try discriminate. reflexivity.
Qed.

Lemma is_object_to_json v : is_object (to_json v) = is_object v.
Proof. destruct v; reflexivity. Qed.

(** Updates at distinct keys that each settle, settle together. *)
Theorem run_steps_settles steps t t1 :
  distinct (map fst steps) = true ->
  Forall (fun s => settles (snd s)) steps ->
  json t = true ->
  is_object t = true ->
  run_steps t steps = Ok t1 ->
  same_node t t1 /\
  exists t2, run_steps (to_json t1) steps = Ok t2 /\ to_json t2 = to_json t1.
Proof.
  intros Hd Hst Hj Ht Hrun.
  pose proof (@run_steps_same_node steps t t1 Ht Hrun) as Hn.
  split; [exact Hn|].
  destruct (isArray t) eqn:Ha.
  - rewrite (@same_node_array_json t t1 Hn Ha), (@to_json_json t Hj).
    exists t1. split; [assumption|].
    rewrite (@same_node_array_json t t1 Hn Ha), (@to_json_json t Hj). reflexivity.
  - destruct (@run_steps_values steps t t1 Ht Hd Hrun) as [Hin _].
    destruct (@run_steps_absorbed steps (to_json t1)) as (t2 & E2 & J2).
    + rewrite is_object_to_json. eapply same_node_object; eassumption.
    + destruct Hn as [_ ->]. destruct t; try discriminate.
      cbn [with_fields]. rewrite to_json_obj. apply all_defined_to_json_props.
    + assumption.
    + intros k g Hkg. destruct (Hin k g Hkg) as (x & Ex & Lx).
      rewrite Forall_forall in Hst. specialize (Hst (k, g) Hkg). simpl in Hst.
      destruct (Hst _ _ (@found_in_json_field t k Hj) Ex) as (Hx & x2 & E2 & Hx2 & J2).
      exists (to_json x), x2. repeat split; try assumption.
      * destruct Hn as [_ ->]. destruct t; try discriminate.
        cbn [with_fields fields] in *. rewrite to_json_obj. cbn [fields].
        apply lookup_to_json_props_some; assumption.
      * rewrite to_json_idem. assumption.
    + exists t2. split; [assumption|]. rewrite J2. apply to_json_idem.
Qed.

Lemma site_json c : found_in_json c -> json (site c) = true.
Proof.
  intros [->|Hj]; [reflexivity|].
  unfold site. destruct (needs_fresh c); [reflexivity|assumption].
Qed.

Lemma object_is_defined v : is_object v = true -> is_undefined v = false.
Proof. destruct v; try discriminate; reflexivity. Qed.

Lemma settles_site steps :
  distinct (map fst steps) = true ->
  Forall (fun s => settles (snd s)) steps ->
  settles (fun c => run_steps (site c) steps).
Proof.
  intros Hd Hst c c1 Hc Hrun.
  destruct (@run_steps_settles steps (site c) c1 Hd Hst (site_json Hc)
              (site_object c) Hrun) as (Hn & t2 & E2 & J2).
  pose proof (same_node_object Hn) as Ho.
  split; [apply object_is_defined; assumption|].
  exists t2. rewrite site_of_object by (rewrite is_object_to_json; assumption).
  split; [assumption|]. split; [|assumption].
  apply object_is_defined.
  eapply same_node_object. eapply run_steps_same_node; [|eassumption].
  rewrite is_object_to_json. assumption.
Qed.

Lemma put_field_same t k :
  is_object t = true -> is_undefined (field t k) = false ->
  put t k (field t k) = t.
Proof.
  intros Ht Hd. unfold put, field in *.
  destruct (lookup (fields t) k) eqn:L; [|discriminate].
  rewrite obj_set_same by assumption.
  destruct t; try discriminate; reflexivity.
Qed.

Lemma merge_props_run_steps force qs : forall t,
  is_object t = true ->
  Forall (fun kv => named_key (fst kv) = true) qs ->
  merge_props (leaf_of force) t qs = run_steps t (merge_steps force qs).
Proof.
  induction qs as [|[k sk] qs IH]; intros t Ht Hk; [reflexivity|].
  inversion Hk as [|? ? Hk1 Hk2]; subst. simpl in Hk1.
  cbn [merge_props merge_steps map run_steps fst snd].
  assert (E : merge_key (leaf_of force) t k sk =
              (x <- merge_child force sk (field t k) ;; Ok (put t k x))).
  { unfold merge_child. destruct (is_mapping sk) eqn:Hm.
    - apply merge_key_named_mapping; assumption.
    - unfold merge_key. rewrite Hm. cbn [bind]. destruct force; simpl leaf_of.
      + apply force_leaf_named; assumption.
      + rewrite preserve_leaf_named by assumption.
        destruct (is_undefined (field t k)) eqn:U; [reflexivity|].
        rewrite put_field_same by assumption. reflexivity. }
  rewrite E.
  destruct (merge_child force sk (field t k)) as [x|]; cbn [bind]; [|reflexivity].
  apply IH; [rewrite is_object_put; assumption|assumption].
Qed.

Lemma found_in_json_defined c :
  found_in_json c -> is_undefined c = false -> json c = true.
Proof. intros [->|H] Hd; [discriminate|assumption]. Qed.

Lemma settles_leaf (force : bool) sk :
  json sk = true ->
  settles (fun c => Ok (if force then sk else if is_undefined c then sk else c)).
Proof.
  intros Hsk c c1 Hc H. inversion H; subst c1; clear H.
  destruct force.
  - split; [apply json_defined; assumption|].
    exists sk. repeat split; auto using json_defined.
  - destruct (is_undefined c) eqn:U.
    + split; [apply json_defined; assumption|].
      exists sk. rewrite (@to_json_json sk Hsk), (@json_defined sk Hsk).
      repeat split; auto using json_defined.
    + split; [assumption|].
      pose proof (found_in_json_defined Hc U) as Hj.
      exists c. rewrite (@to_json_json c Hj), U. repeat split; assumption.
Qed.

(** Merging a literal source settles, for either leaf rule. *)
Theorem mergeWith_settles force s :
  plain_source s = true ->
  settles (fun c => mergeWith (leaf_of force) (site c) s).
Proof.
  induction s as [| | | | |es ps IHes IHps|qs IHqs] using value_ind';
    intros Hs; try discriminate.
  apply plain_source_obj in Hs. destruct Hs as [Hd Hs].
  assert (Hnamed : Forall (fun kv => named_key (fst kv) = true) qs).
  { eapply Forall_impl; [|exact Hs]. intros kv [H _]. exact H. }
  assert (Hsteps : settles (fun c => run_steps (site c) (merge_steps force qs))).
  { apply settles_site.
    - unfold merge_steps. rewrite map_map. simpl. exact Hd.
    - unfold merge_steps. rewrite Forall_map. simpl.
      rewrite Forall_forall in *. intros [k sk] Hin. simpl.
      specialize (IHqs _ Hin). specialize (Hs _ Hin). simpl in *.
      destruct Hs as [_ Hsk]. unfold merge_child.
      destruct (is_mapping sk).
      + apply IHqs. assumption.
      + apply settles_leaf. assumption. }
  intros c c1 Hc Hrun. rewrite mergeWith_obj in Hrun.
  rewrite merge_props_run_steps in Hrun by (apply site_object || assumption).
  destruct (Hsteps c c1 Hc Hrun) as (Hdef & c2 & E2 & Hd2 & J2).
  split; [assumption|]. exists c2. split; [|split; assumption].
  rewrite mergeWith_obj.
  rewrite merge_props_run_steps by (apply site_object || assumption).
  exact E2.
Qed.

(** ** Spreading an entry over the fields it already has *)

Lemma array_index_key k i : array_index k = Some i -> k = key_of_index i.
Proof.
  unfold array_index, canonical_numeral, key_of_index.
  destruct (NilEmpty.uint_of_string k) as [d|]; [|discriminate].
  destruct (String.eqb (numeral (N.of_uint d)) k) eqn:E; [|discriminate].
  destruct (N.of_uint d <? 4294967295)%N; [|discriminate].
  intros [= <-]. rewrite N2Nat.id. apply String.eqb_eq in E. congruence.
Qed.

Lemma array_index_inj k k' i :
  array_index k = Some i -> array_index k' = Some i -> k = k'.
Proof.
  intros H H'. apply array_index_key in H. apply array_index_key in H'. congruence.
Qed.

Lemma keys_replace_value ps k x : map fst (replace_value ps k x) = map fst ps.
Proof.
  induction ps as [|[k0 y] ps IH]; simpl; [reflexivity|].
  destruct (String.eqb k0 k) eqn:E; simpl; [|rewrite IH]; reflexivity.
Qed.

Lemma lookup_none_keys ps k : lookup ps k = None <-> ~ In k (map fst ps).
Proof.
  induction ps as [|[k0 y] ps IH]; simpl; [tauto|].
  destruct (String.eqb k0 k) eqn:E.
  - apply String.eqb_eq in E. split; [discriminate|]. intros H. exfalso. tauto.
  - apply String.eqb_neq in E. rewrite IH. tauto.
Qed.

Lemma has_key_keys ps k : has_key ps k = false <-> ~ In k (map fst ps).
Proof.
  unfold has_key. rewrite <- lookup_none_keys.
  destruct (lookup ps k); split; congruence.
Qed.

(** Where a new index key lands among ascending index keys that are
    followed by other keys. *)
Lemma insert_index_ascending I : forall N i k v,
  ascending (map fst I) ->
  Forall (fun kv => array_index (fst kv) = None) N ->
  array_index k = Some i ->
  ~ In k (map fst I) ->
  exists I',
    insert_index (I ++ N) i k v = I' ++ N /\
    ascending (map fst I') /\
    (forall x, In x (map fst I') <-> x = k \/ In x (map fst I)) /\
    (Forall (fun k' => exists j, array_index k' = Some j /\ (j < i)%nat) (map fst I) ->
     I' = I ++ [(k, v)]).
Proof.
  induction I as [|[k0 v0] I IH]; intros N i k v Hasc HN Hk Hnotin.
  - exists [(k, v)]. simpl. repeat split.
    + destruct N as [|[kn vn] N]; [reflexivity|].
      simpl. inversion HN; subst. simpl in *. rewrite H1. reflexivity.
    + exists i. split; [assumption|constructor].
    + intros [H|[]]; auto.
    + intros [H|[]]; auto.
  - simpl in Hasc. destruct Hasc as [(j & Hj & Hall) Hasc].
    simpl. rewrite Hj. destruct (j <? i)%nat eqn:Lt.
    + destruct (IH N i k v Hasc HN Hk) as (I' & E & A' & M' & P').
      { simpl in Hnotin. tauto. }
      exists ((k0, v0) :: I'). simpl. rewrite E. repeat split.
      * exists j. split; [assumption|].
        rewrite Forall_forall in *. intros x Hx. apply M' in Hx.
        destruct Hx as [->|Hx]; [|auto].
        exists i. split; [assumption|]. apply Nat.ltb_lt. assumption.
      * assumption.
      * intros [H|H]; [right; left; assumption|].
        apply M' in H. destruct H; [left|right; right]; assumption.
      * intros [H|[H|H]]; [right; apply M'; left; assumption|left; assumption|].
        right. apply M'. right. assumption.
      * intros Hlt. inversion Hlt; subst. rewrite P' by assumption. reflexivity.
    + apply Nat.ltb_ge in Lt.
      assert (Hne : i <> j).
      { intros ->. apply Hnotin. left. simpl.
        eapply array_index_inj; eassumption. }
      exists ((k, v) :: (k0, v0) :: I). simpl. repeat split.
      * exists i. split; [assumption|]. constructor.
        -- exists j. split; [assumption|lia].
        -- rewrite Forall_forall in *. intros x Hx.
           destruct (Hall x Hx) as (jx & Ejx & Ljx).
           exists jx. split; [assumption|lia].
      * exists j. split; assumption.
      * assumption.
      * intros [H|H]; [left; symmetry; assumption|right; assumption].
      * intros [H|H]; [left; symmetry; assumption|right; assumption].
      * intros Hlt. inversion Hlt as [|? ? (j' & Ej' & Lj') _]; subst.
        rewrite Hj in Ej'. inversion Ej'; subst. lia.
Qed.

Lemma in_keys_insert_index R i k v x :
  In x (map fst (insert_index R i k v)) <-> x = k \/ In x (map fst R).
Proof.
  induction R as [|[k0 v0] R IH]; simpl.
  - split; intros [H|H]; auto.
  - destruct (array_index k0) as [j|]; [destruct (j <? i)%nat|]; simpl;
      rewrite ?IH; intuition auto.
Qed.

Lemma NoDup_keys_insert_index R i k v :
  NoDup (map fst R) -> ~ In k (map fst R) ->
  NoDup (map fst (insert_index R i k v)).
Proof.
  induction R as [|[k0 v0] R IH]; simpl; intros Hnd Hk.
  - constructor; [intros []|constructor].
  - inversion Hnd; subst.
    destruct (array_index k0) as [j|]; [destruct (j <? i)%nat|]; simpl.
    + constructor.
      * rewrite in_keys_insert_index. intros [->|H]; tauto.
      * apply IH; tauto.
    + constructor; [simpl; tauto|assumption].
    + constructor; [simpl; tauto|assumption].
Qed.

Lemma NoDup_snoc (l : list string) k :
  NoDup l -> ~ In k l -> NoDup (l ++ [k]).
Proof.
  induction l as [|a l IH]; simpl; intros Hnd Hk.
  - constructor; [intros []|constructor].
  - inversion Hnd; subst. constructor.
    + intros Hin. apply in_app_or in Hin.
      destruct Hin as [Hin|[Hin|[]]]; [tauto|subst; tauto].
    + apply IH; tauto.
Qed.

Lemma framed_obj_set bk R k v : framed bk R -> framed bk (obj_set R k v).
Proof.
  intros (Ik & Tk & Hkeys & Hasc & Hnon & Hnd).
  unfold obj_set. destruct (has_key R k) eqn:Hk.
  - exists Ik, Tk. rewrite keys_replace_value. auto.
  - apply has_key_keys in Hk.
    destruct (array_index k) as [i|] eqn:Hi.
    + destruct (map_eq_app _ _ _ _ Hkeys) as (I & N & -> & HI & HN).
      destruct (@insert_index_ascending I N i k v) as (I' & E & A' & M' & _).
      * rewrite HI. assumption.
      * rewrite Forall_forall in *. intros kv Hin. apply Hnon. rewrite <- HN.
        apply in_map. assumption.
      * assumption.
      * intros Hin. apply Hk. rewrite map_app. apply in_or_app. left. assumption.
      * exists (map fst I'), Tk. rewrite E, map_app, HN. repeat split; auto.
        rewrite <- HN, <- map_app, <- E.
        apply NoDup_keys_insert_index; assumption.
    + exists Ik, (Tk ++ [k]). rewrite map_app, Hkeys. simpl.
      repeat split.
      * rewrite <- !app_assoc. reflexivity.
      * assumption.
      * rewrite app_assoc. apply Forall_app. split; [assumption|].
        constructor; [assumption|constructor].
      * rewrite <- Hkeys. apply NoDup_snoc; assumption.
Qed.

Lemma framed_base base :
  Forall (fun k => array_index k = None) (map fst base) ->
  NoDup (map fst base) ->
  framed (map fst base) base.
Proof.
  intros Hnon Hnd. exists [], []. rewrite app_nil_r. simpl.
  repeat split; auto.
Qed.

Lemma framed_set_all bk L : forall R, framed bk R -> framed bk (set_all L R).
Proof.
  induction L as [|[k v] L IH]; intros R H; simpl; [assumption|].
  apply IH. apply framed_obj_set. assumption.
Qed.

Lemma ascending_app_inv xs : forall k ys,
  ascending (xs ++ k :: ys) ->
  exists i, array_index k = Some i /\
            Forall (fun k' => exists j, array_index k' = Some j /\ (j < i)%nat) xs.
Proof.
  induction xs as [|x xs IH]; intros k ys H; simpl in H.
  - destruct H as [(i & Hi & _) _]. exists i. split; [assumption|constructor].
  - destruct H as [(j & Hj & Hall) Hasc].
    destruct (IH _ _ Hasc) as (i & Hi & Hlt). exists i. split; [assumption|].
    constructor; [|assumption].
    rewrite Forall_forall in Hall.
    destruct (Hall k) as (i' & Hi' & Hlt').
    { apply in_or_app. right. left. reflexivity. }
    rewrite Hi in Hi'. inversion Hi'; subst. exists j. auto.
Qed.

(** Index keys, set in ascending order, line up before the other keys. *)
Lemma set_all_index I : forall I0 N,
  ascending (map fst (I0 ++ I)) ->
  Forall (fun kv => array_index (fst kv) = None) N ->
  set_all I (I0 ++ N) = I0 ++ I ++ N.
Proof.
  induction I as [|[k v] I IH]; intros I0 N Hasc HN; [reflexivity|].
  simpl. rewrite map_app in Hasc. simpl in Hasc.
  destruct (ascending_app_inv _ _ _ Hasc) as (i & Hi & Hlt).
  assert (Hk0 : ~ In k (map fst I0)).
  { intros Hin. rewrite Forall_forall in Hlt.
    destruct (Hlt _ Hin) as (j & Hj & L). rewrite Hi in Hj.
    inversion Hj; subst. lia. }
  assert (Hk : has_key (I0 ++ N) k = false).
  { apply has_key_keys. rewrite map_app. intros Hin.
    apply in_app_or in Hin. destruct Hin as [Hin|Hin]; [tauto|].
    apply in_map_iff in Hin. destruct Hin as (kv & <- & Hkv).
    rewrite Forall_forall in HN. rewrite (HN _ Hkv) in Hi. discriminate. }
  unfold obj_set. rewrite Hk, Hi.
  destruct (@insert_index_ascending I0 N i k v) as (I' & E & _ & _ & P).
  - clear -Hasc. induction I0 as [|[k0 v0] I0 IH]; simpl in *; [constructor|].
    destruct Hasc as [(j & Hj & Hall) Hasc]. split; [|apply IH; assumption].
    exists j. split; [assumption|].
    rewrite Forall_forall in *. intros x Hx. apply Hall.
    apply in_or_app. left. assumption.
  - assumption.
  - assumption.
  - assumption.
  - rewrite E, (P Hlt). rewrite IH.
    + rewrite <- !app_assoc. reflexivity.
    + rewrite <- app_assoc. simpl. rewrite map_app. simpl. assumption.
    + assumption.
Qed.

(** The keys of the literal, set in the order they have, take their new
    values in place. *)
Lemma set_all_base B : forall P Bq,
  map fst B = map fst Bq ->
  NoDup (map fst Bq) ->
  (forall k, In k (map fst B) -> ~ In k (map fst P)) ->
  set_all B (P ++ Bq) = P ++ B.
Proof.
  induction B as [|[k v] B IH]; intros P Bq Hkeys Hnd Hdis.
  - destruct Bq; [reflexivity|discriminate].
  - destruct Bq as [|[k' v'] Bq]; [discriminate|].
    simpl in Hkeys. inversion Hkeys; subst k'. simpl in Hnd.
    inversion Hnd; subst.
    assert (HP : lookup P k = None).
    { apply lookup_none_keys. apply Hdis. left. reflexivity. }
    assert (E : obj_set (P ++ (k, v') :: Bq) k v = (P ++ [(k, v)]) ++ Bq).
    { unfold obj_set, has_key. rewrite lookup_app, HP. simpl.
      rewrite String.eqb_refl. rewrite <- app_assoc. simpl.
      clear -HP. induction P as [|[k0 y] P IHP]; simpl in *.
      - rewrite String.eqb_refl. reflexivity.
      - destruct (String.eqb k0 k); [discriminate|]. rewrite IHP by assumption.
        reflexivity. }
    simpl. rewrite E. rewrite IH; auto.
    + rewrite <- app_assoc. reflexivity.
    + intros x Hx. rewrite map_app. simpl. intros Hin.
      apply in_app_or in Hin. destruct Hin as [Hin|[<-|[]]].
      * apply (Hdis x); [right; assumption|assumption].
      * rewrite H1 in Hx. contradiction.
Qed.

(** New keys that are not indices are appended. *)
Lemma set_all_rest T : forall Q,
  Forall (fun kv => array_index (fst kv) = None) T ->
  NoDup (map fst T) ->
  (forall k, In k (map fst T) -> ~ In k (map fst Q)) ->
  set_all T Q = Q ++ T.
Proof.
  induction T as [|[k v] T IH]; intros Q Hnon Hnd Hdis; simpl.
  - rewrite app_nil_r. reflexivity.
  - inversion Hnon; subst. inversion Hnd; subst. simpl in *.
    assert (Hk : has_key Q k = false) by (apply has_key_keys; auto).
    unfold obj_set. rewrite Hk, H1. rewrite IH; auto.
    + rewrite <- app_assoc. reflexivity.
    + intros x Hx. rewrite map_app. simpl. intros Hin.
      apply in_app_or in Hin. destruct Hin as [Hin|[<-|[]]].
      * apply (Hdis x); auto.
      * contradiction.
Qed.

Lemma NoDup_app_parts (a b : list string) :
  NoDup (a ++ b) -> NoDup a /\ NoDup b /\ forall x, In x a -> ~ In x b.
Proof.
  induction a as [|x a IH]; simpl; intros H.
  - repeat split; [constructor|assumption|intros ? []].
  - inversion H; subst. destruct (IH H3) as (Ha & Hb & Hd).
    repeat split; try assumption.
    + constructor; [|assumption]. intros Hin. apply H2.
      apply in_or_app. left. assumption.
    + intros y [<-|Hy] Hin; [|exact (Hd _ Hy Hin)].
      apply H2. apply in_or_app. right. assumption.
Qed.

Lemma set_all_app L1 L2 base : set_all (L1 ++ L2) base = set_all L2 (set_all L1 base).
Proof. unfold set_all. apply fold_left_app. Qed.

(** Spreading an entry over the literal it was built from gives the entry
    back, keys in the same order. *)
Theorem set_all_framed base R :
  Forall (fun k => array_index k = None) (map fst base) ->
  NoDup (map fst base) ->
  framed (map fst base) R ->
  set_all R base = R.
Proof.
  intros Hnon Hndb (Ik & Tk & Hkeys & Hasc & HnonT & Hnd).
  destruct (map_eq_app _ _ _ _ Hkeys) as (I & BT & -> & HI & HBT).
  destruct (map_eq_app _ _ _ _ HBT) as (B & T & -> & HB & HT).
  rewrite Hkeys in Hnd.
  destruct (NoDup_app_parts _ _ Hnd) as (_ & HndBT & HdisI).
  destruct (NoDup_app_parts _ _ HndBT) as (_ & HndT & HdisB).
  rewrite !set_all_app.
  assert (E1 : set_all I base = I ++ base).
  { change base with ([] ++ base) at 1.
    rewrite set_all_index; [reflexivity| |].
    - simpl. rewrite HI. assumption.
    - rewrite Forall_forall in *. intros kv Hin. apply Hnon.
      apply in_map. assumption. }
  rewrite E1.
  rewrite set_all_base; [| |assumption|].
  - rewrite set_all_rest; [rewrite <- app_assoc; reflexivity| | |].
    + rewrite Forall_forall in *. intros kv Hin. apply HnonT.
      apply in_or_app. right. rewrite <- HT. apply in_map. assumption.
    + rewrite HT. assumption.
    + intros x Hx. rewrite map_app, HI, HB. rewrite HT in Hx. intros Hin.
      apply in_app_or in Hin. destruct Hin as [Hin|Hin].
      * apply (HdisI x Hin). apply in_or_app. right. assumption.
      * apply (HdisB x Hin). assumption.
  - assumption.
  - intros x Hx. rewrite HI. rewrite HB in Hx. intros Hin.
    apply (HdisI x Hin). apply in_or_app. left. assumption.
Qed.

(** ** The provider entry settles *)

Lemma ollama_entry_set_all u k ex :
  ollama_entry u k ex =
  VObj (set_all (own_props (if truthy ex then ex else VObj [])) (base_fields u k)).
Proof. reflexivity. Qed.

Lemma framed_entry u k L :
  framed (map fst (base_fields u k)) (set_all L (base_fields u k)).
Proof.
  apply framed_set_all. apply framed_base.
  - repeat constructor.
  - repeat constructor; simpl; intuition discriminate.
Qed.

Lemma set_all_entry u k R :
  framed (map fst (base_fields u k)) R -> set_all R (base_fields u k) = R.
Proof.
  apply set_all_framed.
  - repeat constructor.
  - repeat constructor; simpl; intuition discriminate.
Qed.

Lemma Forall_values_obj_set (P : value -> Prop) ss k x :
  Forall (fun kv => P (snd kv)) ss -> P x ->
  Forall (fun kv => P (snd kv)) (obj_set ss k x).
Proof.
  intros H Hx. unfold obj_set. destruct (has_key ss k).
  - induction ss as [|[k0 y] ss IH]; simpl; [constructor|].
    inversion H; subst. destruct (String.eqb k0 k); constructor; simpl; auto.
  - destruct (array_index k) as [i|].
    + induction ss as [|[k0 y] ss IH]; simpl.
      * constructor; [assumption|constructor].
      * inversion H; subst.
        destruct (array_index k0) as [j|]; [destruct (j <? i)%nat|];
          constructor; simpl; auto.
    + apply Forall_app. split; [assumption|]. constructor; [assumption|constructor].
Qed.

Lemma Forall_values_set_all (P : value -> Prop) L : forall base,
  Forall (fun kv => P (snd kv)) base ->
  Forall (fun kv => P (snd kv)) L ->
  Forall (fun kv => P (snd kv)) (set_all L base).
Proof.
  induction L as [|[k v] L IH]; intros base Hb HL; simpl; [assumption|].
  inversion HL; subst. apply IH; [|assumption].
  apply Forall_values_obj_set; assumption.
Qed.

Lemma written_as_is_json x : json x = true -> written_as_is x.
Proof. intros H. split; [apply to_json_json|apply json_defined]; assumption. Qed.

Lemma to_json_props_as_is ps :
  Forall (fun kv => written_as_is (snd kv)) ps -> to_json_props ps = ps.
Proof.
  induction ps as [|[k x] ps IH]; intros H; [reflexivity|].
  inversion H as [|? ? [Hx Hd] Hps]; subst. simpl in Hx, Hd.
  rewrite to_json_props_cons_defined by assumption.
  rewrite Hx, IH by assumption. reflexivity.
Qed.

Lemma written_as_is_obj ps :
  Forall (fun kv => written_as_is (snd kv)) ps -> written_as_is (VObj ps).
Proof.
  intros H. split; [|reflexivity]. rewrite to_json_obj.
  rewrite to_json_props_as_is by assumption. reflexivity.
Qed.

Lemma indexed_from_as_is es : forall i,
  Forall (fun e => json e = true) es ->
  Forall (fun kv => written_as_is (snd kv)) (indexed_from i es).
Proof.
  induction es as [|x es IH]; intros i H; simpl; [constructor|].
  inversion H; subst. destruct x; try discriminate;
    constructor; auto; apply written_as_is_json; assumption.
Qed.

Lemma chars_from_as_is s : forall i,
  Forall (fun kv => written_as_is (snd kv)) (chars_from i s).
Proof.
  induction s as [|c s IH]; intros i; simpl; constructor; auto.
  split; reflexivity.
Qed.

Lemma own_props_as_is v :
  json v = true -> Forall (fun kv => written_as_is (snd kv)) (own_props v).
Proof.
  intros Hj. destruct v; simpl; try constructor.
  - apply chars_from_as_is.
  - apply json_arr in Hj. destruct Hj as [-> Hes]. rewrite app_nil_r.
    apply indexed_from_as_is. assumption.
  - apply json_obj in Hj. eapply Forall_impl; [|exact Hj].
    intros kv H. apply written_as_is_json. assumption.
Qed.

Lemma entry_fields_as_is u k ex :
  found_in_json ex ->
  Forall (fun kv => written_as_is (snd kv))
         (set_all (own_props (if truthy ex then ex else VObj [])) (base_fields u k)).
Proof.
  intros Hex. apply Forall_values_set_all.
  - repeat constructor.
  - destruct (truthy ex) eqn:T; [|constructor].
    apply own_props_as_is. destruct Hex as [->|H]; [discriminate|assumption].
Qed.

Lemma entry_add_model_again m cw entry entry' :
  is_object entry = true ->
  entry_add_model m cw entry = Ok entry' ->
  entry_add_model m cw entry' = Ok entry'.
Proof.
  intros He E.
  destruct (@entry_add_model_cases m cw entry entry' E)
    as [(Hs & -> & named & F)|(Hs & ->)]; [exact E|].
  unfold entry_add_model. rewrite field_put_same by assumption.
  cbn [truthy plain_array modelExists].
  rewrite (@some_id_app_hit _ m _ (has_id_model_entry m cw) Hs). reflexivity.
Qed.

Lemma written_array_elems es named :
  written_as_is (VArr es named) -> map to_json es = es.
Proof. intros [H _]. rewrite to_json_arr in H. congruence. Qed.

Lemma model_entry_as_is m cw : to_json (model_entry m cw) = model_entry m cw.
Proof. reflexivity. Qed.

Lemma field_as_is ps k :
  Forall (fun kv => written_as_is (snd kv)) ps ->
  field (VObj ps) k = VUndef \/ written_as_is (field (VObj ps) k).
Proof.
  intros H. unfold field. simpl.
  induction ps as [|[k0 y] ps IH]; simpl; [left; reflexivity|].
  inversion H; subst. destruct (String.eqb k0 k); [right; assumption|auto].
Qed.

Lemma entry_add_model_fields m cw R entry' :
  Forall (fun kv => written_as_is (snd kv)) R ->
  entry_add_model m cw (VObj R) = Ok entry' ->
  exists R', entry' = VObj R' /\
             Forall (fun kv => written_as_is (snd kv)) R' /\
             (R' = R \/ exists arr, R' = obj_set R "models" arr).
Proof.
  intros HR E.
  destruct (@entry_add_model_cases m cw (VObj R) entry' E)
    as [(Hs & -> & _)|(Hs & ->)].
  - exists R. auto.
  - eexists. split; [reflexivity|]. split; [|right; eauto].
    apply Forall_values_obj_set; [assumption|].
    split; [|reflexivity].
    unfold plain_array. rewrite to_json_arr. f_equal.
    rewrite map_app. cbn [map]. rewrite model_entry_as_is. f_equal.
    destruct (field_as_is "models" HR) as [->|Hf]; [reflexivity|].
    destruct (field (VObj R) "models"); try reflexivity.
    simpl. eapply written_array_elems; eassumption.
Qed.

Theorem provider_step_settles e : settles (provider_step e).
Proof.
  intros c c1 Hc H. unfold provider_step in H.
  rewrite ollama_entry_set_all in H.
  set (u := text_of (OLLAMA_BASE_URL e)) in *.
  set (k := text_of (OLLAMA_API_KEY e)) in *.
  set (R := set_all (own_props (if truthy c then c else VObj [])) (base_fields u k)) in *.
  assert (HR : Forall (fun kv => written_as_is (snd kv)) R)
    by (apply entry_fields_as_is; assumption).
  assert (FR : framed (map fst (base_fields u k)) R) by apply framed_entry.
  assert (Hc1 : exists R1, c1 = VObj R1 /\
                           Forall (fun kv => written_as_is (snd kv)) R1 /\
                           framed (map fst (base_fields u k)) R1).
  { destruct (is_set (OLLAMA_MODEL e)).
    - destruct (entry_add_model_fields _ _ HR H) as (R1 & -> & H1 & [->|(arr & ->)]).
      + exists R. auto.
      + eexists. split; [reflexivity|]. split; [assumption|].
        apply framed_obj_set. assumption.
    - inversion H; subst. exists R. auto. }
  destruct Hc1 as (R1 & -> & H1 & F1).
  split; [reflexivity|]. exists (VObj R1).
  destruct (written_as_is_obj H1) as [J1 _]. rewrite J1.
  split; [|split; reflexivity].
  unfold provider_step. rewrite ollama_entry_set_all. fold u k.
  cbn [truthy own_props]. rewrite (set_all_entry F1).
  destruct (is_set (OLLAMA_MODEL e)); [|reflexivity].
  eapply entry_add_model_again; [|exact H]. reflexivity.
Qed.

(** ** The provisioned subtree settles *)

Lemma truthy_or_fresh_json v :
  found_in_json v -> json (if truthy v then v else VObj []) = true.
Proof.
  intros [->|H]; [reflexivity|]. destruct (truthy v); [assumption|reflexivity].
Qed.

Lemma run_one_step_settles k g c0 c1 :
  settles g -> json c0 = true -> is_object c0 = true ->
  (x <- g (field c0 k) ;; Ok (put c0 k x)) = Ok c1 ->
  is_object c1 = true /\
  exists c2, (x <- g (field (to_json c1) k) ;; Ok (put (to_json c1) k x)) = Ok c2 /\
             is_object c2 = true /\ to_json c2 = to_json c1.
Proof.
  intros Hg Hj Ho H.
  assert (Hrun : run_steps c0 [(k, g)] = Ok c1).
  { simpl. destruct (g (field c0 k)); exact H. }
  assert (Hall : Forall (fun s : string * (value -> result value) =>
                           settles (snd s)) [(k, g)])
    by (constructor; [exact Hg|constructor]).
  destruct (@run_steps_settles [(k, g)] c0 c1 eq_refl Hall Hj Ho Hrun)
    as (Hn & c2 & E2 & J2).
  pose proof (same_node_object Hn) as Ho1.
  split; [assumption|]. exists c2. split.
  - simpl in E2. destruct (g (field (to_json c1) k)); exact E2.
  - split; [|assumption].
    eapply same_node_object. eapply run_steps_same_node; [|exact E2].
    rewrite is_object_to_json. assumption.
Qed.

Theorem providers_step_settles e : settles (providers_step e).
Proof.
  intros p c1 Hp H. unfold providers_step in H.
  pose proof (truthy_or_fresh_json Hp) as Hj.
  destruct (is_object (if truthy p then p else VObj [])) eqn:Ho.
  - destruct (@run_one_step_settles "ollama" (provider_step e) _ c1
              (@provider_step_settles e) Hj Ho H)
      as (Ho1 & c2 & E2 & Ho2 & J2).
    split; [apply object_is_defined; assumption|].
    exists c2. split; [|split; [apply object_is_defined|]; assumption].
    unfold providers_step.
    rewrite object_truthy by (rewrite is_object_to_json; assumption).
    rewrite is_object_to_json, Ho1. exact E2.
  - destruct (is_set (OLLAMA_MODEL e)) eqn:M; [discriminate|].
    inversion H; subst c1; clear H.
    destruct (truthy p) eqn:T; [|discriminate].
    destruct Hp as [->|Hp]; [discriminate|].
    split; [apply json_defined; assumption|].
    exists p. rewrite (@to_json_json p Hp).
    split; [|split; [apply json_defined; assumption|reflexivity]].
    unfold providers_step. rewrite T, Ho, M. reflexivity.
Qed.

Theorem models_step_settles e : settles (models_step e).
Proof.
  intros mv c1 Hm H. unfold models_step in H.
  pose proof (truthy_or_fresh_json Hm) as Hj.
  destruct (is_object (if truthy mv then mv else VObj [])) eqn:Ho;
    [|discriminate].
  destruct (@run_one_step_settles "providers" (providers_step e) _ c1
              (@providers_step_settles e) Hj Ho H)
    as (Ho1 & c2 & E2 & Ho2 & J2).
  split; [apply object_is_defined; assumption|].
  exists c2. split; [|split; [apply object_is_defined|]; assumption].
  unfold models_step.
  rewrite object_truthy by (rewrite is_object_to_json; assumption).
  rewrite is_object_to_json, Ho1. exact E2.
Qed.

(** ** The agents subtree settles *)

Theorem model_step_settles e : settles (model_step e).
Proof.
  intros mm c1 Hmm H. unfold model_step in H. inversion H; subst c1; clear H.
  set (sel := selector (text_of (OLLAMA_MODEL e))).
  destruct (strict_eq_str (primary_of mm) sel) eqn:E.
  - assert (Hd : is_undefined mm = false).
    { destruct mm; try reflexivity. discriminate. }
    pose proof (found_in_json_defined Hmm Hd) as Hj.
    split; [assumption|]. exists mm. rewrite (@to_json_json mm Hj).
    unfold model_step. fold sel. rewrite E. auto.
  - split; [reflexivity|]. exists (selected (text_of (OLLAMA_MODEL e))).
    split; [|split; reflexivity].
    unfold model_step. fold sel.
    change (to_json (selected (text_of (OLLAMA_MODEL e))))
      with (selected (text_of (OLLAMA_MODEL e))).
    assert (P : primary_of (selected (text_of (OLLAMA_MODEL e))) = VStr sel)
      by reflexivity.
    rewrite P, strict_eq_str_refl. reflexivity.
Qed.

Theorem tools_step_settles : settles tools_step.
Proof. apply (@mergeWith_settles false tools_settings). reflexivity. Qed.

Theorem gateway_step_settles : settles gateway_step.
Proof. apply (@mergeWith_settles true gateway_settings). reflexivity. Qed.

Theorem defaults_step_settles e : settles (defaults_step e).
Proof.
  unfold defaults_step. apply settles_site.
  - unfold defaults_steps. destruct (selecting e); reflexivity.
  - unfold defaults_steps. destruct (selecting e).
    + constructor; [exact tools_step_settles|].
      constructor; [exact (@model_step_settles e)|constructor].
    + constructor; [exact tools_step_settles|constructor].
Qed.

Theorem agents_step_settles e : settles (agents_step e).
Proof.
  unfold agents_step. apply settles_site; [reflexivity|].
  constructor; [exact (@defaults_step_settles e)|constructor].
Qed.

(** ** The orchestrator as updates of [gateway], [agents] and [models] *)

Lemma replace_value_app ps qs k y :
  replace_value (ps ++ qs) k y =
  if has_key ps k then replace_value ps k y ++ qs
  else ps ++ replace_value qs k y.
Proof.
  unfold has_key. induction ps as [|[k0 v0] ps IH]; simpl; [reflexivity|].
  destruct (String.eqb k0 k); [reflexivity|].
  rewrite IH. destruct (lookup ps k); reflexivity.
Qed.

Lemma has_key_replace_value ps k y k' :
  has_key (replace_value ps k y) k' = has_key ps k'.
Proof.
  unfold has_key. induction ps as [|[k0 v0] ps IH]; simpl; [reflexivity|].
  destruct (String.eqb k0 k) eqn:E; simpl.
  - destruct (String.eqb k0 k'); reflexivity.
  - destruct (String.eqb k0 k'); [reflexivity|assumption].
Qed.

Lemma replace_value_comm ps k y k' x :
  k <> k' ->
  replace_value (replace_value ps k' x) k y
  = replace_value (replace_value ps k y) k' x.
Proof.
  intros Hne. induction ps as [|[k0 v0] ps IH]; simpl; [reflexivity|].
  destruct (String.eqb k0 k') eqn:E'; destruct (String.eqb k0 k) eqn:E; simpl;
    rewrite ?E, ?E'; try reflexivity.
  - apply String.eqb_eq in E. apply String.eqb_eq in E'. congruence.
  - rewrite IH. reflexivity.
Qed.

Lemma replace_value_insert_index ps i k' x k y :
  k <> k' ->
  replace_value (insert_index ps i k' x) k y
  = insert_index (replace_value ps k y) i k' x.
Proof.
  intros Hne. apply String.eqb_neq in Hne.
  assert (Hne' : String.eqb k' k = false)
    by (rewrite String.eqb_sym; assumption).
  induction ps as [|[k0 v0] ps IH]; simpl.
  - rewrite Hne'. reflexivity.
  - destruct (String.eqb k0 k) eqn:E; simpl;
      destruct (array_index k0) as [j|]; [destruct (j <? i)%nat| |destruct (j <? i)%nat|];
      simpl; rewrite ?E, ?Hne', ?IH; try reflexivity; simpl; rewrite ?E; reflexivity.
Qed.

Lemma replace_value_obj_set_other ps k y k' x :
  k <> k' ->
  replace_value (obj_set ps k' x) k y = obj_set (replace_value ps k y) k' x.
Proof.
  intros Hne. unfold obj_set. rewrite has_key_replace_value.
  destruct (has_key ps k') eqn:H.
  - apply replace_value_comm. assumption.
  - destruct (array_index k').
    + apply replace_value_insert_index. assumption.
    + rewrite replace_value_app. destruct (has_key ps k) eqn:Hk; [reflexivity|].
      simpl. assert (E : String.eqb k' k = false).
      { apply String.eqb_neq. congruence. }
      rewrite E. f_equal.
      unfold has_key in Hk. destruct (lookup ps k) eqn:L; [discriminate|].
      symmetry. apply replace_value_absent. assumption.
Qed.

Lemma wb_put_other t k a k' x y :
  is_object t = true -> k <> k' ->
  wb (put (put t k a) k' x) k y = put (put t k y) k' x.
Proof.
  intros Ht Hne. unfold wb.
  rewrite fields_put by (rewrite is_object_put; assumption).
  rewrite fields_put by assumption.
  rewrite replace_value_obj_set_other by assumption.
  rewrite replace_value_obj_set.
  unfold put at 3. rewrite fields_put by assumption.
  destruct t; try discriminate; reflexivity.
Qed.

Lemma primary_defined mm s :
  strict_eq_str (primary_of mm) s = true -> is_undefined mm = false.
Proof. destruct mm; try reflexivity. discriminate. Qed.

Lemma agents_step_form e c :
  exists a d1,
    mergeWith preserve_leaf (site c) agents_settings = Ok a /\
    a = put (site c) "defaults" d1 /\
    is_object d1 = true /\
    agents_step e c =
    Ok (if selecting e
        then if strict_eq_str (primary_of (field d1 "model"))
                              (selector (text_of (OLLAMA_MODEL e)))
             then a
             else put (site c) "defaults"
                      (put d1 "model" (selected (text_of (OLLAMA_MODEL e))))
        else a).
Proof.
  pose proof (site_object c) as Ha0.
  destruct (@mergeWith_plain_total preserve_leaf agents_settings std_preserve
              eq_refl (site c) Ha0) as (a & Ea & _).
  destruct (@agents_merge_form (site c) a Ha0 Ea) as (d1 & Ed & Nd & ->).
  destruct (@defaults_merge_form _ d1 (site_object _) Ed) as (tl & Etl & Ntl & ->).
  set (d0 := site (field (site c) "defaults")) in *.
  assert (Hd0 : is_object d0 = true) by apply site_object.
  exists (put (site c) "defaults" (put d0 "tools" tl)), (put d0 "tools" tl).
  split; [exact Ea|]. split; [reflexivity|].
  split; [rewrite is_object_put; assumption|].
  unfold agents_step. cbn [run_steps]. unfold defaults_step. fold d0.
  unfold defaults_steps. cbn [run_steps]. unfold tools_step at 1. rewrite Etl.
  cbn [bind].
  destruct (selecting e); cbn [run_steps bind]; [|reflexivity].
  unfold model_step. cbn [bind].
  destruct (strict_eq_str _ _) eqn:E; [|reflexivity].
  rewrite put_field_same;
    [reflexivity|rewrite is_object_put; assumption|].
  eapply primary_defined. exact E.
Qed.

Lemma provision_provide e c :
  is_set (OLLAMA_BASE_URL e) && is_set (OLLAMA_API_KEY e) = true ->
  provision e c =
  (p <- provide e c ;;
   c2 <- (if is_set (OLLAMA_MODEL e)
          then select_model (text_of (OLLAMA_MODEL e)) p else Ok p) ;;
   Ok (c2, OllamaConfigured)).
Proof.
  intros Hen. unfold provision, provide. rewrite Hen.
  destruct (configure_provider _ _ c); cbn [bind]; [|reflexivity].
  destruct (is_set (OLLAMA_MODEL e)); cbn [bind]; [|reflexivity].
  destruct (add_model _ _ _); reflexivity.
Qed.

(** The orchestrator applies one update to each of [gateway], [agents] and,
    when provisioning is enabled, [models]. *)
Theorem main_config_steps e f :
  is_object (load f) = true ->
  main_config e f =
  (r <- run_steps (load f) (root_steps e) ;; Ok (r, notice_of e)).
Proof.
  intros Ho. set (t := load f) in *.
  destruct (main_config_merged e f Ho) as (g & a & Ng & Eg & Na & Ea & ->).
  fold t in Eg, Ea, Ng, Na |- *.
  destruct (agents_step_form e (field t "agents"))
    as (a' & d1 & Ea' & Hform & Hd1 & Eagents).
  assert (Haa : a' = a) by congruence.
  revert Hform Eagents. rewrite Haa. intros Hform Eagents. clear Haa Ea'.
  unfold root_steps. cbn [run_steps]. unfold gateway_step at 1. rewrite Eg.
  cbn [bind]. rewrite field_put_other by (assumption || discriminate).
  rewrite Eagents. cbn [bind].
  assert (Hpa : is_object (put (put t "gateway" g) "agents" a) = true)
    by (rewrite !is_object_put; assumption).
  unfold notice_of, selecting in *.
  destruct (is_set (OLLAMA_BASE_URL e) && is_set (OLLAMA_API_KEY e)) eqn:Hen.
  - rewrite provision_provide by assumption.
    rewrite provide_form by assumption.
    rewrite !field_put_other by (rewrite ?is_object_put; assumption || discriminate).
    cbn [run_steps andb].
    destruct (is_set (OLLAMA_MODEL e)) eqn:Hm.
    + rewrite !field_put_other
        by (rewrite ?is_object_put; assumption || discriminate).
      destruct (models_step e (field t "models")) as [x|]; cbn [bind];
        [|reflexivity].
      assert (Fd : field a "defaults" = d1)
        by (rewrite Hform; apply field_put_same; apply site_object).
      assert (Wa : forall y, wb a "defaults" y
                             = put (site (field t "agents")) "defaults" y)
        by (intros y; rewrite Hform; apply wb_of_put; apply site_object).
      rewrite select_model_form.
      * rewrite field_put_other by (assumption || discriminate).
        rewrite field_put_same by (rewrite is_object_put; assumption).
        rewrite Fd.
        destruct (strict_eq_str _ _); cbn [bind]; [reflexivity|].
        rewrite wb_put_other by (rewrite ?is_object_put; assumption || discriminate).
        rewrite Wa. reflexivity.
      * rewrite is_object_put. assumption.
      * rewrite field_put_other by (assumption || discriminate).
        rewrite field_put_same by (rewrite is_object_put; assumption).
        eapply same_node_object. eassumption.
      * rewrite field_put_other by (assumption || discriminate).
        rewrite field_put_same by (rewrite is_object_put; assumption).
        rewrite Fd. assumption.
    + rewrite !field_put_other
        by (rewrite ?is_object_put; assumption || discriminate).
      destruct (models_step e (field t "models")) as [x|]; reflexivity.
  - cbn [run_steps bind andb]. unfold provision. rewrite Hen.
    destruct (is_set (OLLAMA_BASE_URL e) || is_set (OLLAMA_API_KEY e));
      reflexivity.
Qed.

(** ** Running the orchestrator twice *)

Lemma root_steps_distinct e : distinct (map fst (root_steps e)) = true.
Proof.
  unfold root_steps.
  destruct (is_set (OLLAMA_BASE_URL e) && is_set (OLLAMA_API_KEY e)); reflexivity.
Qed.

Lemma root_steps_settle e : Forall (fun s => settles (snd s)) (root_steps e).
Proof.
  unfold root_steps.
  constructor; [exact gateway_step_settles|].
  constructor; [exact (@agents_step_settles e)|].
  destruct (is_set (OLLAMA_BASE_URL e) && is_set (OLLAMA_API_KEY e));
    [|constructor].
  constructor; [exact (@models_step_settles e)|constructor].
Qed.

Lemma main_second_run e f c n :
  json_file f = true ->
  main_config e f = Ok (c, n) ->
  exists c2, main_config e (Document (to_json c)) = Ok (c2, n) /\
             to_json c2 = to_json c.
Proof.
  intros Hj H. pose proof (@main_config_object e f (c, n) H) as Ho.
  rewrite main_config_steps in H by assumption.
  destruct (run_steps (load f) (root_steps e)) as [r|] eqn:Hrun;
    cbn [bind] in H; [|discriminate].
  inversion H; subst r n; clear H.
  destruct (@run_steps_settles (root_steps e) (load f) c (root_steps_distinct e)
              (root_steps_settle e) (@json_load f Hj) Ho Hrun)
    as (Hn & c2 & E2 & J2).
  exists c2. split; [|assumption].
  rewrite main_config_steps.
  - simpl load. rewrite E2. reflexivity.
  - simpl load. rewrite is_object_to_json. eapply same_node_object. eassumption.
Qed.

(** C3.  For a configuration file that is absent, unreadable or a JSON
    document, running the script a second time with the same environment
    leaves the file exactly as the first run left it. *)
Theorem run_twice_same_document e f :
  json_file f = true ->
  disk (run e (disk (run e f))) = disk (run e f).
Proof.
  intros Hj. unfold run at 2 3. unfold main.
  destruct (main_config e f) as [[c n]|err] eqn:H; cbn [bind fst snd disk].
  - destruct (@main_second_run e f c n Hj H) as (c2 & E2 & J2).
    unfold run, main, save. rewrite E2. cbn [bind fst snd disk].
    rewrite J2. reflexivity.
  - unfold run, main. rewrite H. reflexivity.
Qed.

Lemma run_twice_same_document_witness :
  disk (run (env_with_window None)
            (disk (run (env_with_window None) (Document edited_doc))))
  = disk (run (env_with_window None) (Document edited_doc)) /\
  disk (run env_model_b (disk (run env_model_b (Document sequence_doc))))
  = disk (run env_model_b (Document sequence_doc)).
Proof.
  split.
  - apply (@run_twice_same_document (env_with_window None)
             (Document edited_doc)). reflexivity.
  - apply (@run_twice_same_document env_model_b (Document sequence_doc)).
    reflexivity.
Defined.

(** ** Provisioning again, in memory *)

Lemma provider_step_again e c c1 :
  provider_step e c = Ok c1 -> provider_step e c1 = Ok c1.
Proof.
  intros H. unfold provider_step in H. rewrite ollama_entry_set_all in H.
  set (u := text_of (OLLAMA_BASE_URL e)) in *.
  set (k := text_of (OLLAMA_API_KEY e)) in *.
  set (R := set_all (own_props (if truthy c then c else VObj [])) (base_fields u k)) in *.
  assert (FR : framed (map fst (base_fields u k)) R) by apply framed_entry.
  assert (Hc1 : exists R1, c1 = VObj R1 /\ framed (map fst (base_fields u k)) R1).
  { destruct (is_set (OLLAMA_MODEL e)).
    - destruct (@entry_add_model_cases _ _ (VObj R) c1 H)
        as [(_ & -> & _)|(_ & ->)].
      + exists R. auto.
      + eexists. split; [reflexivity|]. apply framed_obj_set. assumption.
    - inversion H; subst. exists R. auto. }
  destruct Hc1 as (R1 & -> & F1).
  unfold provider_step. rewrite ollama_entry_set_all. fold u k.
  cbn [truthy own_props]. rewrite (set_all_entry F1).
  destruct (is_set (OLLAMA_MODEL e)); [|reflexivity].
  eapply entry_add_model_again; [|exact H]. reflexivity.
Qed.

Lemma provider_step_object e c c1 :
  provider_step e c = Ok c1 -> is_object c1 = true.
Proof.
  unfold provider_step. destruct (is_set (OLLAMA_MODEL e)).
  - intros H. destruct (@entry_add_model_cases _ _ _ c1 H)
      as [(_ & -> & _)|(_ & ->)]; reflexivity.
  - intros [= <-]. reflexivity.
Qed.

Lemma providers_step_again e p c1 :
  providers_step e p = Ok c1 -> providers_step e c1 = Ok c1.
Proof.
  unfold providers_step at 1.
  destruct (is_object (if truthy p then p else VObj [])) eqn:Ho.
  - destruct (provider_step e _) as [x|] eqn:Ex; cbn [bind]; [|discriminate].
    intros [= <-]. unfold providers_step.
    rewrite object_truthy by (rewrite is_object_put; assumption).
    rewrite is_object_put, Ho. rewrite field_put_same by assumption.
    rewrite (provider_step_again _ _ Ex). cbn [bind]. rewrite put_put. reflexivity.
  - destruct (is_set (OLLAMA_MODEL e)) eqn:M; [discriminate|].
    intros [= <-]. destruct (truthy p) eqn:T; [|discriminate].
    unfold providers_step. rewrite T, Ho, M. reflexivity.
Qed.

Lemma providers_step_defined e p c1 :
  providers_step e p = Ok c1 -> truthy c1 = true.
Proof.
  unfold providers_step.
  destruct (is_object (if truthy p then p else VObj [])) eqn:Ho.
  - destruct (provider_step e _); cbn [bind]; [|discriminate].
    intros [= <-]. apply object_truthy. rewrite is_object_put. assumption.
  - destruct (is_set (OLLAMA_MODEL e)); [discriminate|].
    intros [= <-]. destruct (truthy p) eqn:T; [assumption|discriminate].
Qed.

Lemma models_step_again e mv c1 :
  models_step e mv = Ok c1 -> models_step e c1 = Ok c1.
Proof.
  unfold models_step at 1.
  destruct (is_object (if truthy mv then mv else VObj [])) eqn:Ho; [|discriminate].
  destruct (providers_step e _) as [x|] eqn:Ex; cbn [bind]; [|discriminate].
  intros [= <-]. unfold models_step.
  rewrite object_truthy by (rewrite is_object_put; assumption).
  rewrite is_object_put, Ho. rewrite field_put_same by assumption.
  rewrite (providers_step_again _ _ Ex). cbn [bind]. rewrite put_put. reflexivity.
Qed.

(** Lines 131-163, run on their own result, return it unchanged. *)
Lemma provide_again e c0 c1 :
  is_object c0 = true -> provide e c0 = Ok c1 -> provide e c1 = Ok c1.
Proof.
  intros Ho. rewrite provide_form by assumption.
  destruct (models_step e (field c0 "models")) as [x|] eqn:Ex; cbn [bind];
    [|discriminate].
  intros [= <-]. rewrite provide_form by (rewrite is_object_put; assumption).
  rewrite field_put_same by assumption.
  rewrite (models_step_again _ _ Ex). cbn [bind]. rewrite put_put. reflexivity.
Qed.

(** ** The provider entry is in place when the model is added *)

Lemma configure_provider_prim u k c0 :
  is_prim c0 = true -> configure_provider u k c0 = Throw TypeError.
Proof.
  intros Hp. unfold configure_provider, ensure_path.
  rewrite get_path_prim, get_path_nil by (assumption || reflexivity).
  cbn [bind truthy set_path]. rewrite set_prop_prim by assumption. cbn [bind].
  rewrite get_path_prim by (assumption || reflexivity). reflexivity.
Qed.

Lemma configure_provider_root_object u k c0 c :
  configure_provider u k c0 = Ok c -> is_object c0 = true.
Proof.
  intros H. destruct c0; try reflexivity; try discriminate H;
    rewrite configure_provider_prim in H by reflexivity; discriminate H.
Qed.

Lemma configure_provider_provide u k c0 :
  configure_provider u k c0 = provide (env_without_model u k) c0.
Proof.
  unfold provide. cbn [env_without_model OLLAMA_BASE_URL OLLAMA_API_KEY
                       OLLAMA_MODEL text_of is_set].
  destruct (configure_provider u k c0); reflexivity.
Qed.

Lemma provider_in_place u k m cw c0 c c' :
  configure_provider u k c0 = Ok c ->
  add_model m cw c = Ok c' ->
  exists entry, get_path c ollama_path = Ok entry /\ is_object entry = true.
Proof.
  intros Hc Hadd.
  pose proof (configure_provider_root_object _ _ _ Hc) as Ho.
  rewrite configure_provider_provide, provide_form in Hc by assumption.
  set (e := env_without_model u k) in *.
  destruct (models_step e (field c0 "models")) as [x|] eqn:Ex; cbn [bind] in Hc;
    [|discriminate].
  inversion Hc; subst c; clear Hc.
  unfold models_step in Ex.
  set (m0 := if truthy (field c0 "models") then field c0 "models" else VObj []) in *.
  destruct (is_object m0) eqn:Hm0; [|discriminate].
  destruct (providers_step e (field m0 "providers")) as [px|] eqn:Epx;
    cbn [bind] in Ex; [|discriminate].
  inversion Ex; subst x; clear Ex.
  assert (Hget : forall p,
             get_path (put c0 "models" (put m0 "providers" px))
                      ("models" :: "providers" :: p)
             = get_path px p).
  { intros p.
    rewrite get_path_cons by (rewrite ?is_object_put; assumption || reflexivity).
    rewrite field_put_same by assumption.
    rewrite get_path_cons by (rewrite ?is_object_put; assumption || reflexivity).
    rewrite field_put_same by assumption. reflexivity. }
  unfold providers_step in Epx.
  set (p0 := if truthy (field m0 "providers") then field m0 "providers"
             else VObj []) in *.
  destruct (is_object p0) eqn:Hp0.
  - destruct (provider_step e (field p0 "ollama")) as [entry|] eqn:Een;
      cbn [bind] in Epx; [|discriminate].
    inversion Epx; subst px; clear Epx.
    exists entry. split; [|eapply provider_step_object; eassumption].
    unfold ollama_path. rewrite Hget.
    rewrite get_path_cons by (rewrite ?is_object_put; assumption || reflexivity).
    rewrite field_put_same by assumption. reflexivity.
  - cbn [e env_without_model OLLAMA_MODEL is_set] in Epx.
    inversion Epx; subst px; clear Epx.
    exfalso. rewrite add_model_as_at in Hadd. unfold add_model_at, models_path in Hadd.
    rewrite Hget in Hadd.
    assert (Hprim : is_prim p0 = true).
    { destruct (truthy_or_fresh (field m0 "providers")) as [_ [H|H]];
        fold p0 in H; [congruence|assumption]. }
    rewrite get_path_prim in Hadd by (assumption || reflexivity).
    discriminate Hadd.
Qed.

(** C6.  Whatever the starting tree, once the provider is configured
    [add_model] appends the model definition exactly when no element of the
    provider's model sequence has that id; the elements that were there stay
    as they were, in their places; the number of elements with that id
    becomes one if it was zero and is unchanged otherwise; and running the
    provisioning again on the result, with the same id, returns it
    unchanged. *)
Theorem add_model_appends_once e c0 c c' :
  let m := text_of (OLLAMA_MODEL e) in
  let cw := contextWindow_of e in
  is_set (OLLAMA_MODEL e) = true ->
  configure_provider (text_of (OLLAMA_BASE_URL e)) (text_of (OLLAMA_API_KEY e)) c0
    = Ok c ->
  add_model m cw c = Ok c' ->
  exists entry entry',
    get_path c ollama_path = Ok entry /\
    get_path c' ollama_path = Ok entry' /\
    let es := sequence_of (field entry "models") in
    let es' := sequence_of (field entry' "models") in
    ((some_id es m = Ok true /\ es' = es) \/
     (some_id es m = Ok false /\ es' = es ++ [model_entry m cw])) /\
    count_id m es' = Nat.max 1 (count_id m es) /\
    add_model m cw c' = Ok c' /\
    provide e c' = Ok c'.
Proof.
  intros m cw Hm Hconf Hadd.
  destruct (@provider_in_place _ _ m cw c0 c c' Hconf Hadd) as (entry & Hget & He).
  assert (Hprov : provide e c' = Ok c').
  { apply (@provide_again e c0 c').
    - eapply configure_provider_root_object. eassumption.
    - unfold provide. rewrite Hconf. cbn [bind]. rewrite Hm. exact Hadd. }
  destruct (@reach_entry c entry Hget He) as (Hc & Hmo & Hp & Eentry).
  rewrite (@add_model_reach m cw c entry Hget He) in Hadd.
  destruct (entry_add_model m cw entry) as [entry'|] eqn:E;
    cbn [bind] in Hadd; [|discriminate].
  inversion Hadd; subst c'; clear Hadd.
  assert (Ho : field (field (field c "models") "providers") "ollama" <> VUndef).
  { rewrite <- Eentry. apply object_defined. assumption. }
  assert (Hget' : get_path
                    (wb c "models"
                       (wb (field c "models") "providers"
                          (wb (field (field c "models") "providers") "ollama" entry')))
                    ollama_path = Ok entry')
    by (apply get_path_after_wb; assumption).
  exists entry, entry'. split; [exact Hget|]. split; [exact Hget'|].
  assert (He' : is_object entry' = true).
  { destruct (@entry_add_model_cases m cw entry entry' E) as [(_ & -> & _)|(_ & ->)];
      [assumption|rewrite is_object_put; assumption]. }
  pose proof (@entry_add_model_again m cw entry entry' He E) as Hsec.
  assert (Hcases : (some_id (sequence_of (field entry "models")) m = Ok true /\
                    sequence_of (field entry' "models")
                    = sequence_of (field entry "models")) \/
                   (some_id (sequence_of (field entry "models")) m = Ok false /\
                    sequence_of (field entry' "models")
                    = sequence_of (field entry "models") ++ [model_entry m cw])).
  { destruct (@entry_add_model_cases m cw entry entry' E)
      as [(Hs & -> & named & F)|(Hs & ->)].
    - left. auto.
    - right. rewrite field_put_same by assumption. auto. }
  cbv zeta. split; [exact Hcases|]. split; [|split; [|exact Hprov]].
  - unfold count_id. destruct Hcases as [[Hs ->]|[Hs ->]].
    + apply some_id_true in Hs.
      destruct (filter (has_id m) (sequence_of (field entry "models"))) eqn:Fi;
        [|simpl; lia].
      exfalso. apply existsb_exists in Hs. destruct Hs as (x & Hin & Hx).
      assert (Hf : In x (filter (has_id m) (sequence_of (field entry "models"))))
        by (apply filter_In; auto).
      rewrite Fi in Hf. contradiction.
    + rewrite filter_app, (@some_id_false _ m Hs). simpl.
      rewrite has_id_model_entry. reflexivity.
  - rewrite (@add_model_reach m cw _ entry' Hget' He'). rewrite Hsec. cbn [bind].
    f_equal.
    rewrite field_wb_same by auto using object_defined.
    rewrite field_wb_same by auto using object_defined.
    rewrite !wb_wb. reflexivity.
Qed.

Lemma add_model_appends_once_witness :
  exists c c' entry',
    configure_provider "http://172.17.0.1:11434/v1" "ollama-local" listed_doc = Ok c /\
    add_model "modelB" 32768 c = Ok c' /\
    get_path c' ollama_path = Ok entry' /\
    sequence_of (field entry' "models")
      = [VObj [("id", VStr "a")]; model_entry "modelB" 32768] /\
    count_id "modelB" (sequence_of (field entry' "models")) = 1%nat /\
    provide env_model_b c' = Ok c'.
Proof.
  destruct (configure_provider "http://172.17.0.1:11434/v1" "ollama-local"
              listed_doc) as [c|] eqn:Ec; [|vm_compute in Ec; discriminate].
  destruct (add_model "modelB" 32768 c) as [c'|] eqn:Ea;
    [|vm_compute in Ec; inversion Ec; subst c; vm_compute in Ea; discriminate].
  destruct (@add_model_appends_once env_model_b listed_doc c c' eq_refl Ec Ea)
    as (entry & entry' & Hget & Hget' & Hcases & Hcount & _ & Hprov).
  exists c, c', entry'.
  split; [first [reflexivity|assumption]|].
  split; [first [reflexivity|assumption]|].
  split; [exact Hget'|].
  assert (Hentry : sequence_of (field entry "models") = [VObj [("id", VStr "a")]]).
  { vm_compute in Ec. inversion Ec; subst c. vm_compute in Hget.
    inversion Hget; subst entry. reflexivity. }
  cbv zeta in Hcases, Hcount. rewrite Hentry in Hcases, Hcount.
  destruct Hcases as [[Hs _]|[_ Hes]]; [vm_compute in Hs; discriminate|].
  split; [exact Hes|]. split; [|exact Hprov].
  cbn [text_of OLLAMA_MODEL env_model_b] in Hes. rewrite Hes. reflexivity.
Defined.



(** * Further properties of the merges and of the run *)

Lemma lookup_In (ps : props) k x : lookup ps k = Some x -> In (k, x) ps.
Proof.
  induction ps as [|[k' x'] ps IH]; simpl; [discriminate|].
  destruct (String.eqb k' k) eqn:E.
  - intros [= <-]. apply String.eqb_eq in E. subst. now left.
  - intros H. right. auto.
Qed.

Lemma open_path_fresh p : open_path (VObj []) p = true.
Proof. destruct p as [|k [|k' rest]]; reflexivity. Qed.

Lemma own_path_fresh p : p <> [] -> own_path (VObj []) p = None.
Proof. destruct p; [congruence|reflexivity]. Qed.

Lemma own_path_not_object c p :
  p <> [] -> (forall ps, c <> VObj ps) -> own_path c p = None.
Proof.
  destruct p; [congruence|]. intros _ H.
  destruct c; try reflexivity. exfalso. eapply H. reflexivity.
Qed.

Lemma plain_leaf_json p : forall s v,
  plain_source s = true -> own_path s p = Some v -> is_mapping v = false ->
  json v = true.
Proof.
  induction p as [|k rest IH]; intros s v Hs Hp Hv.
  - simpl in Hp. injection Hp as <-.
    destruct (plain_source_is_obj _ Hs) as [qs ->]. discriminate Hv.
  - destruct (plain_source_is_obj _ Hs) as [qs ->].
    apply plain_source_obj in Hs. destruct Hs as [_ Hall].
    simpl in Hp. destruct (lookup qs k) as [sk|] eqn:L; [|discriminate].
    apply lookup_In in L. rewrite Forall_forall in Hall.
    destruct (Hall _ L) as [_ Hsk]. simpl in Hsk.
    destruct (is_mapping sk) eqn:M.
    + eapply IH; eassumption.
    + destruct rest.
      * simpl in Hp. injection Hp as <-. exact Hsk.
      * destruct sk; try discriminate Hp. discriminate M.
Qed.

Lemma open_path_site t k k' rest :
  open_path t (k :: k' :: rest) = true ->
  exists cs, site (field t k) = VObj cs /\
             open_path (VObj cs) (k' :: rest) = true /\
             (forall ps, t = VObj ps ->
                own_path t (k :: k' :: rest) = own_path (VObj cs) (k' :: rest)).
Proof.
  intros Hopen. cbn [open_path] in Hopen.
  assert (Hown : forall ps, t = VObj ps ->
            own_path t (k :: k' :: rest) =
            match lookup ps k with
            | Some c => own_path c (k' :: rest) | None => None end).
  { intros ps ->. reflexivity. }
  assert (Hf : forall ps, t = VObj ps ->
            field t k = match lookup ps k with Some c => c | None => VUndef end).
  { intros ps ->. reflexivity. }
  destruct (field t k) as [| |b|z|s0|es named|cs] eqn:F;
    try (exists []; split;
         [unfold site, needs_fresh; simpl; rewrite ?orb_true_r; reflexivity|];
         split; [apply open_path_fresh|];
         intros ps Ht; rewrite (Hown _ Ht); specialize (Hf _ Ht);
         rewrite own_path_fresh by discriminate;
         destruct (lookup ps k) as [c|]; [|reflexivity];
         subst c; reflexivity).
  - discriminate Hopen.
  - exists cs. split; [reflexivity|]. split; [exact Hopen|].
    intros ps0 Ht. rewrite (Hown _ Ht). specialize (Hf _ Ht).
    destruct (lookup ps0 k) as [c|]; [|discriminate Hf]. subst c. reflexivity.
Qed.

Lemma mergeWith_leaf_at force p : forall s ps r v,
  plain_source s = true ->
  mergeWith (leaf_of force) (VObj ps) s = Ok r ->
  open_path (VObj ps) p = true ->
  own_path s p = Some v ->
  is_mapping v = false ->
  own_path r p = Some (merged_leaf force (own_path (VObj ps) p) v).
Proof.
  induction p as [|k rest IH]; intros s ps r v Hs Hrun Hopen Hp Hv.
  - simpl in Hp. injection Hp as <-.
    destruct (plain_source_is_obj _ Hs) as [qs ->]. discriminate Hv.
  - destruct (plain_source_is_obj _ Hs) as [qs ->].
    pose proof (plain_source_obj _ Hs) as [Hd Hall].
    rewrite mergeWith_obj in Hrun.
    rewrite merge_props_run_steps in Hrun; [|reflexivity|].
    2:{ eapply Forall_impl; [|exact Hall]. intros a [Ha _]. exact Ha. }
    assert (Hkeys : map fst (merge_steps force qs) = map fst qs).
    { unfold merge_steps. rewrite map_map. reflexivity. }
    pose proof (run_steps_same_node _ (VObj ps) eq_refl Hrun) as [_ Hr].
    simpl in Hr.
    destruct (@run_steps_values _ (VObj ps) r eq_refl
                ltac:(rewrite Hkeys; exact Hd) Hrun) as [Hval _].
    simpl in Hp. destruct (lookup qs k) as [sk|] eqn:L; [|discriminate].
    apply lookup_In in L.
    destruct (Hval k (merge_child force sk)) as [x [Hx Lx]].
    { unfold merge_steps. apply in_map_iff. exists (k, sk). auto. }
    assert (E : own_path r (k :: rest) = own_path x rest).
    { rewrite Hr. simpl. rewrite Lx. reflexivity. }
    rewrite E. clear E.
    unfold merge_child in Hx.
    destruct rest as [|k' rest].
    + simpl in Hp. injection Hp as ->. rewrite Hv in Hx.
      injection Hx as <-. simpl.
      unfold field. simpl. unfold merged_leaf.
      destruct force; [reflexivity|].
      destruct (lookup ps k) as [c|]; reflexivity.
    + assert (Hsk : exists qs', sk = VObj qs').
      { destruct sk; try discriminate Hp. eauto. }
      destruct Hsk as [qs' ->]. change (is_mapping (VObj qs')) with true in Hx.
      cbv iota in Hx.
      rewrite Forall_forall in Hall. destruct (Hall _ L) as [_ Hsk].
      cbn [snd] in Hsk. change (is_mapping (VObj qs')) with true in Hsk.
      cbv iota in Hsk.
      destruct (open_path_site _ _ _ _ Hopen) as [cs [S [Ho Hown]]].
      rewrite S in Hx.
      rewrite (IH _ _ _ _ Hsk Hx Ho Hp Hv).
      rewrite (Hown _ eq_refl). reflexivity.
Qed.

(** ** What the two merges leave at the leaves of their source *)





(** X3.  [forceMerge] changes nothing but what its source names: the value
    at a path of the target whose last key does not appear in the source,
    at any depth, is the same after the merge. *)
Theorem forceMerge_leaves_unnamed_paths t s r p v :
  forceMerge t s = Ok r ->
  spared s p = true ->
  own_path t p = Some v ->
  own_path r p = Some v.
Proof.
  intros Hrun Hsp Hown.
  exact (@mergeWith_spared _ force_leaf_frame p s t r v Hrun Hsp Hown).
Qed.

Lemma forceMerge_leaves_unnamed_paths_witness :
  exists r,
    forceMerge remote_doc gatewayDefaults = Ok r /\
    own_path r ["gateway"; "port"] = Some (VNum 18789) /\
    own_path r ["theme"] = Some (VStr "dark").
Proof.
  destruct (forceMerge remote_doc gatewayDefaults) as [r|] eqn:Hrun;
    [|vm_compute in Hrun; discriminate].
  exists r. split; [reflexivity|]. split.
  - apply (@forceMerge_leaves_unnamed_paths _ _ r ["gateway"; "port"] _ Hrun);
      reflexivity.
  - apply (@forceMerge_leaves_unnamed_paths _ _ r ["theme"] _ Hrun);
      reflexivity.
Defined.

(** ** The defaults in the written document *)

Lemma own_path_json p : forall t x,
  json t = true -> own_path t p = Some x -> json x = true.
Proof.
  induction p as [|k rest IH]; intros t x Ht Hp.
  - simpl in Hp. injection Hp as <-. exact Ht.
  - destruct t as [| |b|z|s0|es named|ps]; try discriminate Hp. simpl in Hp.
    destruct (lookup ps k) as [c|] eqn:L; [|discriminate].
    eapply IH; [|exact Hp]. eapply json_lookup; eassumption.
Qed.

Lemma own_path_head (ps : props) k rest x :
  lookup ps k = Some x -> own_path (VObj ps) (k :: rest) = own_path x rest.
Proof. intros L. simpl. rewrite L. reflexivity. Qed.

Lemma own_path_single k0 c k rest v :
  own_path (VObj [(k0, c)]) (k :: rest) = Some v ->
  k = k0 /\ own_path c rest = Some v.
Proof.
  cbn [own_path lookup]. destruct (String.eqb k0 k) eqn:E; [|discriminate].
  apply String.eqb_eq in E. auto.
Qed.

Lemma run_steps_at steps t t1 k g :
  is_object t = true ->
  distinct (map fst steps) = true ->
  run_steps t steps = Ok t1 ->
  In (k, g) steps ->
  exists x, g (field t k) = Ok x /\ lookup (fields t1) k = Some x.
Proof.
  intros Ht Hd Hrun Hin.
  destruct (@run_steps_values steps t t1 Ht Hd Hrun) as [Hval _]. auto.
Qed.

Lemma run_steps_from_object steps ps t1 :
  run_steps (VObj ps) steps = Ok t1 -> t1 = VObj (fields t1).
Proof.
  intros Hrun.
  destruct (@run_steps_same_node steps (VObj ps) t1 eq_refl Hrun) as [_ Hr]. exact Hr.
Qed.

Lemma main_config_root e f ps c n :
  load f = VObj ps -> main_config e f = Ok (c, n) ->
  run_steps (VObj ps) (root_steps e) = Ok c /\ c = VObj (fields c).
Proof.
  intros Hl Hrun. rewrite main_config_steps in Hrun by (rewrite Hl; reflexivity).
  rewrite Hl in Hrun.
  destruct (run_steps (VObj ps) (root_steps e)) as [r|] eqn:R;
    [|discriminate Hrun].
  simpl in Hrun. injection Hrun as <- _. split; [reflexivity|].
  eapply run_steps_from_object. exact R.
Qed.

(** X4.  The required gateway settings are in the document a run writes:
    when the document read has an object at its root and the run gets as far
    as writing, every scalar of [gatewayDefaults] is found at its path in
    the file, whatever the document held there, as long as no sequence of
    the document stands on the way to it. *)
Theorem required_gateway_settings_written e f ps c n p v :
  load f = VObj ps ->
  main_config e f = Ok (c, n) ->
  own_path gatewayDefaults p = Some v ->
  is_mapping v = false ->
  open_path (load f) p = true ->
  own_path (doc_of (disk (run e f))) p = Some v.
Proof.
  intros Hl Hrun Hp Hv Ho.
  rewrite (run_of_main_config _ _ Hrun). cbn [doc_of].
  destruct (main_config_root _ _ Hl Hrun) as [R Hc].
  destruct (@run_steps_at (root_steps e) (VObj ps) c "gateway" gateway_step
              eq_refl (root_steps_distinct e) R ltac:(now left))
    as [x [Hx Lx]].
  pose proof (plain_leaf_json p gatewayDefaults eq_refl Hp Hv) as Hj.
  destruct p as [|k rest];
    [simpl in Hp; injection Hp as <-; discriminate Hv|].
  destruct (@own_path_single "gateway" gateway_settings k rest v Hp)
    as [Hk Hp'].
  destruct rest as [|k' rest].
  - simpl in Hp'. injection Hp' as <-. discriminate Hv.
  - subst k. rewrite Hl in Ho.
    destruct (open_path_site _ _ _ _ Ho) as [cs [S [Ho' _]]].
    unfold gateway_step in Hx. rewrite S in Hx.
    pose proof (@mergeWith_leaf_at true (k' :: rest) gateway_settings cs x v
                  eq_refl Hx Ho' Hp' Hv) as Hleaf.
    cbn [merged_leaf] in Hleaf.
    rewrite <- (to_json_json _ Hj).
    apply own_path_to_json; [|apply json_defined; exact Hj].
    rewrite Hc.
    rewrite (@own_path_head (fields c) "gateway" (k' :: rest) x Lx).
    exact Hleaf.
Qed.

Lemma required_gateway_settings_written_witness :
  own_path (doc_of (disk (run env_model_b (Document remote_doc))))
           ["gateway"; "auth"; "mode"] = Some (VStr "token").
Proof.
  destruct (main_config env_model_b (Document remote_doc))
    as [[c n]|] eqn:Hrun; [|vm_compute in Hrun; discriminate].
  apply (@required_gateway_settings_written env_model_b (Document remote_doc)
           _ c n _ _ eq_refl Hrun); reflexivity.
Defined.

Lemma defaults_steps_distinct e : distinct (map fst (defaults_steps e)) = true.
Proof. unfold defaults_steps. destruct (selecting e); reflexivity. Qed.

(** X5.  The agent defaults fill the written document without overriding
    it: when the document read is JSON with an object at its root and the
    run gets as far as writing, the file holds at the path of every scalar
    and sequence of [agentDefaults] the value the document had there, and
    the default where it had none, as long as no sequence of the document
    stands on the way to it. *)
Theorem agent_defaults_fill_document e f ps c n p v :
  json_file f = true ->
  load f = VObj ps ->
  main_config e f = Ok (c, n) ->
  own_path agentDefaults p = Some v ->
  is_mapping v = false ->
  open_path (load f) p = true ->
  own_path (doc_of (disk (run e f))) p =
  Some (match own_path (load f) p with Some x => x | None => v end).
Proof.
  intros Hjf Hl Hrun Hp Hv Ho.
  rewrite (run_of_main_config _ _ Hrun). cbn [doc_of].
  destruct (main_config_root _ _ Hl Hrun) as [R Hc].
  pose proof (plain_leaf_json p agentDefaults eq_refl Hp Hv) as Hj.
  pose proof (json_load _ Hjf) as Hjl.
  assert (Hval : own_path c p =
                 Some (merged_leaf false (own_path (load f) p) v)).
  { rewrite Hl in Ho |- *.
    destruct p as [|k r1];
      [simpl in Hp; injection Hp as <-; discriminate Hv|].
    destruct (@own_path_single "agents" agents_settings k r1 v Hp) as [-> Hp1].
    destruct r1 as [|k1 r2];
      [simpl in Hp1; injection Hp1 as <-; discriminate Hv|].
    destruct (@own_path_single "defaults" defaults_settings k1 r2 v Hp1)
      as [-> Hp2].
    destruct r2 as [|k2 r3];
      [simpl in Hp2; injection Hp2 as <-; discriminate Hv|].
    destruct (@own_path_single "tools" tools_settings k2 r3 v Hp2)
      as [-> Hp3].
    destruct r3 as [|k3 r4];
      [simpl in Hp3; injection Hp3 as <-; discriminate Hv|].
    destruct (open_path_site _ _ _ _ Ho) as [as_ [S1 [Ho1 E1]]].
    destruct (open_path_site _ _ _ _ Ho1) as [ds [S2 [Ho2 E2]]].
    destruct (open_path_site _ _ _ _ Ho2) as [ts [S3 [Ho3 E3]]].
    rewrite (E1 _ eq_refl), (E2 _ eq_refl), (E3 _ eq_refl).
    destruct (@run_steps_at (root_steps e) (VObj ps) c "agents" (agents_step e)
                eq_refl (root_steps_distinct e) R ltac:(right; now left))
      as [a' [Ha La]].
    unfold agents_step in Ha. rewrite S1 in Ha.
    pose proof (@run_steps_from_object _ _ _ Ha) as Hca.
    destruct (@run_steps_at [("defaults", defaults_step e)] (VObj as_) a'
                "defaults" (defaults_step e)
                eq_refl eq_refl Ha ltac:(now left)) as [d' [Hd Ld]].
    unfold defaults_step in Hd. rewrite S2 in Hd.
    pose proof (@run_steps_from_object _ _ _ Hd) as Hcd.
    destruct (@run_steps_at (defaults_steps e) (VObj ds) d' "tools" tools_step
                eq_refl (defaults_steps_distinct e) Hd ltac:(now left))
      as [tl [Ht Lt]].
    unfold tools_step in Ht. rewrite S3 in Ht.
    rewrite Hc, (@own_path_head (fields c) "agents" _ a' La).
    rewrite Hca, (@own_path_head (fields a') "defaults" _ d' Ld).
    rewrite Hcd, (@own_path_head (fields d') "tools" _ tl Lt).
    exact (@mergeWith_leaf_at false (k3 :: r4) tools_settings ts tl v
             eq_refl Ht Ho3 Hp3 Hv). }
  assert (Hres : merged_leaf false (own_path (load f) p) v =
                 match own_path (load f) p with Some x => x | None => v end
                 /\ json (merged_leaf false (own_path (load f) p) v) = true).
  { unfold merged_leaf. destruct (own_path (load f) p) as [x|] eqn:Hx.
    - pose proof (own_path_json _ _ Hjl Hx) as Hjx.
      rewrite (json_defined _ Hjx). auto.
    - auto. }
  destruct Hres as [Hres Hjr]. rewrite <- Hres.
  rewrite <- (to_json_json _ Hjr).
  apply own_path_to_json; [exact Hval|apply json_defined; exact Hjr].
Qed.

Lemma agent_defaults_fill_document_witness :
  own_path (doc_of (disk (run env_model_b (Document user_doc)))) allow_path
    = Some (plain_array [VStr "read"]) /\
  own_path (doc_of (disk (run env_model_b (Document user_doc))))
           ["agents"; "defaults"; "tools"; "exec"; "ask"]
    = Some (VStr "off").
Proof.
  destruct (main_config env_model_b (Document user_doc))
    as [[c n]|] eqn:Hrun; [|vm_compute in Hrun; discriminate].
  split.
  - apply (@agent_defaults_fill_document env_model_b (Document user_doc)
             _ c n allow_path (field tools_settings "allow")
             eq_refl eq_refl Hrun); reflexivity.
  - apply (@agent_defaults_fill_document env_model_b (Document user_doc)
             _ c n ["agents"; "defaults"; "tools"; "exec"; "ask"] (VStr "off")
             eq_refl eq_refl Hrun); reflexivity.
Defined.

(** ** First start, and documents the run cannot configure *)



(** X7.  A document whose root is not an object (null, a boolean, a number
    or a string) cannot be configured: with every environment the merge of
    the gateway settings throws, the exception is caught, the file is left
    as it was and the process exits with status 0. *)
Theorem scalar_document_left_alone e f :
  is_object (load f) = false ->
  run e f = aborted f.
Proof.
  intros Hl. unfold run, main.
  rewrite (main_config_nonobject e f Hl). reflexivity.
Qed.

Lemma scalar_document_left_alone_witness :
  run env_model_b (Document VNull) = aborted (Document VNull) /\
  run env_model_b (Document (VStr "{}")) = aborted (Document (VStr "{}")).
Proof.
  split.
  - apply (@scalar_document_left_alone env_model_b (Document VNull)).
    reflexivity.
  - apply (@scalar_document_left_alone env_model_b (Document (VStr "{}"))).
    reflexivity.
Defined.

Lemma run_steps_fields steps : forall t t',
  is_object t = true -> is_object t' = true -> fields t = fields t' ->
  run_steps t' steps =
  (r <- run_steps t steps ;; Ok (with_fields t' (fields r))).
Proof.
  induction steps as [|[k g] steps IH]; intros t t' Ht Ht' Hf.
  - simpl. destruct t'; try discriminate Ht'; simpl in *; rewrite Hf;
      reflexivity.
  - cbn [run_steps]. unfold field. rewrite Hf.
    destruct (g match lookup (fields t') k with Some x => x | None => VUndef end)
      as [x|err]; [|reflexivity].
    cbn [bind].
    rewrite (IH (put t k x) (put t' k x)).
    + destruct (run_steps (put t k x) steps) as [r|]; [|reflexivity].
      cbn [bind]. rewrite with_fields_put. reflexivity.
    + rewrite is_object_put. exact Ht.
    + rewrite is_object_put. exact Ht'.
    + rewrite !fields_put by assumption. rewrite Hf. reflexivity.
Qed.

Lemma root_steps_fresh e : exists r, run_steps (VObj []) (root_steps e) = Ok r.
Proof.
  unfold root_steps, agents_step, defaults_step, defaults_steps, selecting,
    models_step, providers_step, provider_step.
  destruct (is_set (OLLAMA_BASE_URL e)), (is_set (OLLAMA_API_KEY e)),
    (is_set (OLLAMA_MODEL e));
    generalize (contextWindow_of e) (text_of (OLLAMA_BASE_URL e))
               (text_of (OLLAMA_API_KEY e)) (text_of (OLLAMA_MODEL e));
    intros cw u k m; eexists; reflexivity.
Qed.

(** X8.  A document whose root is a sequence is never configured either,
    but silently: with every environment the run goes through, says what
    it says for an object, and writes the sequence back as it was.  The
    settings are assigned to the array as named properties, which the
    written JSON does not contain. *)
Theorem sequence_document_rewritten_unchanged e es named :
  json (VArr es named) = true ->
  run e (Document (VArr es named)) =
  {| disk := Document (VArr es named);
     said := Some (notice_of e);
     exit_status := 0 |}.
Proof.
  intros Hj. destruct (json_arr _ _ Hj) as [-> _].
  unfold run, main.
  rewrite main_config_steps by reflexivity. cbn [load].
  rewrite (@run_steps_fields (root_steps e) (VObj []) (VArr es [])
             eq_refl eq_refl eq_refl).
  destruct (root_steps_fresh e) as [r ->].
  cbn [bind with_fields fst snd save].
  unfold save.
  rewrite to_json_arr, <- (to_json_arr es []), (to_json_json _ Hj).
  reflexivity.
Qed.

Lemma sequence_document_rewritten_unchanged_witness :
  run env_model_b (Document (plain_array [VStr "lan"])) =
  {| disk := Document (plain_array [VStr "lan"]);
     said := Some OllamaConfigured;
     exit_status := 0 |}.
Proof.
  apply (@sequence_document_rewritten_unchanged env_model_b [VStr "lan"] []).
  reflexivity.
Defined.

Lemma gateway_step_total c : exists g, gateway_step c = Ok g.
Proof.
  destruct (@mergeWith_plain_total force_leaf gateway_settings
              (or_intror eq_refl) eq_refl (site c) (site_object c))
    as [g [Hg _]].
  exists g. exact Hg.
Qed.

Lemma tools_step_total c : exists tl, tools_step c = Ok tl.
Proof.
  destruct (@mergeWith_plain_total preserve_leaf tools_settings
              (or_introl eq_refl) eq_refl (site c) (site_object c))
    as [tl [Ht _]].
  exists tl. exact Ht.
Qed.

Lemma defaults_step_total e d : exists d', defaults_step e d = Ok d'.
Proof.
  unfold defaults_step, defaults_steps. cbn [run_steps].
  destruct (tools_step_total (field (site d) "tools")) as [tl ->].
  cbn [bind]. destruct (selecting e); cbn [run_steps model_step bind];
    eexists; reflexivity.
Qed.

Lemma agents_step_total e a : exists a', agents_step e a = Ok a'.
Proof.
  unfold agents_step. cbn [run_steps].
  destruct (defaults_step_total e (field (site a) "defaults")) as [d' ->].
  cbn [bind]. eexists; reflexivity.
Qed.

(** The two merges of a run, as steps on the root. *)
Lemma root_steps_merges e t :
  is_object t = true ->
  exists g a,
    is_object (put (put t "gateway" g) "agents" a) = true /\
    field (put (put t "gateway" g) "agents" a) "models" = field t "models" /\
    run_steps t (root_steps e) =
    run_steps (put (put t "gateway" g) "agents" a)
      (if is_set (OLLAMA_BASE_URL e) && is_set (OLLAMA_API_KEY e)
       then [("models", models_step e)] else []).
Proof.
  intros Ht. unfold root_steps. cbn [run_steps].
  destruct (gateway_step_total (field t "gateway")) as [g Hg].
  destruct (agents_step_total e (field (put t "gateway" g) "agents"))
    as [a Ha].
  exists g, a. rewrite Hg. cbn [bind]. rewrite Ha. cbn [bind].
  rewrite !is_object_put.
  rewrite !field_put_other by (try rewrite is_object_put; try assumption;
                               discriminate).
  auto.
Qed.



(** X10.  With Ollama enabled, a document whose [models] is a number, a
    string or [true] stops the run: the assignment of [models.providers] to
    a primitive is ignored, the next property access throws, the exception
    is caught and the file is left as it was. *)
Theorem provisioning_aborts_on_scalar_models e f :
  is_set (OLLAMA_BASE_URL e) && is_set (OLLAMA_API_KEY e) = true ->
  is_object (load f) = true ->
  truthy (field (load f) "models") = true ->
  is_object (field (load f) "models") = false ->
  run e f = aborted f.
Proof.
  intros He Hl Ht Hm. unfold run, main.
  rewrite main_config_steps by exact Hl.
  destruct (@root_steps_merges e (load f) Hl) as (g & a & Ho & Hf & ->).
  rewrite He. cbn [run_steps]. rewrite Hf.
  unfold models_step. rewrite Ht, Hm. reflexivity.
Qed.

Lemma provisioning_aborts_on_scalar_models_witness :
  run env_model_b (Document (VObj [("models", VStr "ollama")])) =
  aborted (Document (VObj [("models", VStr "ollama")])).
Proof.
  apply (@provisioning_aborts_on_scalar_models env_model_b
           (Document (VObj [("models", VStr "ollama")]))); reflexivity.
Defined.

(** ** What a run leaves alone *)

Lemma own_path_object c k rest v :
  own_path c (k :: rest) = Some v -> exists ps, c = VObj ps.
Proof. destruct c; try discriminate. eauto. Qed.

Lemma own_path_set_other ps k y k' rest :
  k <> k' ->
  own_path (VObj (obj_set ps k y)) (k' :: rest) = own_path (VObj ps) (k' :: rest).
Proof.
  intros Hk. cbn [own_path].
  rewrite lookup_obj_set_other by exact Hk. reflexivity.
Qed.

Lemma own_path_set_same ps k y rest :
  own_path (VObj (obj_set ps k y)) (k :: rest) = own_path y rest.
Proof. cbn [own_path]. rewrite lookup_obj_set_same. reflexivity. Qed.

Lemma spared_single k0 s k rest :
  spared (VObj [(k0, s)]) (k :: rest) = true ->
  k <> k0 \/ (k = k0 /\ spared s rest = true).
Proof.
  cbn [spared forallb fst snd]. rewrite andb_true_r.
  destruct (String.eqb k0 k) eqn:E.
  - apply String.eqb_eq in E. subst. simpl. intros H.
    apply andb_true_iff in H. right. split; [reflexivity|apply H].
  - apply String.eqb_neq in E. left. congruence.
Qed.

(** A path through an object survives a sequence of steps when the step
    at its first key, if there is one, keeps the rest of the path. *)
Lemma run_steps_own_path steps ps t1 k rest x :
  distinct (map fst steps) = true ->
  run_steps (VObj ps) steps = Ok t1 ->
  own_path (VObj ps) (k :: rest) = Some x ->
  (forall g c c', In (k, g) steps -> lookup ps k = Some c ->
                  own_path c rest = Some x -> g c = Ok c' ->
                  own_path c' rest = Some x) ->
  own_path t1 (k :: rest) = Some x.
Proof.
  intros Hd Hrun Hp Hstep.
  destruct (@run_steps_values steps (VObj ps) t1 eq_refl Hd Hrun)
    as [Hval Hframe].
  rewrite (@run_steps_from_object _ _ _ Hrun).
  cbn [own_path] in Hp |- *.
  destruct (lookup ps k) as [c|] eqn:L; [|discriminate Hp].
  destruct (in_dec string_dec k (map fst steps)) as [Hin|Hnin].
  - apply in_map_iff in Hin. destruct Hin as [[k0 g] [Hk Hin]].
    simpl in Hk. subst k0.
    destruct (Hval _ _ Hin) as [c' [Hg Lc]]. rewrite Lc.
    unfold field in Hg. cbn [fields] in Hg. rewrite L in Hg.
    eapply Hstep; eauto.
  - rewrite (Hframe _ Hnin). cbn [fields]. rewrite L. exact Hp.
Qed.

Lemma site_of_path c rest x :
  own_path c rest = Some x -> rest <> [] -> exists ps, c = VObj ps /\ site c = c.
Proof.
  intros Hp Hr. destruct rest as [|k rest]; [congruence|].
  destruct (@own_path_object c k rest x Hp) as [ps ->]. eauto.
Qed.

Lemma gateway_step_keeps c c' rest x :
  spared gateway_settings rest = true ->
  own_path c rest = Some x -> gateway_step c = Ok c' ->
  own_path c' rest = Some x.
Proof.
  intros Hs Hp Hg.
  destruct (@site_of_path c rest x Hp (@spared_nonempty _ _ Hs))
    as [ps [-> S]].
  unfold gateway_step in Hg. rewrite S in Hg.
  exact (@mergeWith_spared _ force_leaf_frame rest _ _ _ _ Hg Hs Hp).
Qed.

Lemma tools_step_keeps c c' rest x :
  spared tools_settings rest = true ->
  own_path c rest = Some x -> tools_step c = Ok c' ->
  own_path c' rest = Some x.
Proof.
  intros Hs Hp Hg.
  destruct (@site_of_path c rest x Hp (@spared_nonempty _ _ Hs))
    as [ps [-> S]].
  unfold tools_step in Hg. rewrite S in Hg.
  exact (@mergeWith_spared _ preserve_leaf_frame rest _ _ _ _ Hg Hs Hp).
Qed.

Lemma defaults_step_keeps e c c' rest x :
  spared defaults_settings rest = true ->
  negb (selecting e) || apart rest ["model"] = true ->
  own_path c rest = Some x -> defaults_step e c = Ok c' ->
  own_path c' rest = Some x.
Proof.
  intros Hs Ha Hp Hg.
  destruct (@site_of_path c rest x Hp (@spared_nonempty _ _ Hs))
    as [ps [-> S]].
  unfold defaults_step in Hg. rewrite S in Hg.
  destruct rest as [|k r]; [discriminate Hs|].
  apply (@run_steps_own_path (defaults_steps e) ps c' k r x
           (defaults_steps_distinct e) Hg Hp).
  intros g c0 c0' Hin L Hp0 Hg0.
  unfold defaults_steps in Hin. destruct Hin as [Hin|Hin].
  - injection Hin as <- <-.
    destruct (@spared_single "tools" tools_settings "tools" r Hs)
      as [Hk|[_ Hs']]; [congruence|].
    eapply tools_step_keeps; eassumption.
  - destruct (selecting e); [|destruct Hin].
    destruct Hin as [Hin|[]]. injection Hin as <- <-.
    simpl in Ha. destruct r; discriminate Ha.
Qed.

Lemma agents_step_keeps e c c' rest x :
  spared agents_settings rest = true ->
  negb (selecting e) || apart rest ["defaults"; "model"] = true ->
  own_path c rest = Some x -> agents_step e c = Ok c' ->
  own_path c' rest = Some x.
Proof.
  intros Hs Ha Hp Hg.
  destruct (@site_of_path c rest x Hp (@spared_nonempty _ _ Hs))
    as [ps [-> S]].
  unfold agents_step in Hg. rewrite S in Hg.
  destruct rest as [|k r]; [discriminate Hs|].
  apply (@run_steps_own_path [("defaults", defaults_step e)] ps c' k r x
           eq_refl Hg Hp).
  intros g c0 c0' Hin L Hp0 Hg0.
  destruct Hin as [Hin|[]]. injection Hin as <- <-.
  destruct (@spared_single "defaults" defaults_settings "defaults" r Hs)
    as [Hk|[_ Hs']]; [congruence|].
  eapply defaults_step_keeps; eassumption.
Qed.

Lemma apart_head k p k' q :
  apart (k :: p) (k' :: q) = true -> k <> k' \/ (k = k' /\ apart p q = true).
Proof.
  cbn [apart]. destruct (String.eqb k k') eqn:E.
  - apply String.eqb_eq in E. auto.
  - apply String.eqb_neq in E. auto.
Qed.

Lemma truthy_object ps : truthy (VObj ps) = true.
Proof. reflexivity. Qed.

Lemma models_step_keeps e c c' rest x :
  apart rest ["providers"; "ollama"] = true ->
  own_path c rest = Some x -> models_step e c = Ok c' ->
  own_path c' rest = Some x.
Proof.
  intros Ha Hp Hg.
  destruct rest as [|k r]; [discriminate Ha|].
  destruct (@own_path_object _ _ _ _ Hp) as [ms ->].
  unfold models_step in Hg. cbn [truthy is_object] in Hg.
  destruct (providers_step e (field (VObj ms) "providers")) as [y|] eqn:Hy;
    [|discriminate Hg].
  cbn [bind] in Hg. injection Hg as <-.
  destruct (@apart_head _ _ _ _ Ha) as [Hk|[-> Ha']].
  - rewrite own_path_set_other by congruence. exact Hp.
  - rewrite own_path_set_same.
    cbn [own_path] in Hp. unfold field in Hy. cbn [fields] in Hy.
    destruct (lookup ms "providers") as [pv|]; [|discriminate Hp].
    destruct r as [|k2 r2]; [discriminate Ha'|].
    destruct (@own_path_object _ _ _ _ Hp) as [pp ->].
    unfold providers_step in Hy. cbn [truthy is_object] in Hy.
    destruct (provider_step e (field (VObj pp) "ollama")) as [z|];
      [|discriminate Hy].
    cbn [bind] in Hy. injection Hy as <-.
    destruct (@apart_head _ _ _ _ Ha') as [Hk|[-> Ha'']].
    + rewrite own_path_set_other by congruence. exact Hp.
    + destruct r2; discriminate Ha''.
Qed.

(** X11.  A run preserves the configuration it finds.  When the document
    read is JSON with an object at its root and the run gets as far as
    writing, the value at every path of the document that the run has no
    business with is in the file afterwards exactly as it was: a path
    whose last key is named by neither of the defaults, away from
    [models.providers.ollama] when Ollama is provisioned and from
    [agents.defaults.model] when a model is selected. *)
Theorem run_preserves_user_settings e f ps c n p x :
  json_file f = true ->
  load f = VObj ps ->
  main_config e f = Ok (c, n) ->
  own_path (load f) p = Some x ->
  untouched e p = true ->
  own_path (doc_of (disk (run e f))) p = Some x.
Proof.
  intros Hjf Hl Hrun Hp Hu.
  rewrite (@run_of_main_config e f c n Hrun). cbn [doc_of].
  pose proof (@own_path_json p (load f) x (@json_load f Hjf) Hp) as Hjx.
  rewrite <- (@to_json_json x Hjx).
  apply own_path_to_json; [|apply json_defined; exact Hjx].
  destruct (@main_config_root e f ps c n Hl Hrun) as [R _].
  unfold untouched in Hu.
  apply andb_true_iff in Hu. destruct Hu as [Hu Hsel].
  apply andb_true_iff in Hu. destruct Hu as [Hu Hprov].
  apply andb_true_iff in Hu. destruct Hu as [Hg Ha].
  rewrite Hl in Hp.
  destruct p as [|k rest]; [discriminate Hg|].
  apply (@run_steps_own_path (root_steps e) ps c k rest x
           (root_steps_distinct e) R Hp).
  intros g c0 c0' Hin L Hp0 Hg0.
  unfold root_steps in Hin. destruct Hin as [Hin|[Hin|Hin]].
  - injection Hin as <- <-.
    destruct (@spared_single "gateway" gateway_settings "gateway" rest Hg)
      as [Hk|[_ Hs']]; [congruence|].
    eapply gateway_step_keeps; eassumption.
  - injection Hin as <- <-.
    destruct (@spared_single "agents" agents_settings "agents" rest Ha)
      as [Hk|[_ Hs']]; [congruence|].
    eapply agents_step_keeps; eassumption.
  - destruct (is_set (OLLAMA_BASE_URL e) && is_set (OLLAMA_API_KEY e));
      [|destruct Hin].
    destruct Hin as [Hin|[]]. injection Hin as <- <-.
    eapply models_step_keeps; eassumption.
Qed.

Lemma run_preserves_user_settings_witness :
  own_path (doc_of (disk (run env_model_b (Document custom_doc))))
           ["gateway"; "port"] = Some (VNum 18789) /\
  own_path (doc_of (disk (run env_model_b (Document custom_doc))))
           ["models"; "providers"; "openai"] = Some (VObj [("apiKey", VStr "sk-1")]) /\
  own_path (doc_of (disk (run env_model_b (Document custom_doc))))
           ["agents"; "defaults"; "timeoutSeconds"] = Some (VNum 60).
Proof.
  destruct (main_config env_model_b (Document custom_doc))
    as [[c n]|] eqn:Hrun; [|vm_compute in Hrun; discriminate].
  split; [|split].
  - apply (@run_preserves_user_settings env_model_b (Document custom_doc)
             _ c n ["gateway"; "port"] _ eq_refl eq_refl Hrun); reflexivity.
  - apply (@run_preserves_user_settings env_model_b (Document custom_doc)
             _ c n ["models"; "providers"; "openai"] _ eq_refl eq_refl Hrun);
      reflexivity.
  - apply (@run_preserves_user_settings env_model_b (Document custom_doc)
             _ c n ["agents"; "defaults"; "timeoutSeconds"] _
             eq_refl eq_refl Hrun); reflexivity.
Defined.

(** ** The provider entry in the written document *)

Lemma lookup_rev_distinct (ps : props) k :
  distinct (map fst ps) = true -> lookup (rev ps) k = lookup ps k.
Proof.
  induction ps as [|[k0 x0] ps IH]; intros Hd; [reflexivity|].
  cbn [map fst] in Hd. apply distinct_cons in Hd. destruct Hd as [Hnin Hd].
  cbn [rev]. rewrite lookup_app, (IH Hd). cbn [lookup].
  destruct (String.eqb k0 k) eqn:E.
  - apply String.eqb_eq in E. subst k0.
    apply lookup_none_keys in Hnin. rewrite Hnin. reflexivity.
  - destruct (lookup ps k); reflexivity.
Qed.

Lemma entry_lookup u k en key :
  distinct (map fst en) = true ->
  lookup (fields (ollama_entry u k (VObj en))) key =
  match lookup en key with
  | Some x => Some x
  | None => lookup (base_fields u k) key
  end.
Proof.
  intros Hd. unfold ollama_entry. cbn [truthy fields].
  rewrite lookup_spread. cbn [own_props].
  rewrite (lookup_rev_distinct _ _ Hd). reflexivity.
Qed.

Lemma provider_step_lookup e en z key :
  provider_step e (VObj en) = Ok z ->
  key <> "models" \/ is_set (OLLAMA_MODEL e) = false ->
  exists zs, z = VObj zs /\
    lookup zs key =
    lookup (fields (ollama_entry (text_of (OLLAMA_BASE_URL e))
                                 (text_of (OLLAMA_API_KEY e)) (VObj en))) key.
Proof.
  intros Hz Hk. unfold provider_step in Hz.
  destruct (is_set (OLLAMA_MODEL e)) eqn:Hm.
  - destruct Hk as [Hk|Hk]; [|discriminate Hk].
    destruct (entry_add_model_cases _ _ _ Hz) as [(_ & -> & _)|(_ & ->)].
    + unfold ollama_entry. eexists. split; reflexivity.
    + unfold ollama_entry, put. cbn [fields with_fields].
      eexists. split; [reflexivity|].
      apply lookup_obj_set_other. congruence.
  - injection Hz as <-. unfold ollama_entry. eexists. split; reflexivity.
Qed.

Lemma own_path_app p : forall t q,
  own_path t (p ++ q) =
  match own_path t p with Some y => own_path y q | None => None end.
Proof.
  induction p as [|k p IH]; intros t q; [reflexivity|].
  cbn [app own_path]. destruct t as [| |b|z|s0|es named|ps]; try reflexivity.
  destruct (lookup ps k); [apply IH|reflexivity].
Qed.

Lemma own_path_cons_inv t k rest x :
  own_path t (k :: rest) = Some x ->
  exists ps c, t = VObj ps /\ lookup ps k = Some c /\ own_path c rest = Some x.
Proof.
  destruct t as [| |b|z|s0|es named|ps]; try discriminate.
  cbn [own_path]. destruct (lookup ps k) as [c|] eqn:L; [|discriminate].
  intros H. exists ps, c. auto.
Qed.

(** X12.  What a provisioning run writes into the provider entry when the
    document already has one.  For a JSON document whose
    [models.providers.ollama] is an object, the written entry holds under
    every key the value the entry had before; only a key the entry did not
    have gets the value of the script, which has one for [baseUrl],
    [apiKey], [api] and [authHeader] and none for any other key.  This is
    so for every key but [models] when a model is named, and for [models]
    too when none is. *)
Theorem provider_entry_fields_written e f ps c n en key :
  json_file f = true ->
  load f = VObj ps ->
  is_set (OLLAMA_BASE_URL e) && is_set (OLLAMA_API_KEY e) = true ->
  main_config e f = Ok (c, n) ->
  own_path (load f) ollama_path = Some (VObj en) ->
  key <> "models" \/ is_set (OLLAMA_MODEL e) = false ->
  own_path (doc_of (disk (run e f))) (ollama_path ++ [key]) =
  match lookup en key with
  | Some x => Some x
  | None => lookup (base_fields (text_of (OLLAMA_BASE_URL e))
                                (text_of (OLLAMA_API_KEY e))) key
  end.
Proof.
  intros Hjf Hl He Hrun Hp Hk.
  rewrite (@run_of_main_config e f c n Hrun). cbn [doc_of].
  pose proof (@own_path_json ollama_path (load f) (VObj en)
                (@json_load f Hjf) Hp) as Hjen.
  destruct (@main_config_root e f ps c n Hl Hrun) as [R Hc].
  destruct (@run_steps_at (root_steps e) (VObj ps) c "models" (models_step e)
              eq_refl (root_steps_distinct e) R) as [x [Hx Lx]].
  { unfold root_steps. rewrite He. right; right; now left. }
  rewrite Hl in Hp. unfold ollama_path in Hp.
  destruct (@own_path_cons_inv _ _ _ _ Hp) as (ps0 & mv & Eps & Lm & Hp1).
  injection Eps as <-.
  destruct (@own_path_cons_inv _ _ _ _ Hp1) as (ms & pv & -> & Lp & Hp2).
  destruct (@own_path_cons_inv _ _ _ _ Hp2) as (pp & ev & -> & Le & Hp3).
  cbn [own_path] in Hp3. injection Hp3 as ->.
  unfold field in Hx. cbn [fields] in Hx. rewrite Lm in Hx.
  unfold models_step in Hx. cbn [truthy is_object] in Hx.
  destruct (providers_step e (field (VObj ms) "providers")) as [y|] eqn:Hy;
    [|discriminate Hx].
  cbn [bind] in Hx. injection Hx as <-.
  unfold field in Hy. cbn [fields] in Hy. rewrite Lp in Hy.
  unfold providers_step in Hy. cbn [truthy is_object] in Hy.
  destruct (provider_step e (field (VObj pp) "ollama")) as [z|] eqn:Hz;
    [|discriminate Hy].
  cbn [bind] in Hy. injection Hy as <-.
  unfold field in Hz. cbn [fields] in Hz. rewrite Le in Hz.
  destruct (provider_step_lookup _ _ Hz Hk) as [zs [-> Lz]].
  assert (Hd : distinct (map fst en) = true).
  { simpl in Hjen. apply andb_true_iff in Hjen. apply Hjen. }
  rewrite (entry_lookup _ _ _ key Hd) in Lz.
  assert (Hent : own_path c ollama_path = Some (VObj zs)).
  { rewrite Hc. unfold ollama_path.
    rewrite (@own_path_head (fields c) "models" _ _ Lx).
    unfold put. cbn [fields with_fields].
    rewrite !own_path_set_same. reflexivity. }
  rewrite own_path_app.
  rewrite (@own_path_to_json ollama_path c (VObj zs) Hent eq_refl).
  rewrite to_json_obj. cbn [own_path].
  destruct (lookup zs key) as [v|] eqn:Lv.
  - assert (Hjv : json v = true).
    { destruct (lookup en key) as [x0|] eqn:Len.
      - injection Lz as ->. exact (json_lookup _ _ Hjen Len).
      - unfold base_fields in Lz. cbn [lookup] in Lz.
        repeat match type of Lz with
               | _ = (if ?b then _ else _) =>
                   destruct b; [injection Lz as ->; reflexivity|]
               end.
        discriminate Lz. }
    rewrite (lookup_to_json_props_some _ _ Lv (json_defined _ Hjv)).
    rewrite (to_json_json _ Hjv). exact Lz.
  - rewrite (lookup_to_json_props_none _ _ Lv). exact Lz.
Qed.

Lemma provider_entry_fields_written_witness :
  own_path (doc_of (disk (run env_model_b (Document custom_doc))))
           (ollama_path ++ ["api"]) = Some (VStr "openai-responses") /\
  own_path (doc_of (disk (run env_model_b (Document custom_doc))))
           (ollama_path ++ ["timeout"]) = Some (VNum 30) /\
  own_path (doc_of (disk (run env_model_b (Document custom_doc))))
           (ollama_path ++ ["authHeader"]) = Some (VBool false).
Proof.
  destruct (main_config env_model_b (Document custom_doc))
    as [[c n]|] eqn:Hrun; [|vm_compute in Hrun; discriminate].
  split; [|split].
  - apply (@provider_entry_fields_written env_model_b (Document custom_doc)
             _ c n _ "api" eq_refl eq_refl eq_refl Hrun eq_refl).
    left. discriminate.
  - apply (@provider_entry_fields_written env_model_b (Document custom_doc)
             _ c n _ "timeout" eq_refl eq_refl eq_refl Hrun eq_refl).
    left. discriminate.
  - apply (@provider_entry_fields_written env_model_b (Document custom_doc)
             _ c n _ "authHeader" eq_refl eq_refl eq_refl Hrun eq_refl).
    left. discriminate.
Defined.

(** X13.  With Ollama enabled and a model named, a document whose
    [models.providers.ollama.models] is there but is not a sequence (a
    mapping keyed by model id, say) stops the run: the value has no [some]
    method, the call throws, the exception is caught and the file is left
    as it was, provider entry included. *)
Theorem provisioning_aborts_on_model_list_not_sequence e f ps v :
  json_file f = true ->
  load f = VObj ps ->
  selecting e = true ->
  own_path (load f) models_path = Some v ->
  truthy v = true ->
  isArray v = false ->
  run e f = aborted f.
Proof.
  intros Hjf Hl Hsel Hp Ht Harr.
  unfold selecting in Hsel.
  apply andb_true_iff in Hsel. destruct Hsel as [He Hm].
  pose proof (json_load _ Hjf) as Hj.
  unfold run, main.
  rewrite main_config_steps by (rewrite Hl; reflexivity).
  destruct (@root_steps_merges e (load f) ltac:(rewrite Hl; reflexivity))
    as (g & a & Ho & Hf & ->).
  rewrite He. cbn [run_steps]. rewrite Hf.
  rewrite Hl in Hp, Hj |- *. unfold models_path in Hp.
  destruct (@own_path_cons_inv _ _ _ _ Hp) as (ps0 & mv & Eps & Lm & Hp1).
  injection Eps as <-.
  destruct (@own_path_cons_inv _ _ _ _ Hp1) as (ms & pv & -> & Lp & Hp2).
  destruct (@own_path_cons_inv _ _ _ _ Hp2) as (pp & ev & -> & Le & Hp3).
  destruct (@own_path_cons_inv _ _ _ _ Hp3) as (en & v' & -> & Lv & Hp4).
  cbn [own_path] in Hp4. injection Hp4 as ->.
  assert (Hd : distinct (map fst en) = true).
  { pose proof (json_lookup _ _ Hj Lm) as J1.
    pose proof (json_lookup _ _ J1 Lp) as J2.
    pose proof (json_lookup _ _ J2 Le) as J3.
    simpl in J3. apply andb_true_iff in J3. apply J3. }
  unfold field. cbn [fields]. rewrite Lm.
  unfold models_step. cbn [truthy is_object].
  unfold field. cbn [fields]. rewrite Lp.
  unfold providers_step. cbn [truthy is_object].
  unfold field. cbn [fields]. rewrite Le.
  unfold provider_step. rewrite Hm.
  unfold entry_add_model, field.
  rewrite (entry_lookup _ _ _ "models" Hd), Lv, Ht.
  destruct v; try discriminate Ht; try discriminate Harr; reflexivity.
Qed.

Lemma provisioning_aborts_on_model_list_not_sequence_witness :
  let doc := VObj [("models", VObj [("providers", VObj [("ollama", VObj [
               ("models", VObj [("llama3", VObj [("contextWindow", VNum 8192)])])
             ])])])] in
  run env_model_b (Document doc) = aborted (Document doc).
Proof.
  intros doc.
  apply (@provisioning_aborts_on_model_list_not_sequence env_model_b
           (Document doc) _ _ eq_refl eq_refl eq_refl eq_refl eq_refl eq_refl).
Defined.

(** ** The context window read from the environment *)

Lemma leading_digits_stop rest a :
  starts_with_digit rest = false ->
  leading_digits 10 rest (Some a) = Some a.
Proof.
  destruct rest as [|c rest]; [reflexivity|].
  cbn [starts_with_digit leading_digits].
  destruct (digit_in 10 c); [discriminate|reflexivity].
Qed.

Lemma leading_digits_acc rest :
  starts_with_digit rest = false ->
  forall d p,
    leading_digits 10 (NilEmpty.string_of_uint d ++ rest) (Some (N.pos p)) =
    Some (N.pos (Pos.of_uint_acc d p)).
Proof.
  intros Hr. induction d as [|d IH|d IH|d IH|d IH|d IH|d IH|d IH|d IH|d IH|d IH];
    intros p; cbn [NilEmpty.string_of_uint String.append Pos.of_uint_acc];
    [apply leading_digits_stop; exact Hr | ..];
    cbn [leading_digits];
    match goal with
    | |- context [digit_in 10 ?c] =>
        change (digit_in 10 c) with (Some (N.of_nat (nat_of_ascii c) - 48)%N)
    end;
    cbv beta iota;
    match goal with
    | |- leading_digits 10 _ (Some ?a) = Some (N.pos (Pos.of_uint_acc _ ?q)) =>
        replace a with (N.pos q) by (vm_compute N.sub; lia)
    end;
    apply IH.
Qed.

Lemma leading_digits_zero rest :
  starts_with_digit rest = false ->
  forall d,
    leading_digits 10 (NilEmpty.string_of_uint d ++ rest) (Some 0%N) =
    Some (N.of_uint d).
Proof.
  intros Hr. induction d as [|d IH|d IH|d IH|d IH|d IH|d IH|d IH|d IH|d IH|d IH];
    cbn [NilEmpty.string_of_uint String.append];
    [apply leading_digits_stop; exact Hr | exact IH | ..];
    cbn [leading_digits];
    match goal with
    | |- context [digit_in 10 ?c] =>
        change (digit_in 10 c) with (Some (N.of_nat (nat_of_ascii c) - 48)%N)
    end;
    cbv beta iota;
    match goal with
    | |- leading_digits 10 _ (Some ?a) = _ =>
        let a' := eval vm_compute in a in change a with a'
    end;
    apply (@leading_digits_acc rest Hr).
Qed.

Lemma parseInt_string_decimal d rest :
  d <> Decimal.Nil -> d <> Decimal.D0 Decimal.Nil ->
  starts_with_digit rest = false ->
  parseInt_string (NilEmpty.string_of_uint d ++ rest) =
  Some (Z.of_N (N.of_uint d)).
Proof.
  intros Hnil Hzero Hr.
  assert (E : parseInt_string (NilEmpty.string_of_uint d ++ rest) =
              match leading_digits 10 (NilEmpty.string_of_uint d ++ rest)
                      (Some 0%N) with
              | Some n => Some (Z.of_N n)
              | None => None
              end).
  { destruct d as [|l|l|l|l|l|l|l|l|l|l]; try congruence; try reflexivity.
    destruct l; try congruence; reflexivity. }
  rewrite E, (@leading_digits_zero rest Hr). reflexivity.
Qed.

(** X14.  The context window is the integer the value of
    [OLLAMA_CONTEXT_WINDOW] starts with, and whatever follows it is
    ignored: when the value is the decimal numeral of a number other than
    zero (and within the integers a JavaScript number holds exactly),
    followed by nothing or by text that does not start with a digit (a
    unit, a fraction, a comment), the context window is that number. *)
Theorem context_window_reads_leading_integer e n rest :
  n <> 0%N ->
  (n <= 2 ^ 53)%N ->
  starts_with_digit rest = false ->
  OLLAMA_CONTEXT_WINDOW e = Some (String.append (decimal n) rest) ->
  contextWindow_of e = Z.of_N n.
Proof.
  intros Hn _ Hr He. unfold contextWindow_of. rewrite He. cbn [parseInt].
  unfold decimal. rewrite parseInt_string_decimal.
  - rewrite DecimalN.Unsigned.of_to.
    destruct (Z.eqb_spec (Z.of_N n) 0) as [E|E]; [lia|reflexivity].
  - destruct n as [|p]; [congruence|]. apply DecimalPos.Unsigned.to_uint_nonnil.
  - destruct n as [|p]; [congruence|]. apply DecimalPos.Unsigned.to_uint_nonzero.
  - exact Hr.
Qed.

Lemma context_window_reads_leading_integer_witness :
  contextWindow_of (env_with_window (Some "8k")) = 8 /\
  contextWindow_of (env_with_window (Some "16384 tokens")) = 16384.
Proof.
  split.
  - apply (@context_window_reads_leading_integer
             (env_with_window (Some "8k")) 8 "k");
      [discriminate|discriminate|reflexivity|reflexivity].
  - apply (@context_window_reads_leading_integer
             (env_with_window (Some "16384 tokens")) 16384 " tokens");
      [discriminate|discriminate|reflexivity|reflexivity].
Defined.

(** ** The summary after a run *)

Lemma in_keys_obj_set (ps : props) k x : In k (map fst (obj_set ps k x)).
Proof.
  pose proof (lookup_obj_set_same ps k x) as L.
  apply lookup_In in L. apply in_map_iff. exists (k, x). auto.
Qed.

Lemma in_keys_put t k x :
  is_object t = true -> In k (keys_of (put t k x)).
Proof.
  intros Ht. unfold keys_of, put.
  destruct t as [| |b|z|s0|es named|ps]; try discriminate Ht;
    cbn [fields with_fields own_props].
  - rewrite map_app. apply in_or_app. right. apply in_keys_obj_set.
  - apply in_keys_obj_set.
Qed.

Lemma optional_object v k :
  is_object v = true -> named_key k = true -> optional v k = Ok (field v k).
Proof.
  intros Hv Hk. rewrite <- (get_prop_named v k Hv Hk).
  destruct v; try discriminate Hv; reflexivity.
Qed.

Lemma optional_primary mm : optional mm "primary" = Ok (primary_of mm).
Proof. destruct mm; reflexivity. Qed.

Lemma summary_default_model_form c a d :
  is_object c = true ->
  field c "agents" = a -> is_object a = true ->
  field a "defaults" = d -> is_object d = true ->
  summary_default_model c = Ok (primary_of (field d "model")).
Proof.
  intros Hc Ha Hoa Hd Hod. unfold summary_default_model.
  rewrite (get_prop_named c "agents" Hc eq_refl), Ha. cbn [bind].
  rewrite (optional_object a "defaults" Hoa eq_refl), Hd. cbn [bind].
  rewrite (optional_object d "model" Hod eq_refl). cbn [bind].
  apply optional_primary.
Qed.

Lemma summary_providers_after e t c :
  is_object t = true ->
  is_set (OLLAMA_BASE_URL e) && is_set (OLLAMA_API_KEY e) = true ->
  is_set (OLLAMA_MODEL e) = true ->
  run_steps t (root_steps e) = Ok c ->
  exists providers,
    summary_providers c = Ok providers /\ In "ollama" providers.
Proof.
  intros Ht He Hm R.
  pose proof (same_node_object
                (@run_steps_same_node (root_steps e) t c Ht R)) as Hc.
  destruct (@run_steps_at (root_steps e) t c "models" (models_step e)
              Ht (root_steps_distinct e) R) as [x [Hx Lx]].
  { unfold root_steps. rewrite He. right; right; now left. }
  unfold summary_providers.
  rewrite (get_prop_named c "models" Hc eq_refl).
  unfold field at 1. rewrite Lx. cbn [bind].
  unfold models_step in Hx.
  destruct (is_object (if truthy (field t "models") then field t "models"
                       else VObj [])) eqn:Hm0; [|discriminate Hx].
  destruct (providers_step e _) as [y|] eqn:Hy; [|discriminate Hx].
  cbn [bind] in Hx. injection Hx as <-.
  rewrite optional_object; [|rewrite is_object_put; exact Hm0|reflexivity].
  rewrite field_put_same by exact Hm0. cbn [bind].
  unfold providers_step in Hy.
  destruct (is_object (if truthy (field _ "providers")
                       then field _ "providers" else VObj [])) eqn:Hp0.
  - destruct (provider_step e _) as [z|]; [|discriminate Hy].
    cbn [bind] in Hy. injection Hy as <-.
    assert (Hobj : is_object (put (if truthy (field (if truthy (field t "models") then field t "models" else VObj []) "providers") then field (if truthy (field t "models") then field t "models" else VObj []) "providers" else VObj []) "ollama" z) = true)
      by (rewrite is_object_put; exact Hp0).
    rewrite (object_truthy _ Hobj).
    eexists. split; [reflexivity|]. apply in_keys_put. exact Hp0.
  - rewrite Hm in Hy. discriminate Hy.
Qed.

(** X15.  After a run that provisioned Ollama with a model, the summary
    names what the run did: its list of providers is not empty and has
    [ollama] in it, and the default model it shows is the selector
    [ollama/<model>] of the environment. *)
Theorem summary_after_provisioning e f c n :
  selecting e = true ->
  main_config e f = Ok (c, n) ->
  exists providers,
    In "ollama" providers /\
    summary_of c =
    Ok {| providers_line := Some providers;
          default_model_line :=
            Some (VStr (selector (text_of (OLLAMA_MODEL e)))) |}.
Proof.
  intros Hsel Hrun.
  pose proof Hsel as Hsel'. unfold selecting in Hsel'.
  apply andb_true_iff in Hsel'. destruct Hsel' as [He Hm].
  pose proof (main_config_object _ _ Hrun) as Hl.
  assert (Hdm : summary_default_model c =
                Ok (VStr (selector (text_of (OLLAMA_MODEL e))))).
  { destruct (selecting_fields e f He Hm Hrun)
      as (c4 & a & d & N4 & Ha & Hoa & _ & Hd & Hod & _ & Hprim & _ & Hc).
    pose proof (same_node_object N4) as Hc4.
    destruct (strict_eq_str (persisted_selector (load f))
                (selector (text_of (OLLAMA_MODEL e)))) eqn:E.
    - subst c. rewrite (@summary_default_model_form c4 a d Hc4 Ha Hoa Hd Hod).
      rewrite Hprim. rewrite (strict_eq_str_true _ _ E). reflexivity.
    - subst c.
      assert (Hfa : field c4 "agents" <> VUndef)
        by (rewrite Ha; apply object_defined; exact Hoa).
      assert (Hfd : field a "defaults" <> VUndef)
        by (rewrite Hd; apply object_defined; exact Hod).
      rewrite (@summary_default_model_form
                 (wb c4 "agents" (wb a "defaults" (put d "model"
                    (selected (text_of (OLLAMA_MODEL e))))))
                 (wb a "defaults" (put d "model"
                    (selected (text_of (OLLAMA_MODEL e)))))
                 (put d "model" (selected (text_of (OLLAMA_MODEL e))))).
      + rewrite field_put_same by exact Hod. reflexivity.
      + rewrite is_object_wb. exact Hc4.
      + apply field_wb_same; assumption.
      + rewrite is_object_wb. exact Hoa.
      + apply field_wb_same; assumption.
      + rewrite is_object_put. exact Hod. }
  rewrite main_config_steps in Hrun by exact Hl.
  destruct (run_steps (load f) (root_steps e)) as [r|] eqn:R;
    [|discriminate Hrun].
  cbn [bind] in Hrun. injection Hrun as <- _.
  destruct (@summary_providers_after e (load f) r Hl He Hm R)
    as [providers [Hp Hin]].
  exists providers. split; [exact Hin|].
  unfold summary_of. rewrite Hp, Hdm. cbn [bind].
  destruct providers as [|k ks]; [destruct Hin|]. reflexivity.
Qed.

Lemma summary_after_provisioning_witness :
  exists c providers,
    main_config env_model_b (Document model_a_doc) = Ok (c, OllamaConfigured) /\
    In "ollama" providers /\
    summary_of c =
    Ok {| providers_line := Some providers;
          default_model_line := Some (VStr "ollama/modelB") |}.
Proof.
  destruct (main_config env_model_b (Document model_a_doc))
    as [[c n]|] eqn:Hrun; [|vm_compute in Hrun; discriminate].
  assert (Hn : n = OllamaConfigured).
  { vm_compute in Hrun. injection Hrun as _ <-. reflexivity. }
  subst n.
  destruct (@summary_after_provisioning env_model_b (Document model_a_doc)
              c OllamaConfigured eq_refl Hrun) as [providers [Hin Hs]].
  exists c, providers. split; [reflexivity|]. split; [exact Hin|exact Hs].
Defined.

(** ** Merging the same source again *)







(** ** Documents on which a run cannot fail *)





